(** * Inventory location snapshots: the bulk synchronisation run, its
    concurrency limiter, the status/start action and the incremental
    webhook handler.

    Embedded sources:
    - [app/routes/app._index.jsx]: [parallelLimit],
      [processVariantsInBackground], [action];
    - [app/utils/inventory.jsx]: [bulkInventoryMetafields] and the webhook
      route's [handleInventoryUpdate].

    JavaScript values are modelled by the inductive [value]; numbers are the
    integers (exact below 2^53) plus [NaN].  GraphQL answers are records that
    follow the shape of the query that produced them.  Wall-clock readings
    ([new Date().toISOString()]) and the answers of the Admin API are inputs
    of the model. *)

From Stdlib Require Import ZArith Ascii String List Bool Lia Decimal DecimalString DecimalZ DecimalPos.
From stdpp Require Import base option list strings.

(** ** JavaScript values and the built-ins the program uses *)

Module Js.
Local Open Scope Z_scope.

#[warnings="-register-all"]
Inductive value : Type :=
| VUndef
| VNull
| VBool (b : bool)
| VNum (z : Z)
| VNaN
| VStr (s : string)
| VArr (l : list value)
| VObj (l : list (string * value)).

Inductive exn : Type :=
| TypeError (msg : string)
| SyntaxError
| Error (msg : string)
| NotModelled.

(** [exn + A]: a computation that either throws or returns. *)
Definition res (A : Type) : Type := exn + A.

Definition message (e : exn) : string :=
  match e with
  | TypeError m => m
  | SyntaxError => "Unexpected token in JSON"
  | Error m => m
  | NotModelled => "value outside the model"
  end.

(** ToBoolean. *)
Definition truthy (v : value) : bool :=
  match v with
  | VUndef | VNull | VNaN => false
  | VBool b => b
  | VNum z => negb (z =? 0)
  | VStr s => negb (String.eqb s EmptyString)
  | VArr _ | VObj _ => true
  end.

(** [a || b] *)
Definition or_else (a b : value) : value := if truthy a then a else b.

(** Number::toString for an integer. *)
Definition string_of_Z (z : Z) : string := NilZero.string_of_int (Z.to_int z).

Definition join (sep : string) (l : list string) : string := String.concat sep l.

(** ToString.  An array prints as its elements joined by commas, [null] and
    [undefined] elements printing as the empty string. *)
Fixpoint to_string (v : value) : string :=
  match v with
  | VUndef => "undefined"
  | VNull => "null"
  | VBool true => "true"
  | VBool false => "false"
  | VNum z => string_of_Z z
  | VNaN => "NaN"
  | VStr s => s
  | VArr l =>
      join ","
        ((fix elems (l : list value) : list string :=
            match l with
            | [] => []
            | (VUndef | VNull) :: r => EmptyString :: elems r
            | x :: r => to_string x :: elems r
            end) l)
  | VObj _ => "[object Object]"
  end.

(** White space skipped by [parseInt] (the one-byte members of
    StrWhiteSpaceChar). *)
Definition is_space (c : ascii) : bool :=
  let n := nat_of_ascii c in
  ((9 <=? n) && (n <=? 13) || (n =? 32))%nat.

Fixpoint trim_start (s : string) : string :=
  match s with
  | String c r => if is_space c then trim_start r else s
  | EmptyString => s
  end.

(** The longest prefix of decimal digits, as a [Decimal.uint]. *)
Fixpoint digit_prefix (s : string) : uint :=
  match s with
  | String c r =>
      match uint_of_char c (Some (digit_prefix r)) with
      | Some d => d
      | None => Nil
      end
  | EmptyString => Nil
  end.

Definition hex_val (c : ascii) : option Z :=
  let n := Z.of_nat (nat_of_ascii c) in
  if (48 <=? n) && (n <=? 57) then Some (n - 48)
  else if (97 <=? n) && (n <=? 102) then Some (n - 87)
  else if (65 <=? n) && (n <=? 70) then Some (n - 55)
  else None.

(** Value of the longest prefix of hexadecimal digits; [None] when the
    prefix is empty. *)
Fixpoint hex_prefix (s : string) (acc : option Z) : option Z :=
  match s with
  | String c r =>
      match hex_val c with
      | Some d => hex_prefix r (Some (16 * default 0 acc + d))
      | None => acc
      end
  | EmptyString => acc
  end.

Definition split_sign (s : string) : bool * string :=
  match s with
  | String "-" r => (true, r)
  | String "+" r => (false, r)
  | _ => (false, s)
  end.

Definition signed (neg : bool) (z : Z) : Z := if neg then - z else z.

(** [parseInt(string, 10)] on a string; [None] is NaN. *)
Definition parseInt10_string (s : string) : option Z :=
  let '(neg, r) := split_sign (trim_start s) in
  match digit_prefix r with
  | Nil => None
  | d => Some (signed neg (Z.of_uint d))
  end.

(** [parseInt(string)] with no radix: a [0x]/[0X] prefix selects base 16. *)
Definition parseInt_string (s : string) : option Z :=
  let '(neg, r) := split_sign (trim_start s) in
  match r with
  | String "0" (String ("x" | "X") h) => signed neg <$> hex_prefix h None
  | _ =>
      match digit_prefix r with
      | Nil => None
      | d => Some (signed neg (Z.of_uint d))
      end
  end.

Definition of_number (n : option Z) : value :=
  match n with Some z => VNum z | None => VNaN end.

(** [parseInt(v, 10)] and [parseInt(v)]: the argument is first converted
    with ToString. *)
Definition parseInt10 (v : value) : value := of_number (parseInt10_string (to_string v)).
Definition parseInt (v : value) : value := of_number (parseInt_string (to_string v)).

(** [a === b].  Objects and arrays compare by identity; two values that come
    from different JSON documents are never the same object. *)
Definition strict_eq (a b : value) : bool :=
  match a, b with
  | VUndef, VUndef | VNull, VNull => true
  | VBool x, VBool y => Bool.eqb x y
  | VNum x, VNum y => x =? y
  | VStr x, VStr y => String.eqb x y
  | _, _ => false
  end.

Fixpoint assoc (k : string) (l : list (string * value)) : option value :=
  match l with
  | [] => None
  | (k', v) :: r => if String.eqb k k' then Some v else assoc k r
  end.

(** [o[k] = v] on an object's own properties: an existing key keeps its
    place. *)
Fixpoint assoc_set (k : string) (v : value) (l : list (string * value))
  : list (string * value) :=
  match l with
  | [] => [(k, v)]
  | (k', v') :: r =>
      if String.eqb k k' then (k, v) :: r else (k', v') :: assoc_set k v r
  end.

(** [v.k] for a key that is no built-in member ([id], [locations], ...). *)
Definition get (v : value) (k : string) : res value :=
  match v with
  | VUndef =>
      inl (TypeError ("Cannot read properties of undefined (reading '" +:+ k +:+ "')"))
  | VNull =>
      inl (TypeError ("Cannot read properties of null (reading '" +:+ k +:+ "')"))
  | VObj l => inr (default VUndef (assoc k l))
  | _ => inr VUndef
  end.

(** [s.split(sep)] for a one-character separator; never the empty list. *)
Fixpoint split (sep : ascii) (s : string) : list string :=
  match s with
  | EmptyString => [EmptyString]
  | String c r =>
      if Ascii.eqb c sep then EmptyString :: split sep r
      else
        match split sep r with
        | h :: t => String c h :: t
        | [] => [String c EmptyString]
        end
  end.

(** [a.pop()] on an array of strings, read as a value. *)
Definition pop (l : list string) : value :=
  match last l with Some s => VStr s | None => VUndef end.

End Js.

(** ** [JSON.parse] *)

Module Json.
Import Js.
Local Open Scope Z_scope.

(** The quotation mark, U+0022. *)
Abbreviation QUOTE := (Ascii false true false false false true false false).

Definition is_ws (c : ascii) : bool :=
  let n := nat_of_ascii c in
  ((n =? 32) || (n =? 9) || (n =? 10) || (n =? 13))%nat.

Fixpoint skip_ws (s : string) : string :=
  match s with
  | String c r => if is_ws c then skip_ws r else s
  | EmptyString => s
  end.

Definition is_digit (c : ascii) : bool :=
  let n := nat_of_ascii c in ((48 <=? n) && (n <=? 57))%nat.

(** The digits at the head of [s] and what follows them. *)
Fixpoint span_digits (s : string) : string * string :=
  match s with
  | String c r =>
      if is_digit c then let '(d, t) := span_digits r in (String c d, t)
      else (EmptyString, s)
  | EmptyString => (EmptyString, s)
  end.

Definition Z_of_digits (d : string) : Z := Z.of_uint (digit_prefix d).

Definition hex4 (a b c d : ascii) : option Z :=
  x ← hex_val a; y ← hex_val b; z ← hex_val c; w ← hex_val d;
  Some (((x * 16 + y) * 16 + z) * 16 + w).

(** The characters of a string literal after its opening quote, up to and
    including the closing quote.  Escapes above U+007F have no one-byte
    image and are left out of the model. *)
Fixpoint string_body (s : string) : res (string * string) :=
  match s with
  | EmptyString => inl SyntaxError
  | String QUOTE r => inr (EmptyString, r)
  | String "\" (String "u" (String a (String b (String c (String d r))))) =>
      match hex4 a b c d with
      | None => inl SyntaxError
      | Some n =>
          if (n <? 128)%Z then
            match string_body r with
            | inr (t, r') => inr (String (ascii_of_nat (Z.to_nat n)) t, r')
            | inl e => inl e
            end
          else
            match string_body r with
            | inl SyntaxError => inl SyntaxError
            | _ => inl NotModelled
            end
      end
  | String "\" (String e r) =>
      let esc (c : ascii) :=
        match string_body r with
        | inr (t, r') => inr (String c t, r')
        | inl x => inl x
        end in
      match e with
      | QUOTE => esc QUOTE
      | "\" => esc "\"
      | "/" => esc "/"
      | "b" => esc (ascii_of_nat 8%nat)
      | "f" => esc (ascii_of_nat 12%nat)
      | "n" => esc (ascii_of_nat 10%nat)
      | "r" => esc (ascii_of_nat 13%nat)
      | "t" => esc (ascii_of_nat 9%nat)
      | _ => inl SyntaxError
      end%char
  | String "\" EmptyString => inl SyntaxError
  | String c r =>
      if (nat_of_ascii c <? 32%nat)%nat then inl SyntaxError
      else
        match string_body r with
        | inr (t, r') => inr (String c t, r')
        | inl e => inl e
        end
  end%char.

(** A number literal: [-? int frac? exp?].  The literal denotes
    [mantissa * 10 ^ e]; only integral values are in the model. *)
Definition number (s : string) : res (value * string) :=
  let '(neg, s1) := match s with String "-" r => (true, r) | _ => (false, s) end in
  let '(ip, s2) := span_digits s1 in
  match ip with
  | EmptyString => inl SyntaxError
  | String c t =>
      if Ascii.eqb c "0" && negb (String.eqb t EmptyString) then inl SyntaxError
      else
        let frac :=
          match s2 with
          | String "." r =>
              let '(fp, s3) := span_digits r in
              if String.eqb fp EmptyString then inl SyntaxError else inr (fp, s3)
          | _ => inr (EmptyString, s2)
          end in
        match frac with
        | inl e => inl e
        | inr (fp, s3) =>
            let expo :=
              match s3 with
              | String ("e" | "E") r =>
                  let '(eneg, r1) :=
                    match r with
                    | String "-" r' => (true, r')
                    | String "+" r' => (false, r')
                    | _ => (false, r)
                    end in
                  let '(ep, s4) := span_digits r1 in
                  if String.eqb ep EmptyString then inl SyntaxError
                  else inr (signed eneg (Z_of_digits ep), s4)
              | _ => inr (0%Z, s3)
              end in
            match expo with
            | inl e => inl e
            | inr (ex, s4) =>
                let m := Z_of_digits (ip +:+ fp) in
                let e10 := (ex - Z.of_nat (String.length fp))%Z in
                if (400 <? Z.abs e10)%Z then inl NotModelled
                else if (0 <=? e10)%Z then inr (VNum (signed neg (m * 10 ^ e10)%Z), s4)
                else if (m mod 10 ^ (- e10) =? 0)%Z
                     then inr (VNum (signed neg (m / 10 ^ (- e10))%Z), s4)
                     else inl NotModelled
            end
        end
  end%char.

Definition literal (lit : string) (v : value) (s : string) : res (value * string) :=
  if String.prefix lit s
  then inr (v, String.substring (String.length lit) (String.length s - String.length lit)%nat s)
  else inl SyntaxError.

(** Values, array elements and object members.  [fuel] bounds the nesting
    of calls; running out of it is reported as [NotModelled], never as a
    syntax error. *)
Fixpoint parse_value (fuel : nat) (s : string) : res (value * string) :=
  match fuel with
  | O => inl NotModelled
  | S fuel =>
      let elements :=
        fix elements (n : nat) (acc : list value) (s : string) : res (value * string) :=
          match n with
          | O => inl NotModelled
          | S n =>
              match parse_value fuel (skip_ws s) with
              | inl e => inl e
              | inr (v, r) =>
                  match skip_ws r with
                  | String "," r' => elements n (acc ++ [v]) r'
                  | String "]" r' => inr (VArr (acc ++ [v]), r')
                  | _ => inl SyntaxError
                  end
              end
          end in
      let members :=
        fix members (n : nat) (acc : list (string * value)) (s : string) : res (value * string) :=
          match n with
          | O => inl NotModelled
          | S n =>
              match skip_ws s with
              | String QUOTE r =>
                  match string_body r with
                  | inl e => inl e
                  | inr (k, r1) =>
                      match skip_ws r1 with
                      | String ":" r2 =>
                          match parse_value fuel (skip_ws r2) with
                          | inl e => inl e
                          | inr (v, r3) =>
                              match skip_ws r3 with
                              | String "," r4 => members n (assoc_set k v acc) r4
                              | String "}" r4 => inr (VObj (assoc_set k v acc), r4)
                              | _ => inl SyntaxError
                              end
                          end
                      | _ => inl SyntaxError
                      end
                  end
              | _ => inl SyntaxError
              end
          end in
      match s with
      | String "n" _ => literal "null" VNull s
      | String "t" _ => literal "true" (VBool true) s
      | String "f" _ => literal "false" (VBool false) s
      | String QUOTE r =>
          match string_body r with
          | inr (t, r') => inr (VStr t, r')
          | inl e => inl e
          end
      | String "[" r =>
          match skip_ws r with
          | String "]" r' => inr (VArr [], r')
          | _ => elements (String.length s) [] r
          end
      | String "{" r =>
          match skip_ws r with
          | String "}" r' => inr (VObj [], r')
          | _ => members (String.length s) [] r
          end
      | _ => number s
      end%char
  end.

(** [JSON.parse(text)]: one value, surrounded by white space only. *)
Definition parse (text : string) : res value :=
  match parse_value (S (String.length text)) (skip_ws text) with
  | inl e => inl e
  | inr (v, r) =>
      match skip_ws r with
      | EmptyString => inr v
      | _ => inl SyntaxError
      end
  end.

(** JSON text written with apostrophes in place of quotation marks. *)
Fixpoint quoted (s : string) : string :=
  match s with
  | EmptyString => EmptyString
  | String c r => String (if Ascii.eqb c "'" then QUOTE else c) (quoted r)
  end.

End Json.

(** ** The Admin API as seen by the program *)

Module Gql.
Import Js.

(** One [inventoryLevels] edge of the [InventoryLevels] query:
    [node { quantities(names: ["available"]) { quantity } location { id name } }]. *)
Record Edge : Type := {
  quantities : list Z;
  location_gid : string;
  location_name : string;
}.

(** Body of the [InventoryLevels] answer.  [levels_errors] is the body's
    [errors] member (absent: [None]); [levels_edges] is
    [data.inventoryItem.inventoryLevels.edges], [None] when that path
    crosses [null] or [undefined]. *)
Record Levels : Type := {
  levels_errors : option (list string);
  levels_edges : option (list Edge);
}.

(** Body of the [metafieldsSet] answer: the top-level [errors] member and
    [data.metafieldsSet.userErrors]. *)
Record SetResult : Type := {
  set_errors : option (list string);
  set_userErrors : list string;
}.

(** The variant of an inventory item, with its [custom.locations]
    metafield ([null] when the variant has none). *)
Record Metafield : Type := {
  metafield_id : string;
  metafield_value : value;
}.

Record Variant : Type := {
  variant_id : string;
  metafield : option Metafield;
}.

(** The answers of the Admin API to the item-level requests: for each
    request either the decoded body or the exception raised by the
    transport.  [getVariant] yields [data?.inventoryItem?.variant],
    [getLocation] yields the [name] of [data?.location]. *)
Record Admin : Type := {
  getVariant : string -> res (option Variant);
  getLevels : string -> res Levels;
  getLocation : string -> res (option string);
  setMetafields : string -> value -> res SetResult;
}.

(** A request sent through [admin.graphql]. *)
Inductive call : Type :=
| GetVariantWithMetafield (inventoryItemId : string)
| InventoryLevels (inventoryItemId : string)
| GetLocationName (id : string)
| MetafieldsSet (ownerId : string) (snapshot : value)
| MetafieldSet (ownerId : string) (snapshot : value).

(** Effects of a piece of the program: the requests it sent, in order,
    and how it ended.  [snapshot] in [MetafieldsSet] and [MetafieldSet] is
    the argument of [JSON.stringify]. *)
Definition M (A : Type) : Type := list call * res A.

Definition ret {A} (a : A) : M A := ([], inr a).
Definition throw {A} (e : exn) : M A := ([], inl e).
Definition lift {A} (r : res A) : M A := ([], r).
Definition bind {A B} (m : M A) (f : A -> M B) : M B :=
  match m with
  | (l, inl e) => (l, inl e)
  | (l, inr a) => let '(l', r) := f a in (l ++ l', r)
  end.
(** [await admin.graphql(...)] followed by [await response.json()]. *)
Definition ask {A} (c : call) (answer : res A) : M A := ([c], answer).

#[global] Instance M_ret : MRet M := @ret.
#[global] Instance M_bind : MBind M := fun A B f m => bind m f.

Definition calls {A} (m : M A) : list call := fst m.
Definition outcome {A} (m : M A) : res A := snd m.

(** [xs.map(f)] for a callback that may throw. *)
Fixpoint map_res {A B} (f : A -> res B) (l : list A) : res (list B) :=
  match l with
  | [] => inr []
  | x :: r =>
      match f x with
      | inl e => inl e
      | inr y =>
          match map_res f r with
          | inl e => inl e
          | inr ys => inr (y :: ys)
          end
      end
  end.

End Gql.

(** ** The one-pass synchronisation: [bulkInventoryMetafields] *)

Module Bulk.
Import Js Gql.

(** A level of [inventoryItem.inventoryLevels] in [GetVariantsWithInventory]. *)
Record Level : Type := {
  location_id : string;
  location_name : string;
  available : value;
}.

(** A variant as [getAllVariantsWithInventory] returns it; [inventoryItem]
    holds the nodes of its [inventoryLevels.edges]. *)
Record Variant : Type := {
  id : string;
  inventoryItem : option (list Level);
}.

Definition inventoryData (now : string) (inventoryLevels : list Level) : value :=
  VObj [("locations",
         VArr (map (λ level,
                      VObj [("id", VStr (location_id level));
                            ("name", VStr (location_name level));
                            ("available", available level);
                            ("updatedAt", VStr now)])
                   inventoryLevels))].

(** The loop over the variants: a variant without inventory item is
    skipped; for any other one the snapshot is written and the answer is
    not looked at. *)
Fixpoint bulkInventoryMetafields (metafieldSet : string → value → res unit)
    (now : string) (variants : list Variant) : M unit :=
  match variants with
  | [] => ret tt
  | variant :: rest =>
      match inventoryItem variant with
      | None => bulkInventoryMetafields metafieldSet now rest
      | Some inventoryLevels =>
          _ ← ask (MetafieldSet (id variant) (inventoryData now inventoryLevels))
                  (metafieldSet (id variant) (inventoryData now inventoryLevels));
          bulkInventoryMetafields metafieldSet now rest
      end
  end.

End Bulk.

(** ** The webhook path: [handleInventoryUpdate] *)

Module Webhook.
Import Js Gql.

Record Payload : Type := {
  inventory_item_id : value;
  location_id : value;
  available : value;
}.

(** [`gid://shopify/InventoryItem/${inventory_item_id}`] and
    [`gid://shopify/Location/${location_id}`] *)
Definition inventoryItemGid (p : Payload) : string :=
  "gid://shopify/InventoryItem/" +:+ to_string (inventory_item_id p).
Definition locationGid (p : Payload) : string :=
  "gid://shopify/Location/" +:+ to_string (location_id p).

Definition record (id : value) (name : value) (avail : value) (updatedAt : string) : value :=
  VObj [("id", id); ("name", name); ("available", avail); ("updatedAt", VStr updatedAt)].

(** [edges[i].node] *)
Definition edge_node (edges : list Edge) (i : nat) : res Edge :=
  match edges !! i with
  | Some e => inr e
  | None => inl (TypeError "Cannot read properties of undefined (reading 'node')")
  end.

(** The callback of [edges.map] in the bootstrap branch. *)
Definition format_level (now : string) (edge : Edge) : res value :=
  let locationId := parseInt10 (pop (split "/" (location_gid edge))) in
  match quantities edge with
  | [] => inl (TypeError "Cannot read properties of undefined (reading 'quantity')")
  | q :: _ =>
      let availableQuantity := or_else (VNum q) (VNum 0) in
      inr (record locationId (VStr (location_name edge)) availableQuantity now)
  end.

(** [currentData.locations.findIndex(loc => loc.id === location_id)]; [None]
    is the result [-1]. *)
Fixpoint findIndex_from (i : nat) (locs : list value) (location_id : value) : res (option nat) :=
  match locs with
  | [] => inr None
  | loc :: r =>
      match get loc "id" with
      | inl e => inl e
      | inr x =>
          if strict_eq x location_id then inr (Some i)
          else findIndex_from (S i) r location_id
      end
  end.

Definition findIndex := findIndex_from 0.

(** The callback of [findIndex] on a record, where it does not throw. *)
Definition matches (location_id : value) (loc : value) : bool :=
  match get loc "id" with
  | inr x => strict_eq x location_id
  | inl _ => false
  end.

Definition is_object (v : value) : bool :=
  match v with VObj _ => true | _ => false end.

(** [currentData.locations] as the receiver of [findIndex]. *)
Definition locations_of (currentData : value) : res (list value) :=
  match get currentData "locations" with
  | inl e => inl e
  | inr (VArr l) => inr l
  | inr VUndef =>
      inl (TypeError "Cannot read properties of undefined (reading 'findIndex')")
  | inr VNull =>
      inl (TypeError "Cannot read properties of null (reading 'findIndex')")
  | inr _ => inl (TypeError "currentData.locations.findIndex is not a function")
  end.

Definition set_locations (currentData : value) (locs : list value) : value :=
  match currentData with
  | VObj l => VObj (assoc_set "locations" (VArr locs) l)
  | _ => currentData
  end.

Definition updatedLocation (now : string) (location : option string) (p : Payload) : value :=
  record (parseInt (location_id p))
    (or_else (match location with Some n => VStr n | None => VUndef end)
             (VStr ("Location " +:+ to_string (location_id p))))
    (or_else (parseInt10 (available p)) (VNum 0))
    now.

(** Steps 2 and 3: look the location's name up, then replace the record
    found by [findIndex] or push a new one. *)
Definition merge (admin : Admin) (now : string) (p : Payload) (currentData : value) : M value :=
  let gid := locationGid p in
  location ← ask (GetLocationName gid) (getLocation admin gid);
  locs ← lift (locations_of currentData);
  index ← lift (findIndex locs (location_id p));
  let upd := updatedLocation now location p in
  match index with
  | Some i => ret (set_locations currentData (<[i := upd]> locs))
  | None => ret (set_locations currentData (locs ++ [upd]))
  end.

(** The branch taken when the metafield is empty: fetch every inventory
    level of the item and format it. *)
Definition bootstrap (admin : Admin) (now : string) (p : Payload) : M (value * list value) :=
  let gid := inventoryItemGid p in
  inventoryData ← ask (InventoryLevels gid) (getLevels admin gid);
  edges ← lift (match levels_edges inventoryData with
                 | Some es => inr es
                 | None => inl (TypeError "Cannot read properties of undefined (reading 'inventoryItem')")
                 end);
  _ ← lift (edge_node edges 0);
  _ ← lift (edge_node edges 1);
  match levels_errors inventoryData with
  | Some _ => throw (Error "Failed to fetch inventory levels.")
  | None =>
      allLocations ← lift (map_res (format_level now) edges);
      ret (VObj [("locations", VArr allLocations)], allLocations)
  end.

(** The test after the write looks for [data.metafieldSet], a member the
    [metafieldsSet] answer does not have: only top-level [errors] are seen. *)
Definition write_failed (r : SetResult) : bool :=
  match set_errors r with
  | Some _ => true
  | None => false
  end.

Definition handleInventoryUpdate (admin : Admin) (now : string) (p : Payload) : M unit :=
  let gid := inventoryItemGid p in
  found ← ask (GetVariantWithMetafield gid) (getVariant admin gid);
  match found with
  | None => throw (Error "Variant not found")
  | Some variant =>
      let stored := match metafield variant with
                    | Some m => metafield_value m
                    | None => VUndef
                    end in
      let metafieldsEmpty := negb (truthy stored) in
      '(currentData, allLocations) ←
        (if metafieldsEmpty then bootstrap admin now p
         else
           parsed ← lift (if truthy stored then Json.parse (to_string stored)
                           else inr (VObj [("locations", VArr [])]));
           ret (parsed, []));
      currentData ←
        (if negb metafieldsEmpty || (length allLocations =? 0)%nat
         then merge admin now p currentData
         else ret currentData);
      updateJson ← ask (MetafieldsSet (variant_id variant) currentData)
                        (setMetafields admin (variant_id variant) currentData);
      if write_failed updateJson then throw (Error "Failed to update metafield")
      else ret tt
  end.

(** The route's [action] around the handler, for the topic
    [INVENTORY_LEVELS_UPDATE] and an authenticated shop: the HTTP status. *)
Definition action (admin : Admin) (now : string) (p : Payload) : nat :=
  match outcome (handleInventoryUpdate admin now p) with
  | inr _ => 200%nat
  | inl _ => 500%nat
  end.

End Webhook.

(** ** The concurrency limiter: [parallelLimit] *)

Module Limiter.
Import Js.

(** How the promise returned by a task settles. *)
Inductive settled (T : Type) : Type :=
| Resolved (v : T)
| Rejected (e : exn).
Arguments Resolved {T} v.
Arguments Rejected {T} e.

(** The limiter between two resumptions of its workers: the shared counter
    [i], the [results] array (a hole is [None]), for every worker that is
    suspended at [await tasks[idx]()] the index [idx] it waits for, and the
    first exception a worker ended with, which is what [Promise.all]
    rejects with. *)
Record state (T : Type) : Type := {
  i : nat;
  results : list (option T);
  in_flight : list nat;
  thrown : option exn;
}.
Arguments i {T} s.
Arguments results {T} s.
Arguments in_flight {T} s.
Arguments thrown {T} s.

Section ParallelLimit.
Context {T : Type}.

(** [results[idx] = v]: writing past the end leaves holes. *)
Definition array_set (a : list (option T)) (idx : nat) (v : T) : list (option T) :=
  if idx <? length a then <[idx := Some v]> a
  else a ++ replicate (idx - length a) None ++ [Some v].

(** [a[j]], [None] standing for [undefined]. *)
Definition read (a : list (option T)) (j : nat) : option T := mjoin (a !! j).

(** The first call of [next] by a fresh worker, up to its [await]: it
    returns at once when no task is left, otherwise it takes index [i],
    increments [i] and starts that task. *)
Definition spawn (n : nat) (st : state T) : state T :=
  if n <=? i st then st
  else {| i := S (i st); results := results st;
          in_flight := in_flight st ++ [i st]; thrown := thrown st |}.

(** [Array(Math.min(limit, tasks.length)).fill(0).map(next)] *)
Definition init (n limit : nat) : state T :=
  Nat.iter (Nat.min limit n) (spawn n)
    {| i := 0; results := []; in_flight := []; thrown := None |}.

(** A worker ends with an exception; the others go on. *)
Definition fail (w : nat) (e : exn) (st : state T) : state T :=
  {| i := i st; results := results st; in_flight := delete w (in_flight st);
     thrown := match thrown st with Some e' => Some e' | None => Some e end |}.

(** Worker [w] is resumed because its task settled.  After a rejection
    [next] throws.  Otherwise the value is stored at the task's index and
    [next] is called again, which either ends the worker or takes index
    [i], increments [i] and starts that task. *)
Definition resume (tasks : list (settled T)) (w : nat) (st : state T) : state T :=
  match in_flight st !! w with
  | None => st
  | Some idx =>
      match tasks !! idx with
      | None => fail w (TypeError "tasks[idx] is not a function") st
      | Some (Rejected e) => fail w e st
      | Some (Resolved v) =>
          let results' := array_set (results st) idx v in
          if length tasks <=? i st
          then {| i := i st; results := results';
                  in_flight := delete w (in_flight st); thrown := thrown st |}
          else {| i := S (i st); results := results';
                  in_flight := <[w := i st]> (in_flight st); thrown := thrown st |}
      end
  end.

(** The limiter after [t] tasks have settled.  [order t] names the worker
    whose task settles as the [t]-th one, among those suspended then; every
    completion order is some [order]. *)
Fixpoint after (tasks : list (settled T)) (limit : nat) (order : nat -> nat) (t : nat)
  : state T :=
  match t with
  | O => init (length tasks) limit
  | S t' =>
      let st := after tasks limit order t' in
      match in_flight st with
      | [] => st
      | _ => resume tasks (order t' mod length (in_flight st)) st
      end
  end.

(** The limiter once every started task has settled. *)
Definition finish (tasks : list (settled T)) (limit : nat) (order : nat -> nat) : state T :=
  after tasks limit order (length tasks).

(** What [await parallelLimit(tasks, limit)] evaluates to. *)
Definition parallelLimit (tasks : list (settled T)) (limit : nat) (order : nat -> nat)
  : res (list (option T)) :=
  let st := finish tasks limit order in
  match thrown st, in_flight st with
  | Some e, _ => inl e
  | None, [] => inr (results st)
  | None, _ :: _ => inl NotModelled
  end.

(** Number of tasks the limiter has started in a call. *)
Definition started (tasks : list (settled T)) (limit : nat) (order : nat -> nat) : nat :=
  i (finish tasks limit order).

(** What holds of the limiter after [t] tasks have settled, when the tasks
    resolve with [vals] and the limit is [k]. *)
Record inv (vals : list T) (k t : nat) (st : state T) : Prop := {
  inv_i : i st = Nat.min (length vals) (k + t);
  inv_length : length (in_flight st) = i st - t;
  inv_bound : ∀ x, x ∈ in_flight st → x < i st;
  inv_distinct : NoDup (in_flight st);
  inv_read : ∀ j, j < i st → j ∉ in_flight st → read (results st) j = vals !! j;
  inv_results : length (results st) ≤ i st;
  inv_thrown : thrown st = None;
}.

End ParallelLimit.
End Limiter.


(** ** The full synchronisation: [processVariantsInBackground] and [action] *)

Module Sync.
Import Js Gql Limiter.

Definition BATCH_SIZE : nat := 50.
Definition CONCURRENCY_LIMIT : nat := 5.
Definition DELAY_BETWEEN_BATCHES : nat := 1000.

Definition string_of_nat (n : nat) : string := string_of_Z (Z.of_nat n).

(** An entry of [errors]. *)
Inductive ErrorInfo : Type :=
| userError (variantId : string) (errors : list string)
| apiError (variantId : string) (error : string)
| batchError (batch : nat) (error : string).

(** The [summary] member: the object built after the loop, or the one built
    by the outer [catch]. *)
Inductive Summary : Type :=
| Finished (processedVariants totalVariants batchCount : nat) (message : string)
| Failed (error : string) (message : string).

Definition success (s : Summary) : bool :=
  match s with Finished _ _ _ _ => true | Failed _ _ => false end.

Definition summary_message (s : Summary) : string :=
  match s with Finished _ _ _ m => m | Failed _ m => m end.

(** [serverState.variantUpdateProgress].  A member that is absent, [null]
    or [undefined] is [None] ([false] for [summaryReturned]). *)
Record Progress : Type := {
  processedVariants : nat;
  totalVariants : nat;
  isProcessing : bool;
  currentBatch : nat;
  errors : list ErrorInfo;
  startedAt : option string;
  completedAt : option string;
  summary : option Summary;
  summaryReturned : bool;
}.

(** [serverState]: the progress object and [backgroundProcessing.isRunning]. *)
Record Server : Type := {
  variantUpdateProgress : Progress;
  isRunning : bool;
}.

(** The object both [action] and [processVariantsInBackground] install
    when a run starts; [action]'s own copy is replaced before anything can
    read it. *)
Definition fresh_progress (now : string) : Progress :=
  {| processedVariants := 0; totalVariants := 0; isProcessing := true;
     currentBatch := 0; errors := []; startedAt := Some now;
     completedAt := None; summary := None; summaryReturned := false |}.

(** The module-level initial value. *)
Definition initial_progress : Progress :=
  {| processedVariants := 0; totalVariants := 0; isProcessing := false;
     currentBatch := 0; errors := []; startedAt := None;
     completedAt := None; summary := None; summaryReturned := false |}.

(** A node of the [GetVariants] page. *)
Record VariantNode : Type := {
  id : string;
  inventoryItem : option string;
}.

Record Page : Type := {
  edges : list VariantNode;
  page_hasNextPage : bool;
  endCursor : option string;
}.

(** Body of the [GetVariants] answer: [errors] and [data.productVariants]. *)
Record PageBody : Type := {
  page_errors : option (list string);
  page_data : option Page;
}.

(** What a task resolves with. *)
Inductive TaskResult : Type :=
| TaskSuccess (variantId : string)
| TaskUserError (variantId : string) (errors : list string)
| TaskApiError (variantId : string) (error : string).

(** The callback of [edges.map] in a task. *)
Definition format_level (now : string) (edge : Edge) : value :=
  let locationId := parseInt10 (pop (split "/" (location_gid edge))) in
  let available :=
    or_else (match quantities edge with q :: _ => VNum q | [] => VUndef end) (VNum 0) in
  VObj [("id", locationId); ("name", VStr (location_name edge));
        ("available", available); ("updatedAt", VStr now)].

(** The [try] block of a task. *)
Definition task_body (admin : Admin) (now : string) (variant : VariantNode) : M TaskResult :=
  inventoryItemId ← lift (match inventoryItem variant with
                          | Some x => inr x
                          | None => inl (TypeError "Cannot read properties of null (reading 'id')")
                          end);
  inventoryData ← ask (InventoryLevels inventoryItemId) (getLevels admin inventoryItemId);
  match levels_errors inventoryData with
  | Some msgs => throw (Error (join ", " msgs))
  | None =>
      es ← lift (match levels_edges inventoryData with
                 | Some es => inr es
                 | None => inl (TypeError "Cannot read properties of undefined (reading 'inventoryItem')")
                 end);
      let inventoryLevels := map (format_level now) es in
      let snapshot := VObj [("locations", VArr inventoryLevels)] in
      metafieldData ← ask (MetafieldsSet (id variant) snapshot)
                          (setMetafields admin (id variant) snapshot);
      match set_errors metafieldData with
      | Some msgs => throw (Error (join ", " msgs))
      | None =>
          if (0 <? length (set_userErrors metafieldData))%nat
          then mret (TaskUserError (id variant) (set_userErrors metafieldData))
          else mret (TaskSuccess (id variant))
      end
  end.

(** A task: the [try] block, with any exception turned into an [apiError]
    result by the [catch]. *)
Definition task (admin : Admin) (now : string) (variant : VariantNode) : M TaskResult :=
  match task_body admin now variant with
  | (l, inl e) => (l, inr (TaskApiError (id variant) (message e)))
  | m => m
  end.

(** The local variables of [processVariantsInBackground] that live across
    its suspensions. *)
Record Locals : Type := {
  cursor : option string;
  processed : nat;
  local_errors : list ErrorInfo;
  batchCount : nat;
  total : nat;
}.

(** Where the background run is suspended: at the count query, at the page
    query of a batch, or at the delay between two batches. *)
Inductive Cont : Type :=
| AwaitCount
| AwaitPage (l : Locals)
| AwaitDelay (l : Locals).

(** The server together with the suspended run, if any. *)
Record System : Type := {
  server : Server;
  background : option Cont;
}.

Definition initial : System :=
  {| server := {| variantUpdateProgress := initial_progress; isRunning := false |};
     background := None |}.

(** What the outside world feeds a batch with: the answer to the page
    query, the answers to the tasks' requests, the clock read by the task
    at each position, the order in which the tasks settle, and the clock
    when the loop is left. *)
Record Batch : Type := {
  page_answer : res PageBody;
  admin : Admin;
  task_time : nat -> string;
  order : nat -> nat;
  end_time : string;
}.

(** What resumes the background run. *)
Inductive Input : Type :=
| CountAnswer (count : res (option nat))
| BatchAnswer (b : Batch)
| TimerFired.

(** A request to the route ([intent] is [formData.get("intent")], [None]
    when the form has no such field; [now] is the clock at that time), or a
    resumption of the background run. *)
Inductive Event : Type :=
| Request (intent : option string) (now : string)
| Background (input : Input).

(** The JSON bodies [action] answers with.  [ProgressJson p c s] is
    [{...p, actionCompleted: c, ...s}], without the last two parts when [c]
    is [false]. *)
Inductive Response : Type :=
| ProgressJson (p : Progress) (actionCompleted : bool) (spread : option Summary)
| MessageJson (success : bool) (message : string) (isProcessing : option bool).

(** What a step shows: the response to a request (and whether the request
    started a run), or the number of tasks the limiter started while the
    background run advanced. *)
Inductive Obs : Type :=
| Responded (r : Response) (started : bool)
| Ran (tasks_started : nat)
| Ignored.

Definition set_processedVariants (n : nat) (p : Progress) : Progress :=
  {| processedVariants := n; totalVariants := totalVariants p;
     isProcessing := isProcessing p; currentBatch := currentBatch p;
     errors := errors p; startedAt := startedAt p; completedAt := completedAt p;
     summary := summary p; summaryReturned := summaryReturned p |}.

Definition set_totalVariants (n : nat) (p : Progress) : Progress :=
  {| processedVariants := processedVariants p; totalVariants := n;
     isProcessing := isProcessing p; currentBatch := currentBatch p;
     errors := errors p; startedAt := startedAt p; completedAt := completedAt p;
     summary := summary p; summaryReturned := summaryReturned p |}.

Definition set_currentBatch (n : nat) (p : Progress) : Progress :=
  {| processedVariants := processedVariants p; totalVariants := totalVariants p;
     isProcessing := isProcessing p; currentBatch := n;
     errors := errors p; startedAt := startedAt p; completedAt := completedAt p;
     summary := summary p; summaryReturned := summaryReturned p |}.

(** [serverState.variantUpdateProgress.errors.push(errorInfo)] *)
Definition push_error (info : ErrorInfo) (p : Progress) : Progress :=
  {| processedVariants := processedVariants p; totalVariants := totalVariants p;
     isProcessing := isProcessing p; currentBatch := currentBatch p;
     errors := errors p ++ [info]; startedAt := startedAt p;
     completedAt := completedAt p; summary := summary p;
     summaryReturned := summaryReturned p |}.

Definition set_summaryReturned (p : Progress) : Progress :=
  {| processedVariants := processedVariants p; totalVariants := totalVariants p;
     isProcessing := isProcessing p; currentBatch := currentBatch p;
     errors := errors p; startedAt := startedAt p; completedAt := completedAt p;
     summary := summary p; summaryReturned := true |}.

(** [errors.push(errorInfo)] on the local list. *)
Definition push_local (info : ErrorInfo) (l : Locals) : Locals :=
  {| cursor := cursor l; processed := processed l;
     local_errors := local_errors l ++ [info];
     batchCount := batchCount l; total := total l |}.

Definition set_processed (n : nat) (l : Locals) : Locals :=
  {| cursor := cursor l; processed := n; local_errors := local_errors l;
     batchCount := batchCount l; total := total l |}.

(** The body of [results.forEach]: an element that is not truthy is
    skipped; any other one is counted, and recorded when it is a failure. *)
Definition record_result (acc : Locals * Progress) (result : option TaskResult)
  : Locals * Progress :=
  let '(l, p) := acc in
  match result with
  | None => acc
  | Some r =>
      let l1 := set_processed (S (processed l)) l in
      let p1 := set_processedVariants (S (processed l)) p in
      match r with
      | TaskSuccess _ => (l1, p1)
      | TaskUserError v es =>
          (push_local (userError v es) l1, push_error (userError v es) p1)
      | TaskApiError v e =>
          (push_local (apiError v e) l1, push_error (apiError v e) p1)
      end
  end.

(** The statements after the loop, and the [finally] clause.  Outside the
    count query and the loop body, which have handlers of their own, no
    statement of the outer [try] block throws: its [catch] clause, which
    would install the [Failed] summary, is never entered. *)
Definition complete (end_time : string) (l : Locals) (p : Progress) : System :=
  let message :=
    "Processed " +:+ string_of_nat (processed l) +:+ " variants across "
      +:+ string_of_nat (batchCount l) +:+ " batches" in
  {| server :=
       {| variantUpdateProgress :=
            {| processedVariants := processedVariants p;
               totalVariants := totalVariants p;
               isProcessing := false; currentBatch := currentBatch p;
               errors := errors p; startedAt := startedAt p;
               completedAt := Some end_time;
               summary := Some (Finished (processed l) (total l) (batchCount l) message);
               summaryReturned := summaryReturned p |};
          isRunning := false |};
     background := None |}.

(** The head of the loop body, up to the page query: [batchCount++] and the
    assignment to [currentBatch]. *)
Definition enter_batch (l : Locals) (srv : Server) : System :=
  let l' := {| cursor := cursor l; processed := processed l;
               local_errors := local_errors l;
               batchCount := S (batchCount l); total := total l |} in
  {| server := {| variantUpdateProgress :=
                    set_currentBatch (S (batchCount l)) (variantUpdateProgress srv);
                  isRunning := isRunning srv |};
     background := Some (AwaitPage l') |}.

(** The tasks of a batch as the limiter sees them. *)
Definition batch_tasks (b : Batch) (variants : list VariantNode) : list (settled TaskResult) :=
  imap (fun k variant =>
          match outcome (task (admin b) (task_time b k) variant) with
          | inr r => Resolved r
          | inl e => Rejected e
          end) variants.

(** The inner [try] block from the page answer on.  It yields the locals
    and the progress after the results are recorded, [hasNextPage], and the
    number of tasks the limiter started; nothing is assigned before the
    last statement that can throw. *)
Definition batch_try (b : Batch) (l : Locals) (p : Progress)
  : res (Locals * Progress * bool) * nat :=
  match page_answer b with
  | inl e => (inl e, 0)
  | inr variantsData =>
      match page_errors variantsData with
      | Some msgs => (inl (Error (join ", " msgs)), 0)
      | None =>
          match page_data variantsData with
          | None =>
              (inl (TypeError "Cannot read properties of undefined (reading 'productVariants')"), 0)
          | Some page =>
              let tasks := batch_tasks b (edges page) in
              let n := started tasks CONCURRENCY_LIMIT (order b) in
              match parallelLimit tasks CONCURRENCY_LIMIT (order b) with
              | inl e => (inl e, n)
              | inr results =>
                  let '(l', p') := fold_left record_result results (l, p) in
                  let l'' := {| cursor := endCursor page; processed := processed l';
                                local_errors := local_errors l';
                                batchCount := batchCount l'; total := total l' |} in
                  (inr (l'', p', page_hasNextPage page), n)
              end
          end
      end
  end.

(** The run is resumed at the point where it is suspended; an input that
    answers nothing the run waits for is ignored.  A batch is taken in one
    step, from the answer to the page query to the recording of the
    results: nothing in between assigns to the shared state, and
    [Invariants.limiter_at] is the limiter at the points in between. *)
Definition resume_run (input : Input) (s : System) : System * Obs :=
  let p := variantUpdateProgress (server s) in
  match background s, input with
  | Some AwaitCount, CountAnswer count =>
      let totalVariants :=
        match count with
        | inr (Some n) => n
        | _ => 0
        end in
      let p' := if 0 <? totalVariants then set_totalVariants totalVariants p else p in
      let l := {| cursor := None; processed := 0; local_errors := [];
                  batchCount := 0; total := totalVariants |} in
      (enter_batch l {| variantUpdateProgress := p'; isRunning := isRunning (server s) |},
       Ran 0)
  | Some (AwaitPage l), BatchAnswer b =>
      match batch_try b l p with
      | (inr (l', p', true), n) =>
          ({| server := {| variantUpdateProgress := p';
                           isRunning := isRunning (server s) |};
              background := Some (AwaitDelay l') |}, Ran n)
      | (inr (l', p', false), n) => (complete (end_time b) l' p', Ran n)
      | (inl batchErr, n) =>
          let errorInfo := batchError (batchCount l) (message batchErr) in
          (complete (end_time b) (push_local errorInfo l) (push_error errorInfo p), Ran n)
      end
  | Some (AwaitDelay l), TimerFired => (enter_batch l (server s), Ran 0)
  | _, _ => (s, Ignored)
  end.

(** [processVariantsInBackground(admin)] up to its first suspension. *)
Definition processVariantsInBackground (now : string) (s : System) : System :=
  if isRunning (server s) then s
  else {| server := {| variantUpdateProgress := fresh_progress now; isRunning := true |};
          background := Some AwaitCount |}.

(** The route's [action]. *)
Definition action (intent : option string) (now : string) (s : System) : System * Obs :=
  if bool_decide (intent = Some "getProgress") then
    let progressData := variantUpdateProgress (server s) in
    if negb (isProcessing progressData) && bool_decide (is_Some (completedAt progressData))
       && negb (summaryReturned progressData)
    then
      let progressData' := set_summaryReturned progressData in
      ({| server := {| variantUpdateProgress := progressData';
                       isRunning := isRunning (server s) |};
          background := background s |},
       Responded (ProgressJson progressData' true (summary progressData')) false)
    else (s, Responded (ProgressJson progressData false None) false)
  else if isRunning (server s) then
    (s, Responded (MessageJson false
                     "Process already running. Please wait for it to complete." None)
          false)
  else
    let s' := {| server := {| variantUpdateProgress := fresh_progress now;
                              isRunning := isRunning (server s) |};
                 background := background s |} in
    (processVariantsInBackground now s',
     Responded (MessageJson true
                  "Processing started. You can track progress on this page." (Some true))
       true).

Definition step (s : System) (e : Event) : System * Obs :=
  match e with
  | Request intent now => action intent now s
  | Background input => resume_run input s
  end.

(** The system after a sequence of events, with what each step showed. *)
Fixpoint exec (s : System) (evs : list Event) : System * list Obs :=
  match evs with
  | [] => (s, [])
  | e :: r =>
      let '(s', o) := step s e in
      let '(s'', os) := exec s' r in
      (s'', o :: os)
  end.

(** A sequence of status queries, one per clock reading. *)
Definition status_queries (nows : list string) : list Event :=
  Request (Some "getProgress") <$> nows.

(** Does a response carry the summary fields at its top level? *)
Definition spreads (o : Obs) : bool :=
  match o with
  | Responded (ProgressJson _ true _) _ => true
  | _ => false
  end.

(** While a run is suspended the progress object says so, and its summary
    has not been returned. *)
Definition unsettled (s : System) : Prop :=
  let p := variantUpdateProgress (server s) in
  background s ≠ None → isProcessing p = true ∧ summaryReturned p = false.

(** How an observation moves the count of tasks started in the current
    run. *)
Definition count_started (acc : nat) (o : Obs) : nat :=
  match o with
  | Responded _ true => 0
  | Ran n => acc + n
  | _ => acc
  end.

(** Tasks started by the limiter since the last request that started a
    run, given the observations in order. *)
Definition started_in_run (log : list Obs) : nat := fold_left count_started log 0.

(** The local counter of a suspended run agrees with the shared one. *)
Definition coherent (s : System) : Prop :=
  let p := variantUpdateProgress (server s) in
  match background s with
  | Some AwaitCount => processedVariants p = 0
  | Some (AwaitPage l) | Some (AwaitDelay l) => processed l = processedVariants p
  | None => True
  end.

End Sync.

(** ** Sample shops, payloads and runs *)

Module Examples.
Import Js Gql Limiter Sync.

Definition level (gid name : string) (q : list Z) : Edge :=
  {| quantities := q; location_gid := gid; location_name := name |}.

Definition two_levels : list Edge :=
  [level "gid://shopify/Location/7" "A" [3%Z];
   level "gid://shopify/Location/8" "B" []].

Definition full_levels : list Edge :=
  [level "gid://shopify/Location/7" "A" [3%Z];
   level "gid://shopify/Location/8" "B" [5%Z]].

Definition variant_with (stored : option string) : Variant :=
  {| variant_id := "gid://shopify/ProductVariant/1";
     metafield := (λ text, {| metafield_id := "gid://shopify/Metafield/9";
                              metafield_value := VStr text |}) <$> stored |}.

(** A shop with one variant, whose metafield holds [stored], and the given
    inventory levels; every request is answered without error. *)
Definition shop (stored : option string) (levels : list Edge) : Admin :=
  {| getVariant := λ _, inr (Some (variant_with stored));
     getLevels := λ _, inr {| levels_errors := None; levels_edges := Some levels |};
     getLocation := λ _, inr (Some "A");
     setMetafields := λ _ _, inr {| set_errors := None; set_userErrors := [] |} |}.

Definition payload : Webhook.Payload :=
  {| Webhook.inventory_item_id := VNum 111;
     Webhook.location_id := VNum 7;
     Webhook.available := VStr "12" |}.

Definition snapshot_text : string :=
  Json.quoted "{'locations':[{'id':7,'name':'A','available':3,'updatedAt':'t0'}]}".

Definition snapshot_record : value :=
  VObj [("id", VNum 7); ("name", VStr "A"); ("available", VNum 3);
        ("updatedAt", VStr "t0")].

Definition node (name : string) (item : option string) : VariantNode :=
  {| id := name; inventoryItem := item |}.

Definition page_of (variants : list VariantNode) (more : bool) : res PageBody :=
  inr {| page_errors := None;
         page_data := Some {| edges := variants; page_hasNextPage := more;
                              endCursor := Some "cursor" |} |}.

Definition batch_of (answer : res PageBody) : Batch :=
  {| page_answer := answer; admin := shop None two_levels;
     task_time := λ _, "t1"; order := λ _, 0; end_time := "t9" |}.

(** A run of two batches whose second page query fails. *)
Definition failing_run : list Event :=
  [Request None "t0";
   Background (CountAnswer (inr (Some 3)));
   Background (BatchAnswer (batch_of (page_of [node "v1" (Some "i1")] true)));
   Background TimerFired;
   Background (BatchAnswer (batch_of (inl (Error "fetch failed"))))].

(** The system just before the failing page query is answered, and the
    locals of the suspended run then. *)
Definition before_failure : System := (exec initial (take 4 failing_run)).1.

Definition locals_before_failure : Locals :=
  {| cursor := Some "cursor"; processed := 1; local_errors := [];
     batchCount := 2; total := 3 |}.

(** The system once a run has been started. *)
Definition running : System := (exec initial [Request None "t0"]).1.

(** The system once the failing run is over. *)
Definition completed : System := (exec initial failing_run).1.

(** A run whose count query reports one variant while the only page has
    two. *)
Definition undercounted_run : list Event :=
  [Request None "t0";
   Background (CountAnswer (inr (Some 1)));
   Background (BatchAnswer
                 (batch_of (page_of [node "v1" (Some "i1"); node "v2" (Some "i2")] false)))].

(** A run whose only page holds a variant without inventory item. *)
Definition unit_less_run : list Event :=
  [Request None "t0";
   Background (CountAnswer (inr None));
   Background (BatchAnswer (batch_of (page_of [node "v1" None] false)))].

End Examples.

(** ** Invariants of the limiter and of the run *)

Module Invariants.
Import Js Gql Limiter Sync.

(** What holds of the limiter after [t] resumptions, whatever the tasks. *)
Record sound {T : Type} (tasks : list (settled T)) (k t : nat) (st : state T) : Prop := {
  sound_bound : ∀ x, x ∈ in_flight st → x < i st;
  sound_i : i st ≤ length tasks;
  sound_measure : in_flight st = [] ∨ length tasks - i st + length (in_flight st) + t ≤ length tasks;
  sound_thrown : ∀ e, thrown st = Some e → ∃ j, tasks !! j = Some (Rejected e);
  sound_clean : 1 ≤ k → thrown st = None →
                i st = Nat.min (length tasks) (k + t)
                ∧ length (in_flight st) = i st - t
                ∧ ∀ j, j < i st → j ∉ in_flight st → ∃ v, tasks !! j = Some (Resolved v);
}.

(** The error record a task result leaves in [errors], if any. *)
Definition failure_of (r : TaskResult) : option ErrorInfo :=
  match r with
  | TaskSuccess _ => None
  | TaskUserError v es => Some (userError v es)
  | TaskApiError v e => Some (apiError v e)
  end.

(** What the tasks of a batch resolve with, in page order. *)
Definition batch_results (b : Batch) (variants : list VariantNode) : list TaskResult :=
  imap (λ k variant,
          match outcome (task (admin b) (task_time b k) variant) with
          | inr r => r
          | inl e => TaskApiError (id variant) (message e)
          end) variants.

(** The locals and the progress object once the results [rs] of a batch
    are recorded. *)
Definition record_all (rs : list TaskResult) (l : Locals) : Locals :=
  {| cursor := cursor l; processed := processed l + length rs;
     local_errors := local_errors l ++ omap failure_of rs;
     batchCount := batchCount l; total := total l |}.

Definition recorded (rs : list TaskResult) (p : Progress) : Progress :=
  {| processedVariants := processedVariants p + length rs;
     totalVariants := totalVariants p; isProcessing := isProcessing p;
     currentBatch := currentBatch p; errors := errors p ++ omap failure_of rs;
     startedAt := startedAt p; completedAt := completedAt p; summary := summary p;
     summaryReturned := summaryReturned p |}.

(** The message of the summary built after the loop. *)
Definition summary_text (processed batches : nat) : string :=
  "Processed " +:+ string_of_nat processed +:+ " variants across "
    +:+ string_of_nat batches +:+ " batches".

(** What holds of the system after any sequence of requests and
    resumptions: the two flags agree and are set exactly while a run is
    suspended; an open run has no completion time and no summary; a closed
    one has both or neither, and its summary repeats the counters of the
    progress object; the locals of a suspended run agree with the progress
    object. *)
Record healthy (s : System) : Prop := {
  healthy_flags : isRunning (server s) = isProcessing (variantUpdateProgress (server s));
  healthy_background : is_Some (background s) ↔ isRunning (server s) = true;
  healthy_open :
    isProcessing (variantUpdateProgress (server s)) = true →
    completedAt (variantUpdateProgress (server s)) = None
    ∧ summary (variantUpdateProgress (server s)) = None
    ∧ summaryReturned (variantUpdateProgress (server s)) = false
    ∧ is_Some (startedAt (variantUpdateProgress (server s)));
  healthy_closed :
    isProcessing (variantUpdateProgress (server s)) = false →
    let p := variantUpdateProgress (server s) in
    match summary p with
    | None => completedAt p = None ∧ summaryReturned p = false
    | Some sm =>
        is_Some (completedAt p)
        ∧ sm = Finished (processedVariants p) (totalVariants p) (currentBatch p)
                 (summary_text (processedVariants p) (currentBatch p))
    end;
  healthy_locals :
    let p := variantUpdateProgress (server s) in
    match background s with
    | Some AwaitCount =>
        processedVariants p = 0 ∧ totalVariants p = 0 ∧ currentBatch p = 0 ∧ errors p = []
    | Some (AwaitPage l) | Some (AwaitDelay l) =>
        processed l = processedVariants p ∧ total l = totalVariants p
        ∧ batchCount l = currentBatch p ∧ local_errors l = errors p
    | None => True
    end;
}.

(** The events of a run that nothing interrupts: the start request, the
    answer to the count query, then the answers to the page queries with the
    delay between two of them. *)
Fixpoint batch_events (batches : list Batch) : list Event :=
  match batches with
  | [] => []
  | [b] => [Background (BatchAnswer b)]
  | b :: rest => Background (BatchAnswer b) :: Background TimerFired :: batch_events rest
  end.

Definition run_events (now : string) (count : res (option nat)) (batches : list Batch)
  : list Event :=
  Request None now :: Background (CountAnswer count) :: batch_events batches.

(** Pages as the cursor protocol chains them: every page but the last
    announces a next one. *)
Fixpoint chained (pages : list Page) : Prop :=
  match pages with
  | [] => False
  | [page] => page_hasNextPage page = false
  | page :: rest => page_hasNextPage page = true ∧ chained rest
  end.

(** The batch is answered with the page, without error. *)
Definition answers (b : Batch) (page : Page) : Prop :=
  page_answer b = inr {| page_errors := None; page_data := Some page |}.

(** How many responses carry the summary since the last request that
    started a run. *)
Definition count_spreads (acc : nat) (o : Obs) : nat :=
  match o with
  | Responded _ true => 0
  | Responded (ProgressJson _ true _) false => S acc
  | _ => acc
  end.

Definition spreads_in_run (log : list Obs) : nat := fold_left count_spreads log 0.

(** The results of the tasks of a run, in page order. *)
Definition run_results (batches : list Batch) (pages : list Page) : list TaskResult :=
  concat (zip_with (λ b page, batch_results b (edges page)) batches pages).

(** The [totalVariants] a run takes from the answer to its count query. *)
Definition counted (count : res (option nat)) : nat :=
  match count with
  | inr (Some n) => n
  | _ => 0
  end.

Definition is_batch_error (e : ErrorInfo) : bool :=
  match e with
  | batchError _ _ => true
  | _ => false
  end.

(** No entry of [errors] is a batch error, except the last one of a run
    that has ended, which then names the run's last batch. *)
Definition tidy (s : System) : Prop :=
  let p := variantUpdateProgress (server s) in
  Forall (λ e, is_batch_error e = false) (errors p)
  ∨ (background s = None
     ∧ ∃ pre msg, Forall (λ e, is_batch_error e = false) pre
                  ∧ errors p = pre ++ [batchError (currentBatch p) msg]).

(** The writes of [bulkInventoryMetafields] for [variants]: one per
    variant that has an inventory item. *)
Definition bulk_writes (now : string) (variants : list Bulk.Variant) : list call :=
  omap (λ variant,
          (λ levels, MetafieldSet (Bulk.id variant) (Bulk.inventoryData now levels))
            <$> Bulk.inventoryItem variant) variants.

(** A request that reads. *)
Definition is_read (c : call) : bool :=
  match c with
  | MetafieldsSet _ _ | MetafieldSet _ _ => false
  | _ => true
  end.

(** How the handler ends once its write is answered. *)
Definition after_write (answer : res SetResult) : res unit :=
  match answer with
  | inl e => inl e
  | inr r => if Webhook.write_failed r then inl (Error "Failed to update metafield") else inr tt
  end.

(** The variant a task result is about. *)
Definition result_variant (r : TaskResult) : string :=
  match r with
  | TaskSuccess v | TaskUserError v _ | TaskApiError v _ => v
  end.

(** The snapshot a task writes for the levels [es]. *)
Definition task_snapshot (now : string) (es : list Edge) : value :=
  VObj [("locations", VArr (Sync.format_level now <$> es))].

(** The inventory-levels query is answered with [es], without [errors]. *)
Definition levels_answer (admin : Admin) (item : string) (es : list Edge) : Prop :=
  getLevels admin item = inr {| levels_errors := None; levels_edges := Some es |}.

(** [summaryReturned] read as a count. *)
Definition returned_flag (s : System) : nat :=
  if summaryReturned (variantUpdateProgress (server s)) then 1 else 0.

(** The limiter of the batch [b], answered with [page], while the run is
    suspended at [await parallelLimit(tasks, CONCURRENCY_LIMIT)] and [t] of
    the tasks have settled.  Neither a task nor the limiter assigns to
    [serverState], and [results.forEach] runs once the limiter has
    returned: a request that arrives at such a point finds the server as
    the head of the loop body left it. *)
Definition limiter_at (b : Batch) (page : Page) (t : nat) : Limiter.state TaskResult :=
  after (batch_tasks b (edges page)) CONCURRENCY_LIMIT (order b) t.

(** Tasks the limiter has started in the run at that point: those of the
    batches that [log] tells of, and those of the batch in flight. *)
Definition started_at (log : list Obs) (b : Batch) (page : Page) (t : nat) : nat :=
  started_in_run log + i (limiter_at b page t).

End Invariants.

(** ** The checks on the answer to a write, on the answer's JSON body *)

Module Body.
Import Js.

(** [v?.k] for a key that is no built-in member. *)
Definition opt_get (v : value) (k : string) : value :=
  match v with
  | VObj l => default VUndef (assoc k l)
  | _ => VUndef
  end.

(** [v?.length] *)
Definition opt_length (v : value) : value :=
  match v with
  | VArr l => VNum (Z.of_nat (length l))
  | VStr s => VNum (Z.of_nat (String.length s))
  | VObj l => default VUndef (assoc "length" l)
  | _ => VUndef
  end.

(** [v > 0] for a [v] that is neither a string nor an object. *)
Definition gt_zero (v : value) : res bool :=
  match v with
  | VNum z => inr (0 <? z)%Z
  | VBool b => inr b
  | VUndef | VNull | VNaN => inr false
  | VStr _ | VArr _ | VObj _ => inl NotModelled
  end.

(** The test after the write in [handleInventoryUpdate]:
    [updateJson.errors || updateJson.data?.metafieldSet?.userErrors?.length > 0]. *)
Definition update_failed (updateJson : value) : res bool :=
  match get updateJson "errors" with
  | inl e => inl e
  | inr errors =>
      if truthy errors then inr true
      else
        match get updateJson "data" with
        | inl e => inl e
        | inr data =>
            gt_zero (opt_length (opt_get (opt_get data "metafieldSet") "userErrors"))
        end
  end.

(** The test after the write in a task of the run:
    [metafieldData.data?.metafieldsSet?.userErrors?.length > 0]. *)
Definition has_user_errors (metafieldData : value) : res bool :=
  match get metafieldData "data" with
  | inl e => inl e
  | inr data => gt_zero (opt_length (opt_get (opt_get data "metafieldsSet") "userErrors"))
  end.

(** The body of an answer to the [metafieldsSet] mutation: the top-level
    [errors] member, if any, and under [data] the one field the mutation
    selects, with its members. *)
Definition answer_body (errors : option value) (fields : list (string * value)) : value :=
  VObj (match errors with
        | Some e => [("errors", e); ("data", VObj [("metafieldsSet", VObj fields)])]
        | None => [("data", VObj [("metafieldsSet", VObj fields)])]
        end).

End Body.

(** ** The webhook route around the handler *)

Module Route.
Import Js Gql Webhook.

(** [const { inventory_item_id, location_id, available } = payload] *)
Definition destructure (payload : value) : res Payload :=
  match payload with
  | VUndef =>
      inl (TypeError
             "Cannot destructure property 'inventory_item_id' of 'payload' as it is undefined.")
  | VNull =>
      inl (TypeError
             "Cannot destructure property 'inventory_item_id' of 'payload' as it is null.")
  | _ =>
      inr {| inventory_item_id := Body.opt_get payload "inventory_item_id";
             location_id := Body.opt_get payload "location_id";
             available := Body.opt_get payload "available" |}
  end.

(** What [authenticate.webhook(request)] resolves with. *)
Record Session : Type := {
  admin : option Admin;
  topic : string;
}.

(** The [catch] clause: status 500, or [inl NotModelled] when the request
    leaves the model. *)
Definition caught (e : exn) : res nat :=
  match e with
  | NotModelled => inl NotModelled
  | _ => inr 500
  end.

(** The route's [action]: [body] is the text of the request,
    [authenticated] what [authenticate.webhook] resolves or rejects with. *)
Definition action (body : string) (authenticated : res Session) (now : string) : M nat :=
  match Json.parse body with
  | inl e => lift (caught e)
  | inr payload =>
      match authenticated with
      | inl e => lift (caught e)
      | inr session =>
          match admin session with
          | None => ret 401
          | Some adm =>
              if String.eqb (topic session) "INVENTORY_LEVELS_UPDATE" then
                match destructure payload with
                | inl e => lift (caught e)
                | inr p =>
                    (calls (handleInventoryUpdate adm now p),
                     match outcome (handleInventoryUpdate adm now p) with
                     | inr _ => inr 200
                     | inl e => caught e
                     end)
                end
              else ret 200
          end
      end
  end.

End Route.

(** ** The catalogue walk: [getAllVariantsWithInventory] *)

Module Catalog.
Import Js.

(** [data.productVariants] of a [GetVariantsWithInventory] answer. *)
Record Page : Type := {
  nodes : list Bulk.Variant;
  hasNextPage : bool;
  endCursor : value;
}.

(** The second argument of [admin.graphql]: [{cursor}]. *)
Definition options (cursor : value) : value := VObj [("cursor", cursor)].

(** The [while] loop, for at most [fuel] requests.  [graphql] maps the
    options of a request to its decoded answer, [None] when the path
    [data.productVariants] crosses [undefined].  The result is the list of
    the options of the requests sent and, when the loop has ended within
    [fuel] requests, how it ended. *)
Fixpoint loop (graphql : value → res (option Page)) (fuel : nat)
    (allVariants : list Bulk.Variant) (cursor : value)
  : list value * option (res (list Bulk.Variant)) :=
  match fuel with
  | O => ([], None)
  | S fuel =>
      match graphql (options cursor) with
      | inl e => ([options cursor], Some (inl e))
      | inr None =>
          ([options cursor],
           Some (inl (TypeError
                        "Cannot read properties of undefined (reading 'productVariants')")))
      | inr (Some page) =>
          let allVariants := allVariants ++ nodes page in
          if hasNextPage page then
            let '(sent, r) := loop graphql fuel allVariants (endCursor page) in
            (options cursor :: sent, r)
          else ([options cursor], Some (inr allVariants))
      end
  end.

Definition getAllVariantsWithInventory (graphql : value → res (option Page)) (fuel : nat)
  : list value * option (res (list Bulk.Variant)) :=
  loop graphql fuel [] VNull.

(** The answers follow the cursors: the request with [cursor] is answered
    with the first page, the request with that page's [endCursor] with the
    second, and so on; the last page, and only it, announces no next one. *)
Fixpoint follows (graphql : value → res (option Page)) (cursor : value) (pages : list Page)
  : Prop :=
  match pages with
  | [] => False
  | [page] => graphql (options cursor) = inr (Some page) ∧ hasNextPage page = false
  | page :: rest =>
      graphql (options cursor) = inr (Some page) ∧ hasNextPage page = true
      ∧ follows graphql (endCursor page) rest
  end.

(** The cursors of the requests that fetch [pages], from [cursor] on. *)
Fixpoint cursors (cursor : value) (pages : list Page) : list value :=
  match pages with
  | [] => []
  | page :: rest => cursor :: cursors (endCursor page) rest
  end.

(** An API that reads the variables of a query from the [variables] member
    of the options, as the other requests of the program pass them, and from
    nowhere else. *)
Definition reads_variables (graphql : value → res (option Page)) : Prop :=
  ∀ o o', get o "variables" = get o' "variables" → graphql o = graphql o'.

End Catalog.

(** ** More sample inputs *)

Module MoreExamples.
Import Js Gql Limiter Sync Examples.

(** Two tasks, the second of which rejects. *)
Definition one_rejects : list (settled nat) := [Resolved 1; Rejected (Error "boom")].

(** A run of two pages that are both answered. *)
Definition first_page : Page :=
  {| edges := [node "v1" (Some "i1")]; page_hasNextPage := true; endCursor := Some "c1" |}.
Definition last_page : Page :=
  {| edges := [node "v2" (Some "i2"); node "v3" None]; page_hasNextPage := false;
     endCursor := None |}.

Definition answered (page : Page) : Batch :=
  batch_of (inr {| page_errors := None; page_data := Some page |}).

(** A page with more variants than the limiter runs at a time. *)
Definition wide_page : Page :=
  {| edges := (λ name, node name (Some "i1")) <$> ["v1"; "v2"; "v3"; "v4"; "v5"; "v6"; "v7"];
     page_hasNextPage := false; endCursor := None |}.

(** A payload for the same item as [payload], with another location and
    quantity. *)
Definition other_payload : Webhook.Payload :=
  {| Webhook.inventory_item_id := VNum 111;
     Webhook.location_id := VNum 8;
     Webhook.available := VNum 0 |}.

Definition bulk_level : Bulk.Level :=
  {| Bulk.location_id := "gid://shopify/Location/7"; Bulk.location_name := "A";
     Bulk.available := VNum 3 |}.

Definition bulk_variant (name : string) : Bulk.Variant :=
  {| Bulk.id := name; Bulk.inventoryItem := Some [bulk_level] |}.

(** A write that fails for the variant [v2] only. *)
Definition refuses_v2 (owner : string) (snapshot : value) : res unit :=
  if String.eqb owner "v2" then inl (Error "write refused") else inr tt.

Definition catalog_page (name : string) (more : bool) (cursor : value) : Catalog.Page :=
  {| Catalog.nodes := [bulk_variant name]; Catalog.hasNextPage := more;
     Catalog.endCursor := cursor |}.

(** An API that honours the [cursor] member of the options. *)
Definition by_cursor (o : value) : res (option Catalog.Page) :=
  match Body.opt_get o "cursor" with
  | VNull => inr (Some (catalog_page "v1" true (VStr "c1")))
  | VStr "c1" => inr (Some (catalog_page "v2" false VNull))
  | _ => inr None
  end.

(** An API that reads [variables.cursor] and finds none. *)
Definition by_variables (o : value) : res (option Catalog.Page) :=
  match Body.opt_get (Body.opt_get o "variables") "cursor" with
  | VUndef | VNull => inr (Some (catalog_page "v1" true (VStr "c1")))
  | _ => inr (Some (catalog_page "v2" false VNull))
  end.

(** The body of a webhook for [payload]. *)
Definition payload_text : string :=
  Json.quoted "{'inventory_item_id':111,'location_id':7,'available':'12'}".

Definition session : Route.Session :=
  {| Route.admin := Some (shop (Some snapshot_text) two_levels);
     Route.topic := "INVENTORY_LEVELS_UPDATE" |}.

End MoreExamples.

(** ** [JSON.stringify] *)

Module Stringify.
Import Js Json.

(** A hexadecimal digit, in lower case. *)
Definition hex_digit (n : nat) : ascii :=
  ascii_of_nat (if n <? 10 then 48 + n else 87 + n).

(** The image of a character in a string literal, as [JSON.stringify]
    writes it. *)
Definition escape_char (c : ascii) : string :=
  let n := nat_of_ascii c in
  if Ascii.eqb c QUOTE then String "\" (String QUOTE EmptyString)
  else if Ascii.eqb c "\" then String "\" (String "\" EmptyString)
  else if n =? 8 then "\b"
  else if n =? 9 then "\t"
  else if n =? 10 then "\n"
  else if n =? 12 then "\f"
  else if n =? 13 then "\r"
  else if n <? 32 then
    "\u00" +:+ String (hex_digit (n / 16)) (String (hex_digit (n mod 16)) EmptyString)
  else String c EmptyString.

Fixpoint escape (s : string) : string :=
  match s with
  | EmptyString => EmptyString
  | String c r => escape_char c +:+ escape r
  end.

(** QuoteJSONString *)
Definition quote (s : string) : string :=
  String QUOTE (escape s +:+ String QUOTE EmptyString).

(** A key that starts with a digit may be an array index, which an object
    enumerates before its other keys; such objects are left out of the
    model. *)
Definition index_like (k : string) : bool :=
  match k with
  | String c _ => is_digit c
  | EmptyString => false
  end.

Definition brackets (opening closing : ascii) (parts : list string) : string :=
  String opening (join "," parts +:+ String closing EmptyString).

(** An element of an array: [undefined] is written as [null]. *)
Definition element_text (str : value → res string) (x : value) : res string :=
  match x with
  | VUndef => inr "null"
  | _ => str x
  end.

Fixpoint element_texts (str : value → res string) (l : list value) : res (list string) :=
  match l with
  | [] => inr []
  | x :: r =>
      match element_text str x, element_texts str r with
      | inr t, inr ts => inr (t :: ts)
      | inl e, _ => inl e
      | _, inl e => inl e
      end
  end.

(** The text of a member: the quoted key, a colon, the text of the value. *)
Definition member_part (k : string) (t : string) : string := quote k +:+ String ":" t.

(** The members of an object: one whose value is [undefined] is left out. *)
Fixpoint member_texts (str : value → res string) (l : list (string * value))
  : res (list string) :=
  match l with
  | [] => inr []
  | (k, x) :: r =>
      if index_like k then inl NotModelled
      else
        match x with
        | VUndef => member_texts str r
        | _ =>
            match str x, member_texts str r with
            | inr t, inr ts => inr (member_part k t :: ts)
            | inl e, _ => inl e
            | _, inl e => inl e
            end
        end
  end.

(** [JSON.stringify(v)] for a [v] that is not [undefined]. *)
Fixpoint stringify (v : value) : res string :=
  match v with
  | VUndef => inl NotModelled
  | VNull | VNaN => inr "null"
  | VBool b => inr (if b then "true" else "false")
  | VNum z => if (Z.abs z <=? 2 ^ 53)%Z then inr (string_of_Z z) else inl NotModelled
  | VStr s => inr (quote s)
  | VArr l =>
      match element_texts stringify l with
      | inr parts => inr (brackets "[" "]" parts)
      | inl e => inl e
      end
  | VObj l =>
      match member_texts stringify l with
      | inr parts => inr (brackets "{" "}" parts)
      | inl e => inl e
      end
  end.

(** Values that [JSON.stringify] writes without loss: no [undefined], no
    [NaN], integers that a double holds exactly, and objects whose keys are
    distinct and not index-like. *)
Fixpoint plain (v : value) : bool :=
  match v with
  | VUndef | VNaN => false
  | VNull | VBool _ | VStr _ => true
  | VNum z => (Z.abs z <=? 2 ^ 53)%Z
  | VArr l => forallb plain l
  | VObj l =>
      forallb (λ kv, let '(k, x) := kv in negb (index_like k) && plain x) l
      && bool_decide (NoDup l.*1)
  end.

(** The two loops of [Json.parse_value], over the parser [pv] of the
    nested values. *)
Definition elements_of (pv : string → res (value * string))
  : nat → list value → string → res (value * string) :=
  fix elements (n : nat) (acc : list value) (s : string) : res (value * string) :=
    match n with
    | O => inl NotModelled
    | S n =>
        match pv (skip_ws s) with
        | inl e => inl e
        | inr (v, r) =>
            match skip_ws r with
            | String "," r' => elements n (acc ++ [v]) r'
            | String "]" r' => inr (VArr (acc ++ [v]), r')
            | _ => inl SyntaxError
            end
        end
    end%char.

Definition members_of (pv : string → res (value * string))
  : nat → list (string * value) → string → res (value * string) :=
  fix members (n : nat) (acc : list (string * value)) (s : string) : res (value * string) :=
    match n with
    | O => inl NotModelled
    | S n =>
        match skip_ws s with
        | String QUOTE r =>
            match string_body r with
            | inl e => inl e
            | inr (k, r1) =>
                match skip_ws r1 with
                | String ":" r2 =>
                    match pv (skip_ws r2) with
                    | inl e => inl e
                    | inr (v, r3) =>
                        match skip_ws r3 with
                        | String "," r4 => members n (assoc_set k v acc) r4
                        | String "}" r4 => inr (VObj (assoc_set k v acc), r4)
                        | _ => inl SyntaxError
                        end
                    end
                | _ => inl SyntaxError
                end
            end
        | _ => inl SyntaxError
        end
    end%char.

(** What may follow a value inside a text: nothing, or a comma or a closing
    bracket. *)
Definition stops (rest : string) : bool :=
  match rest with
  | EmptyString => true
  | String c _ => Ascii.eqb c "," || Ascii.eqb c "]" || Ascii.eqb c "}"
  end.

(** A decimal numeral without superfluous leading zero. *)
Definition no_leading_zero (d : uint) : Prop :=
  match d with
  | Nil => False
  | D0 d' => d' = Nil
  | _ => True
  end.

(** The first character of a value's text: no white space and no closing
    bracket. *)
Definition opens (t : string) : bool :=
  match t with
  | String c _ => negb (is_ws c) && negb (Ascii.eqb c "]") && negb (Ascii.eqb c "}")
  | EmptyString => false
  end.

(** [t] opens like a value and, followed by anything that may follow a
    value, is read back as [v]. *)
Definition reads_back (v : value) (t : string) : Prop :=
  opens t = true
  ∧ ∀ fuel rest, String.length t < fuel → stops rest = true →
      parse_value fuel (t +:+ rest) = inr (v, rest).

End Stringify.

(** ** A stored sample *)

Module StoredExamples.
Import Js Gql Sync Examples Invariants Stringify.


(** The snapshot the sample update leaves when merged into the sample
    snapshot, and its text. *)
Definition merged_snapshot : value :=
  match outcome (Webhook.merge (shop None two_levels) "now" payload
                   (VObj [("locations", VArr [snapshot_record])])) with
  | inr merged => merged
  | inl _ => VNull
  end.

Definition merged_text : string :=
  match stringify merged_snapshot with
  | inr text => text
  | inl _ => EmptyString
  end.

End StoredExamples.

(** * Properties *)

(** ** The built-ins *)

Module JsFacts.
Import Js.
Local Open Scope Z_scope.

Lemma digit_prefix_string_of_uint d : digit_prefix (NilEmpty.string_of_uint d) = d.
Proof. induction d; simpl; by rewrite ?IHd. Qed.

Lemma parseInt10_digits (neg : bool) (d : uint) :
  d ≠ Nil →
  parseInt10_string (NilZero.string_of_int (if neg then Decimal.Neg d else Decimal.Pos d))
  = Some (signed neg (Z.of_uint d)).
Proof.
  intros Hd. pose proof (digit_prefix_string_of_uint d) as Hp.
  unfold parseInt10_string.
  destruct neg; destruct d; try done;
    cbn [NilZero.string_of_int NilZero.string_of_uint NilEmpty.string_of_uint] in *;
    cbn [trim_start is_space nat_of_ascii]; simpl split_sign; cbv iota beta;
    by rewrite Hp.
Qed.

(** [parseInt] gives an integer back. *)
Lemma parseInt10_string_of_Z z : parseInt10_string (string_of_Z z) = Some z.
Proof.
  unfold string_of_Z. destruct z as [|p|p]; [done| |].
  - change (Z.to_int (Z.pos p)) with (if false then Decimal.Neg (Pos.to_uint p) else Decimal.Pos (Pos.to_uint p)).
    rewrite parseInt10_digits by apply Unsigned.to_uint_nonnil.
    simpl. unfold Z.of_uint. by rewrite Unsigned.of_to.
  - change (Z.to_int (Z.neg p)) with (if true then Decimal.Neg (Pos.to_uint p) else Decimal.Pos (Pos.to_uint p)).
    rewrite parseInt10_digits by apply Unsigned.to_uint_nonnil.
    simpl. unfold Z.of_uint. by rewrite Unsigned.of_to.
Qed.

Example parseInt_samples :
  parseInt10 (VStr "12") = VNum 12
  ∧ parseInt10 (VStr "  -12abc") = VNum (-12)
  ∧ parseInt10 (VStr "abc") = VNaN
  ∧ parseInt10 VNull = VNaN
  ∧ parseInt10 (VStr "0x1F") = VNum 0
  ∧ parseInt (VStr "0x1F") = VNum 31
  ∧ parseInt (VNum 7) = VNum 7
  ∧ pop (split "/" "gid://shopify/Location/123") = VStr "123".
Proof. by vm_compute. Qed.

Example parse_samples :
  Json.parse (Json.quoted "{'locations':[]}") = inr (VObj [("locations", VArr [])])
  ∧ Json.parse (Json.quoted " [1, -2, 3e2, true, null, 'a\nb'] ")
    = inr (VArr [VNum 1; VNum (-2); VNum 300; VBool true; VNull;
                 VStr (String "a" (String (ascii_of_nat 10) "b"))])
  ∧ Json.parse (Json.quoted "{'a':1,'b':2,'a':3}") = inr (VObj [("a", VNum 3); ("b", VNum 2)])
  ∧ Json.parse "{" = inl SyntaxError
  ∧ Json.parse EmptyString = inl SyntaxError
  ∧ Json.parse "[1,]" = inl SyntaxError
  ∧ Json.parse "01" = inl SyntaxError
  ∧ Json.parse "[] x" = inl SyntaxError
  ∧ Json.parse "undefined" = inl SyntaxError.
Proof. by vm_compute. Qed.

Lemma parseInt10_number z : parseInt10 (VNum z) = VNum z.
Proof. unfold parseInt10. simpl. by rewrite parseInt10_string_of_Z. Qed.

(** [parseInt(v, 10) || 0] is always an integer. *)
Lemma parseInt10_or_zero v :
  or_else (parseInt10 v) (VNum 0)
  = VNum (match parseInt10 v with VNum z => z | _ => 0 end).
Proof.
  unfold parseInt10, or_else. destruct (parseInt10_string (to_string v)) as [z|]; simpl; [|done].
  destruct (Z.eqb_spec z 0); simpl; congruence.
Qed.

End JsFacts.

(** ** The limiter *)

Module LimiterFacts.
Import Js Limiter.

Section Results.
Context {T : Type}.
Implicit Types (a : list (option T)) (v : T) (vals : list T).

Lemma read_array_set_eq a idx v : read (array_set a idx v) idx = Some v.
Proof.
  unfold read, array_set. destruct (Nat.ltb_spec idx (length a)) as [Hlt|Hge].
  - by rewrite list_lookup_insert_eq.
  - rewrite lookup_app_r by lia.
    rewrite lookup_app_r by (rewrite length_replicate; lia).
    rewrite length_replicate. by replace (idx - length a - (idx - length a)) with 0 by lia.
Qed.

Lemma read_array_set_ne a idx v j : j ≠ idx → read (array_set a idx v) j = read a j.
Proof.
  intros Hne. unfold read, array_set.
  destruct (Nat.ltb_spec idx (length a)) as [Hlt|Hge].
  - by rewrite list_lookup_insert_ne.
  - destruct (decide (j < length a)) as [Hj|Hj].
    + by rewrite lookup_app_l.
    + rewrite (lookup_ge_None_2 a j) by lia. rewrite lookup_app_r by lia.
      destruct (decide (j < idx)) as [Hji|Hji].
      * rewrite lookup_app_l by (rewrite length_replicate; lia).
        rewrite lookup_replicate_2 by lia. done.
      * rewrite lookup_app_r by (rewrite length_replicate; lia).
        rewrite length_replicate.
        destruct (j - length a - (idx - length a)) as [|m] eqn:E; [lia|done].
Qed.

Lemma length_array_set a idx v :
  length (array_set a idx v) = Nat.max (length a) (S idx).
Proof.
  unfold array_set. destruct (Nat.ltb_spec idx (length a)).
  - rewrite length_insert. lia.
  - rewrite !length_app, length_replicate. simpl. lia.
Qed.

(** An array without holes below [n] and no longer than [n] is the list
    of the values read from it. *)
Lemma results_full a vals :
  length a ≤ length vals →
  (∀ j, j < length vals → read a j = vals !! j) →
  a = Some <$> vals.
Proof.
  intros Hlen Hread. apply list_eq. intros j. rewrite list_lookup_fmap.
  destruct (decide (j < length vals)) as [Hj|Hj].
  - specialize (Hread j Hj). unfold read in Hread.
    destruct (lookup_lt_is_Some_2 vals j Hj) as [v Hv]. rewrite Hv in *. simpl.
    destruct (a !! j) as [[x|]|]; simpl in Hread; congruence.
  - rewrite (lookup_ge_None_2 a) by lia. by rewrite (lookup_ge_None_2 vals) by lia.
Qed.

Lemma iter_spawn n m :
  m ≤ n →
  Nat.iter m (spawn n) {| i := 0; results := @nil (option T); in_flight := []; thrown := None |}
  = {| i := m; results := []; in_flight := seq 0 m; thrown := None |}.
Proof.
  induction m as [|m IH]; intros Hm; [done|].
  rewrite seq_S. cbn [Nat.iter nat_rect]. unfold Nat.iter in IH. rewrite IH by lia.
  unfold spawn. cbn [i results in_flight thrown].
  destruct (Nat.leb_spec n m); [lia|]. done.
Qed.

Lemma init_eq n limit :
  init n limit
  = {| i := Nat.min limit n; results := @nil (option T);
       in_flight := seq 0 (Nat.min limit n); thrown := None |}.
Proof. unfold init. apply iter_spawn. lia. Qed.

Lemma inv_init vals k : inv vals k 0 (init (length vals) k).
Proof.
  rewrite init_eq. split; simpl.
  - lia.
  - rewrite length_seq. lia.
  - intros x Hx. apply elem_of_seq in Hx. lia.
  - apply NoDup_seq.
  - intros j Hj Hn. exfalso. apply Hn. apply elem_of_seq. lia.
  - lia.
  - done.
Qed.

Lemma NoDup_delete_at (l : list nat) w : NoDup l → NoDup (delete w l).
Proof.
  intros Hl. destruct (decide (w < length l)) as [Hw|Hw].
  - destruct (lookup_lt_is_Some_2 _ _ Hw) as [x Hx].
    rewrite <- (take_drop_middle l w x Hx) in Hl.
    rewrite delete_take_drop. apply NoDup_app in Hl as (H1 & H2 & H3).
    apply NoDup_cons in H3 as [_ H3]. apply NoDup_app. split; [done|]. split; [|done].
    intros y Hy Hy'. apply (H2 y Hy). by right.
  - rewrite delete_take_drop, take_ge, drop_ge by lia. by rewrite app_nil_r.
Qed.

Lemma NoDup_insert_fresh (l : list nat) w y : NoDup l → y ∉ l → NoDup (<[w := y]> l).
Proof.
  intros Hl Hy. destruct (decide (w < length l)) as [Hw|Hw].
  - destruct (lookup_lt_is_Some_2 _ _ Hw) as [x Hx].
    rewrite insert_take_drop by done.
    rewrite <- (take_drop_middle l w x Hx) in Hl, Hy.
    apply NoDup_app in Hl as (H1 & H2 & H3). apply NoDup_cons in H3 as [_ H3].
    apply NoDup_app. split; [done|]. split.
    + intros z Hz Hz'. apply elem_of_cons in Hz' as [->|Hz'].
      * apply Hy. apply elem_of_app. by left.
      * apply (H2 z Hz). by right.
    + apply NoDup_cons. split; [|done].
      intros Hin. apply Hy. apply elem_of_app. right. by right.
  - by rewrite list_insert_ge by lia.
Qed.

Lemma not_elem_of_delete (l : list nat) w idx j :
  l !! w = Some idx → j ∉ delete w l → j = idx ∨ j ∉ l.
Proof.
  intros Hw Hn. destruct (decide (j = idx)) as [|Hne]; [by left|right].
  intros Hin. apply Hn. apply list_elem_of_lookup in Hin as [p Hp].
  apply list_elem_of_lookup.
  destruct (decide (p < w)) as [Hlt|Hge].
  - exists p. by rewrite list_lookup_delete_lt.
  - assert (p ≠ w) by (intros ->; congruence).
    exists (p - 1). rewrite list_lookup_delete_ge by lia.
    by replace (S (p - 1)) with p by lia.
Qed.

Lemma not_elem_of_insert (l : list nat) w idx y j :
  l !! w = Some idx → j ∉ <[w := y]> l → j = idx ∨ j ∉ l.
Proof.
  intros Hw Hn. destruct (decide (j = idx)) as [|Hne]; [by left|right].
  intros Hin. apply Hn. apply list_elem_of_lookup in Hin as [p Hp].
  apply list_elem_of_lookup. exists p.
  assert (p ≠ w) by (intros ->; congruence).
  by rewrite list_lookup_insert_ne.
Qed.

Lemma elem_of_insert_inv (l : list nat) w y x : x ∈ <[w := y]> l → x = y ∨ x ∈ l.
Proof.
  intros Hin. apply list_elem_of_lookup in Hin as [p Hp].
  destruct (decide (p = w)) as [->|Hne].
  - destruct (decide (w < length l)).
    + rewrite list_lookup_insert_eq in Hp by done. left. congruence.
    + rewrite list_insert_ge in Hp by lia. right. apply list_elem_of_lookup. eauto.
  - rewrite list_lookup_insert_ne in Hp by done. right. apply list_elem_of_lookup. eauto.
Qed.

Lemma after_S (tasks : list (settled T)) limit order t :
  after tasks limit order (S t)
  = let st := after tasks limit order t in
    if decide (in_flight st = []) then st
    else resume tasks (order t mod length (in_flight st)) st.
Proof. simpl. by destruct (in_flight (after tasks limit order t)). Qed.

Lemma inv_step vals k order t :
  1 ≤ k →
  inv vals k t (after (Resolved <$> vals) k order t) →
  inv vals k (S t) (after (Resolved <$> vals) k order (S t)).
Proof.
  intros Hk. rewrite after_S. cbv zeta. set (st := after _ _ _ t).
  intros [Hi Hlen Hb Hnd Hr Hres Hth].
  destruct (decide (in_flight st = [])) as [Hfl|Hfl].
  - rewrite Hfl in Hlen. simpl in Hlen. split.
    + lia.
    + rewrite Hfl. simpl. lia.
    + done.
    + done.
    + intros j Hj _. apply Hr; [done|]. rewrite Hfl. apply not_elem_of_nil.
    + done.
    + done.
  - set (w := order t mod length (in_flight st)).
    assert (Hw : w < length (in_flight st)).
    { apply Nat.mod_upper_bound. by destruct (in_flight st). }
    unfold resume.
    destruct (lookup_lt_is_Some_2 _ _ Hw) as [idx Hidx]. rewrite Hidx.
    assert (Hidx_lt : idx < i st) by (apply Hb, list_elem_of_lookup; eauto).
    assert (Hn : idx < length vals) by lia.
    destruct (lookup_lt_is_Some_2 _ _ Hn) as [v Hv].
    rewrite list_lookup_fmap, Hv. simpl. rewrite length_fmap.
    destruct (Nat.leb_spec (length vals) (i st)) as [Hfull|Hmore].
    + split; simpl.
      * lia.
      * rewrite length_delete by eauto. lia.
      * intros x Hx. apply Hb. by eapply list_elem_of_delete_inv.
      * by apply NoDup_delete_at.
      * intros j Hj Hnot.
        destruct (not_elem_of_delete _ _ _ _ Hidx Hnot) as [->|Hnin].
        -- by rewrite read_array_set_eq.
        -- destruct (decide (j = idx)) as [->|Hne]; [by rewrite read_array_set_eq|].
           rewrite read_array_set_ne by done. by apply Hr.
      * rewrite length_array_set. lia.
      * done.
    + split; simpl.
      * lia.
      * rewrite length_insert. lia.
      * intros x Hx. apply elem_of_insert_inv in Hx as [->|Hx]; [lia|].
        specialize (Hb x Hx). lia.
      * apply NoDup_insert_fresh; [done|]. intros Hin. specialize (Hb _ Hin). lia.
      * intros j Hj Hnot.
        assert (j ≠ i st).
        { intros ->. apply Hnot. apply list_elem_of_lookup. exists w.
          by rewrite list_lookup_insert_eq. }
        destruct (not_elem_of_insert _ _ _ _ _ Hidx Hnot) as [->|Hnin].
        -- by rewrite read_array_set_eq.
        -- destruct (decide (j = idx)) as [->|Hne]; [by rewrite read_array_set_eq|].
           rewrite read_array_set_ne by done. apply Hr; [lia|done].
      * rewrite length_array_set. lia.
      * done.
Qed.

Lemma inv_after vals k order t :
  1 ≤ k → inv vals k t (after (Resolved <$> vals) k order t).
Proof.
  intros Hk. induction t as [|t IH].
  - simpl. rewrite length_fmap. apply inv_init.
  - by apply inv_step.
Qed.

Lemma finish_resolved vals k order :
  1 ≤ k →
  let st := finish (Resolved <$> vals) k order in
  i st = length vals ∧ in_flight st = [] ∧ thrown st = None
  ∧ results st = Some <$> vals.
Proof.
  intros Hk. unfold finish. rewrite length_fmap.
  destruct (inv_after vals k order (length vals) Hk) as [Hi Hlen Hb Hnd Hr Hres Hth].
  set (st := after _ _ _ _) in *. simpl.
  assert (Hin : i st = length vals) by lia.
  assert (Hnil : in_flight st = []).
  { apply length_zero_iff_nil. lia. }
  repeat split; try done.
  apply results_full; [lia|].
  intros j Hj. apply Hr; [lia|]. rewrite Hnil. apply not_elem_of_nil.
Qed.

Lemma parallelLimit_resolved vals k order :
  1 ≤ k →
  parallelLimit (Resolved <$> vals) k order = inr (Some <$> vals)
  ∧ started (Resolved <$> vals) k order = length vals.
Proof.
  intros Hk. destruct (finish_resolved vals k order Hk) as (Hi & Hfl & Hth & Hres).
  unfold parallelLimit, started. by rewrite Hth, Hfl, Hres, Hi.
Qed.

(** When a task is left, resuming a worker starts the task of index [i]. *)
Lemma next_started vals k order t :
  1 ≤ k →
  k + t < length vals →
  k + t ∈ in_flight (after (Resolved <$> vals) k order (S t)).
Proof.
  intros Hk Hlt. rewrite after_S. cbv zeta.
  destruct (inv_after vals k order t Hk) as [Hi Hlen Hb Hnd Hr Hres Hth].
  set (st := after _ _ _ t) in *.
  assert (Hist : i st = k + t) by lia.
  destruct (decide (in_flight st = [])) as [Hfl|Hfl].
  { rewrite Hfl in Hlen. simpl in Hlen. lia. }
  set (w := order t mod length (in_flight st)).
  assert (Hw : w < length (in_flight st)).
  { apply Nat.mod_upper_bound. by destruct (in_flight st). }
  unfold resume. destruct (lookup_lt_is_Some_2 _ _ Hw) as [idx Hidx]. rewrite Hidx.
  assert (Hidx_lt : idx < length vals).
  { assert (idx < i st) by (apply Hb, list_elem_of_lookup; eauto). lia. }
  destruct (lookup_lt_is_Some_2 _ _ Hidx_lt) as [v Hv].
  rewrite list_lookup_fmap, Hv. simpl. rewrite length_fmap.
  destruct (Nat.leb_spec (length vals) (i st)); [lia|]. simpl.
  apply list_elem_of_lookup. exists w. rewrite Hist. by apply list_lookup_insert_eq.
Qed.

(** C3.  For tasks that resolve with [vals] and a limit [k ≥ 1], whatever
    the order in which the tasks settle: the limiter returns an array of
    length [n] whose [j]-th element is the value of the [j]-th task; after
    [t] tasks have settled exactly [min k (n - t)] tasks are in flight,
    all different, which is at most [min k n]; the tasks started so far are those of
    index below [min n (k + t)], and the settling of a task while one is
    left starts the task of the least index not yet started. *)
Theorem parallelLimit_ordered_and_bounded vals k order :
  1 ≤ k →
  let n := length vals in
  let tasks := Resolved <$> vals in
  parallelLimit tasks k order = inr (Some <$> vals)
  ∧ (∀ out, parallelLimit tasks k order = inr out →
       length out = n ∧ ∀ j v, vals !! j = Some v → out !! j = Some (Some v))
  ∧ ∀ t, let st := after tasks k order t in
         length (in_flight st) = Nat.min k (n - t)
         ∧ length (in_flight st) ≤ Nat.min k n
         ∧ i st = Nat.min n (k + t)
         ∧ (∀ j, j ∈ in_flight st → j < i st)
         ∧ NoDup (in_flight st)
         ∧ (i st < n → i st ∈ in_flight (after tasks k order (S t))).
Proof.
  intros Hk n tasks.
  destruct (parallelLimit_resolved vals k order Hk) as [Hp _].
  split; [done|]. split.
  - intros out Hout. fold tasks in Hp. rewrite Hp in Hout. injection Hout as <-.
    split; [by rewrite length_fmap|].
    intros j v Hj. by rewrite list_lookup_fmap, Hj.
  - intros t st.
    destruct (inv_after vals k order t Hk) as [Hi Hlen Hb Hnd Hr Hres Hth].
    fold tasks in Hi, Hlen, Hb, Hnd. fold st in Hi, Hlen, Hb, Hnd. fold n in Hi.
    repeat split.
    + lia.
    + lia.
    + done.
    + done.
    + done.
    + intros Hlt. rewrite Hi in *. replace (Nat.min n (k + t)) with (k + t) in * by lia.
      apply next_started; [done|]. fold n. lia.
Qed.

End Results.
End LimiterFacts.

(** ** The one-pass synchronisation *)

Module BulkFacts.
Import Js Gql Bulk.

(** When no write throws, one snapshot is written per variant that has an
    inventory item, in order, and none for the others. *)
Lemma bulk_writes_per_inventory_item metafieldSet now variants :
  (∀ owner snapshot, metafieldSet owner snapshot = inr tt) →
  bulkInventoryMetafields metafieldSet now variants
  = (omap (λ variant,
             (λ levels, MetafieldSet (id variant) (inventoryData now levels))
               <$> inventoryItem variant) variants,
     inr tt).
Proof.
  intros Hset. induction variants as [|variant rest IH]; [done|].
  cbn [bulkInventoryMetafields omap list_omap].
  destruct (inventoryItem variant) as [levels|]; simpl; [|done].
  unfold mbind, M_bind, bind, ask. by rewrite Hset, IH.
Qed.

End BulkFacts.

(** ** The start request and the status query *)

Module ActionFacts.
Import Js Gql Limiter Sync.

Lemma exec_app s evs1 evs2 :
  exec s (evs1 ++ evs2)
  = let '(s1, o1) := exec s evs1 in
    let '(s2, o2) := exec s1 evs2 in (s2, o1 ++ o2).
Proof.
  revert s. induction evs1 as [|e evs1 IH]; intros s; simpl.
  - by destruct (exec s evs2).
  - destruct (step s e) as [s' o]. rewrite IH.
    destruct (exec s' evs1) as [s1 o1]. by destruct (exec s1 evs2).
Qed.

(** Once the flag is set, or while the run is not complete, a status query
    returns the progress object as it is and changes nothing. *)
Lemma status_query_settled s now :
  (isProcessing (variantUpdateProgress (server s)) = true
   ∨ completedAt (variantUpdateProgress (server s)) = None
   ∨ summaryReturned (variantUpdateProgress (server s)) = true) →
  step s (Request (Some "getProgress") now)
  = (s, Responded (ProgressJson (variantUpdateProgress (server s)) false None) false).
Proof.
  intros H. simpl. unfold action. rewrite bool_decide_eq_true_2 by done.
  destruct s as [[p r] bg]; simpl in *.
  destruct H as [-> | [-> | ->]]; simpl; try done.
  - by rewrite andb_false_r.
  - by rewrite andb_false_r.
Qed.

Lemma status_queries_settled s nows :
  summaryReturned (variantUpdateProgress (server s)) = true →
  exec s (status_queries nows)
  = (s, (λ _, Responded (ProgressJson (variantUpdateProgress (server s)) false None) false)
          <$> nows).
Proof.
  intros H. induction nows as [|now nows IH]; [done|].
  unfold status_queries in *. cbn [fmap list_fmap exec].
  rewrite status_query_settled by auto. by rewrite IH.
Qed.

Lemma status_queries_running s nows :
  (isProcessing (variantUpdateProgress (server s)) = true
   ∨ completedAt (variantUpdateProgress (server s)) = None) →
  exec s (status_queries nows)
  = (s, (λ _, Responded (ProgressJson (variantUpdateProgress (server s)) false None) false)
          <$> nows).
Proof.
  intros H. induction nows as [|now nows IH]; [done|].
  unfold status_queries in *. cbn [fmap list_fmap exec].
  rewrite status_query_settled by tauto. by rewrite IH.
Qed.

Lemma count_spreads_none {A} (f : A → Obs) (l : list A) :
  (∀ x, spreads (f x) = false) → length (filter (λ o, spreads o = true) (f <$> l)) = 0.
Proof.
  intros Hf. induction l as [|x l IH]; [done|].
  cbn [fmap list_fmap]. rewrite filter_cons. case_decide as Hd; [|done].
  by rewrite Hf in Hd.
Qed.

(** C6.  While [backgroundProcessing.isRunning] is set, a request other
    than a status query is answered with the rejection message and leaves
    the whole state, progress object included, as it was. *)
Theorem start_while_running_is_rejected s intent now :
  isRunning (server s) = true →
  intent ≠ Some "getProgress" →
  step s (Request intent now)
  = (s, Responded (MessageJson false
                     "Process already running. Please wait for it to complete." None)
          false).
Proof.
  intros Hrun Hintent. simpl. unfold action.
  rewrite bool_decide_eq_false_2 by done. by rewrite Hrun.
Qed.

(** The first status query on a completed run whose summary has not been
    returned yet. *)
Lemma status_query_unread s now :
  let p := variantUpdateProgress (server s) in
  isProcessing p = false →
  is_Some (completedAt p) →
  summaryReturned p = false →
  step s (Request (Some "getProgress") now)
  = ({| server := {| variantUpdateProgress := set_summaryReturned p;
                     isRunning := isRunning (server s) |};
        background := background s |},
     Responded (ProgressJson (set_summaryReturned p) true (summary p)) false).
Proof.
  intros p Hproc Hdone Hflag. simpl. unfold action.
  rewrite bool_decide_eq_true_2 by done. fold p.
  rewrite Hproc, Hflag. by rewrite bool_decide_eq_true_2.
Qed.

(** C8.  In the responses to any sequence of status queries at most one
    carries the summary fields at its top level.  When the run is complete
    and its summary has not been returned, it is the first response that
    carries them, the query sets [summaryReturned], and every later
    response is the settled progress object alone, the state staying as the
    first query left it. *)
Theorem summary_is_spread_once s nows :
  let p := variantUpdateProgress (server s) in
  length (filter (λ o, spreads o = true) (exec s (status_queries nows)).2) ≤ 1
  ∧ (isProcessing p = false → is_Some (completedAt p) → summaryReturned p = false →
     ∀ now rest, nows = now :: rest →
       exec s (status_queries nows)
       = ({| server := {| variantUpdateProgress := set_summaryReturned p;
                          isRunning := isRunning (server s) |};
             background := background s |},
          Responded (ProgressJson (set_summaryReturned p) true (summary p)) false
          :: ((λ _, Responded (ProgressJson (set_summaryReturned p) false None) false)
                <$> rest))).
Proof.
  intros p.
  assert (Hfirst : isProcessing p = false → is_Some (completedAt p) →
                   summaryReturned p = false →
                   ∀ now rest,
                     exec s (status_queries (now :: rest))
                     = ({| server := {| variantUpdateProgress := set_summaryReturned p;
                                        isRunning := isRunning (server s) |};
                           background := background s |},
                        Responded (ProgressJson (set_summaryReturned p) true (summary p))
                          false
                        :: ((λ _, Responded (ProgressJson (set_summaryReturned p) false None)
                                    false) <$> rest))).
  { intros Hproc Hdone Hflag now rest. unfold status_queries.
    cbn [fmap list_fmap exec]. rewrite (status_query_unread s now Hproc Hdone Hflag).
    fold p. fold (status_queries rest). by rewrite status_queries_settled. }
  split; [|by intros ? ? ? now rest ->; apply Hfirst].
  destruct (isProcessing p) eqn:Hproc.
  { rewrite status_queries_running by auto. simpl.
    rewrite count_spreads_none; [lia|done]. }
  destruct (completedAt p) as [t|] eqn:Hdone.
  2: { rewrite status_queries_running by auto. simpl.
       rewrite count_spreads_none; [lia|done]. }
  destruct (summaryReturned p) eqn:Hflag.
  { rewrite status_queries_settled by done. simpl.
    rewrite count_spreads_none; [lia|done]. }
  destruct nows as [|now rest]; [simpl; lia|].
  rewrite Hfirst by (rewrite ?Hdone; eauto). cbn [snd].
  rewrite filter_cons_True by done. simpl.
  rewrite count_spreads_none; [lia|done].
Qed.

End ActionFacts.

Module RunFacts.
Import Js Gql Limiter Sync Examples ActionFacts.

(** Nothing resumes a run that has ended. *)
Lemma resume_run_ended s input :
  background s = None → resume_run input s = (s, Ignored).
Proof. intros H. unfold resume_run. rewrite H. by destruct input. Qed.

(** The effect of an exception that leaves the inner [try] block. *)
Lemma resume_run_batch_error s l b e n :
  background s = Some (AwaitPage l) →
  batch_try b l (variantUpdateProgress (server s)) = (inl e, n) →
  resume_run (BatchAnswer b) s
  = (complete (end_time b)
       (push_local (batchError (batchCount l) (message e)) l)
       (push_error (batchError (batchCount l) (message e))
          (variantUpdateProgress (server s))),
     Ran n).
Proof. intros Hbg Htry. unfold resume_run. by rewrite Hbg, Htry. Qed.

(** A task never throws: its [catch] turns every exception into a result. *)
Lemma task_resolves admin now variant :
  ∃ r, outcome (task admin now variant) = inr r.
Proof.
  unfold task. destruct (task_body admin now variant) as [l [e|r]]; simpl; eauto.
Qed.

Lemma imap_tasks_resolved admin (time : nat → string) variants :
  ∃ rs, imap (λ k variant,
                match outcome (task admin (time k) variant) with
                | inr r => Resolved r
                | inl e => Rejected e
                end) variants = Resolved <$> rs
        ∧ length rs = length variants.
Proof.
  revert time. induction variants as [|v vs IH]; intros time.
  - by exists [].
  - destruct (task_resolves admin (time 0) v) as [r Hr].
    destruct (IH (time ∘ S)) as (rs & Hrs & Hlen).
    exists (r :: rs). rewrite imap_cons, Hr. split; [|simpl; lia].
    cbn [fmap list_fmap]. f_equal. exact Hrs.
Qed.

Lemma batch_tasks_resolved b variants :
  ∃ rs, batch_tasks b variants = Resolved <$> rs ∧ length rs = length variants.
Proof. apply imap_tasks_resolved. Qed.

(** Every result adds one to both counters, whatever it is. *)
Lemma record_result_counts l p r :
  processed l = processedVariants p →
  let '(l', p') := record_result (l, p) (Some r) in
  processed l' = S (processed l) ∧ processedVariants p' = S (processedVariants p).
Proof. intros H. destruct r; simpl; lia. Qed.

Lemma fold_record_results rs l p :
  processed l = processedVariants p →
  let '(l', p') := fold_left record_result (Some <$> rs) (l, p) in
  processed l' = processed l + length rs
  ∧ processedVariants p' = processedVariants p + length rs.
Proof.
  revert l p. induction rs as [|r rs IH]; intros l p H; cbn [fmap list_fmap fold_left].
  - simpl. lia.
  - pose proof (record_result_counts l p r H) as Hr.
    destruct (record_result (l, p) (Some r)) as [l1 p1]. destruct Hr as [Hl Hp].
    specialize (IH l1 p1 ltac:(lia)).
    destruct (fold_left record_result (Some <$> rs) (l1, p1)) as [l' p'].
    simpl. lia.
Qed.

(** What the inner [try] block yields: an exception before any task is
    started, or new counters that grew by the number of tasks started. *)
Lemma batch_try_counts b l p :
  processed l = processedVariants p →
  match batch_try b l p with
  | (inl _, n) => n = 0
  | (inr (l', p', _), n) =>
      processed l' = processed l + n ∧ processedVariants p' = processedVariants p + n
  end.
Proof.
  intros H. unfold batch_try.
  destruct (page_answer b) as [e|body]; [done|].
  destruct (page_errors body); [done|].
  destruct (page_data body) as [page|]; [|done].
  destruct (batch_tasks_resolved b (edges page)) as (rs & -> & Hlen).
  destruct (LimiterFacts.parallelLimit_resolved rs CONCURRENCY_LIMIT (order b))
    as [-> ->]; [unfold CONCURRENCY_LIMIT; lia|].
  pose proof (fold_record_results rs l p H) as Hf.
  destruct (fold_left record_result (Some <$> rs) (l, p)) as [l' p']. simpl. lia.
Qed.

(** Recording results touches the counter and the error list only. *)
Lemma fold_record_flags results l p :
  let '(l', p') := fold_left record_result results (l, p) in
  isProcessing p' = isProcessing p ∧ summaryReturned p' = summaryReturned p
  ∧ batchCount l' = batchCount l.
Proof.
  revert l p. induction results as [|r rs IH]; intros l p; [done|].
  cbn [fold_left].
  assert (∃ l1 p1, record_result (l, p) r = (l1, p1)
                   ∧ isProcessing p1 = isProcessing p
                   ∧ summaryReturned p1 = summaryReturned p
                   ∧ batchCount l1 = batchCount l) as (l1 & p1 & -> & H1 & H2 & H3).
  { destruct r as [[]|]; simpl; eauto 10. }
  specialize (IH l1 p1). destruct (fold_left record_result rs (l1, p1)) as [l' p'].
  destruct IH as (? & ? & ?). repeat split; congruence.
Qed.

Lemma batch_try_flags b l p :
  match batch_try b l p with
  | (inr (l', p', _), _) =>
      isProcessing p' = isProcessing p ∧ summaryReturned p' = summaryReturned p
      ∧ batchCount l' = batchCount l
  | _ => True
  end.
Proof.
  unfold batch_try.
  destruct (page_answer b) as [e|body]; [done|].
  destruct (page_errors body); [done|].
  destruct (page_data body) as [page|]; [|done].
  destruct (parallelLimit _ _ _) as [e|results]; [done|].
  pose proof (fold_record_flags results l p) as Hf.
  by destruct (fold_left record_result results (l, p)) as [l' p'].
Qed.

Lemma step_unsettled s e : unsettled s → unsettled (step s e).1.
Proof.
  unfold unsettled. intros Hs. destruct s as [[p r] bg]; simpl in *.
  destruct e as [intent now|input]; simpl.
  - unfold action; simpl. case_bool_decide.
    + destruct (negb (isProcessing p) && _ && _) eqn:Hc; simpl; [|done].
      intros Hbg. destruct (Hs Hbg) as [Hp _]. by rewrite Hp in Hc.
    + destruct r; simpl; done.
  - unfold resume_run; simpl.
    destruct bg as [[|l|l]|]; destruct input as [count|b|]; simpl; try done.
    + intros _. destruct Hs as [? ?]; [done|].
      by destruct (0 <? match count with inr (Some n) => n | _ => 0 end).
    + pose proof (batch_try_flags b l p) as Hb.
      destruct (batch_try b l p) as [[e|[[l' p'] [|]]] n]; simpl; try done.
      intros _. destruct Hs as [? ?]; [done|]. destruct Hb as (? & ? & ?).
      split; congruence.
    + intros _. by apply Hs.
Qed.

Lemma exec_unsettled evs s : unsettled s → unsettled (exec s evs).1.
Proof.
  revert s. induction evs as [|e evs IH]; intros s Hs; [done|].
  simpl. pose proof (step_unsettled s e Hs) as H1.
  destruct (step s e) as [s1 o]. specialize (IH s1 H1).
  by destruct (exec s1 evs).
Qed.

(** When a step ends a run, the progress object is complete and its
    summary is there to be returned by the next status query. *)
Lemma completed_run_is_unread evs input :
  let s := (exec initial evs).1 in
  let s' := (step s (Background input)).1 in
  let p' := variantUpdateProgress (server s') in
  background s ≠ None →
  background s' = None →
  isProcessing p' = false ∧ is_Some (completedAt p')
  ∧ summaryReturned p' = false ∧ is_Some (summary p').
Proof.
  intros s s' p' Hbg Hend.
  assert (Hs : unsettled s) by (apply exec_unsettled; by intros []).
  destruct (Hs Hbg) as [_ Hflag]. subst p' s'. clear Hs.
  destruct s as [[p r] bg]; simpl in *. unfold resume_run in *; simpl in *.
  destruct bg as [[|l|l]|]; destruct input as [count|b|]; simpl in *; try done.
  pose proof (batch_try_flags b l p) as Hb.
  destruct (batch_try b l p) as [[e|[[l' p1] [|]]] n]; simpl in *; try done.
  destruct Hb as (_ & Hb & _). repeat split; eauto; congruence.
Qed.

(** One step keeps the counters coherent and moves the shared counter as
    the observation says. *)
Lemma step_counts s e :
  coherent s →
  let '(s', o) := step s e in
  coherent s'
  ∧ processedVariants (variantUpdateProgress (server s'))
    = count_started (processedVariants (variantUpdateProgress (server s))) o.
Proof.
  intros Hc. destruct s as [[p r] bg]. destruct e as [intent now|input]; simpl.
  - unfold action; simpl. case_bool_decide.
    + destruct (negb (isProcessing p) && _ && _); simpl; [|done].
      split; [|done]. unfold coherent in *; simpl in *. by destruct bg as [[| |]|].
    + destruct r; simpl; [done|]. done.
  - unfold resume_run; simpl. unfold coherent in Hc; simpl in Hc.
    destruct bg as [[|l|l]|]; destruct input as [count|b|]; simpl; try done.
    + set (n := match count with inr (Some n) => n | _ => 0 end).
      unfold coherent; simpl. destruct (0 <? n); simpl; lia.
    + pose proof (batch_try_counts b l p Hc) as Hb.
      destruct (batch_try b l p) as [[e|[[l' p'] [|]]] n]; simpl.
      * subst n. split; [done|]. simpl. lia.
      * split; [|lia]. unfold coherent; simpl. lia.
      * split; [done|]. simpl. lia.
Qed.

Lemma exec_counts evs : ∀ s acc,
  coherent s →
  processedVariants (variantUpdateProgress (server s)) = acc →
  let '(s', log) := exec s evs in
  coherent s'
  ∧ processedVariants (variantUpdateProgress (server s')) = fold_left count_started log acc.
Proof.
  induction evs as [|e evs IH]; intros s acc Hc Hacc; simpl; [done|].
  pose proof (step_counts s e Hc) as Hs.
  destruct (step s e) as [s1 o]. destruct Hs as [Hc1 Hp1].
  specialize (IH s1 _ Hc1 eq_refl).
  destruct (exec s1 evs) as [s' log]. simpl. by rewrite <- Hacc, <- Hp1.
Qed.

(** C1 (amended).  When an exception leaves the inner [try] block of a
    batch, the run ends with that batch: nothing is left to resume, exactly
    one [batchError] record, carrying the batch number and the exception's
    message, is pushed on [errors], [isProcessing] and [isRunning] are reset
    and [completedAt] is set.  The summary is the one built after the loop:
    its [success] is [true] and its message counts the variants and the
    batches. *)
Theorem batch_error_ends_run s l b e n :
  background s = Some (AwaitPage l) →
  batch_try b l (variantUpdateProgress (server s)) = (inl e, n) →
  let p := variantUpdateProgress (server s) in
  let s' := (step s (Background (BatchAnswer b))).1 in
  let p' := variantUpdateProgress (server s') in
  background s' = None
  ∧ isRunning (server s') = false
  ∧ errors p' = errors p ++ [batchError (batchCount l) (message e)]
  ∧ processedVariants p' = processedVariants p
  ∧ isProcessing p' = false
  ∧ completedAt p' = Some (end_time b)
  ∧ summary p'
    = Some (Finished (processed l) (total l) (batchCount l)
              ("Processed " +:+ string_of_nat (processed l) +:+ " variants across "
                 +:+ string_of_nat (batchCount l) +:+ " batches"))
  ∧ (success <$> summary p') = Some true
  ∧ (summary_message <$> summary p')
    = Some ("Processed " +:+ string_of_nat (processed l) +:+ " variants across "
              +:+ string_of_nat (batchCount l) +:+ " batches")
  ∧ ∀ input, step s' (Background input) = (s', Ignored).
Proof.
  intros Hbg Htry p s' p'. subst s' p'. simpl.
  rewrite (resume_run_batch_error s l b e n Hbg Htry). simpl.
  repeat split.
Qed.

(** C7 (amended).  [processedVariants] counts the tasks the limiter has
    started, whatever their results, batch by batch.  Between two steps of
    any sequence of requests and resumptions it is the number of tasks
    started since the run began; a step adds to it the number of tasks
    started in that step, resets it when the step starts a run and leaves
    it alone otherwise, so that it never decreases within a run.  While the
    tasks of a batch are in flight it stays behind, because the tasks are
    counted by [results.forEach], after the last of them has settled: a
    status query that arrives when [t] tasks of the batch have settled
    changes nothing and reads the count of the earlier batches, while the
    limiter has started [min n (CONCURRENCY_LIMIT + t)] of the [n] tasks
    of the page; the step that ends the batch adds [n]. *)
Theorem processed_counts_started_tasks evs e :
  let s := (exec initial evs).1 in
  let log := (exec initial evs).2 in
  let n := processedVariants (variantUpdateProgress (server s)) in
  let n' := processedVariants (variantUpdateProgress (server (step s e).1)) in
  n = started_in_run log
  ∧ n' = count_started n (step s e).2
  ∧ (n ≤ n' ∨ ∃ r, (step s e).2 = Responded r true)
  ∧ ∀ l b page t now,
      background s = Some (AwaitPage l) →
      Invariants.answers b page →
      let ended := step s (Background (BatchAnswer b)) in
      step s (Request (Some "getProgress") now)
      = (s, Responded (ProgressJson (variantUpdateProgress (server s)) false None) false)
      ∧ i (Invariants.limiter_at b page t)
        = Nat.min (length (edges page)) (CONCURRENCY_LIMIT + t)
      ∧ Invariants.started_at log b page t
        = n + Nat.min (length (edges page)) (CONCURRENCY_LIMIT + t)
      ∧ (edges page ≠ [] → n < Invariants.started_at log b page t)
      ∧ ended.2 = Ran (length (edges page))
      ∧ processedVariants (variantUpdateProgress (server ended.1))
        = n + length (edges page)
      ∧ processedVariants (variantUpdateProgress (server ended.1))
        = Invariants.started_at log b page (length (edges page)).
Proof.
  intros s log n n'.
  assert (Hu : unsettled s) by (apply exec_unsettled; by intros []).
  subst s log n n'.
  pose proof (exec_counts evs initial 0 I eq_refl) as H.
  destruct (exec initial evs) as [s log]. destruct H as [Hc Hn]. cbn [fst snd] in *.
  pose proof (step_counts s e Hc) as Hs.
  destruct (step s e) as [s' o]. destruct Hs as [_ Hs]. cbn [fst snd].
  split; [done|]. split; [done|]. split.
  { rewrite Hs. destruct o as [r [|]|k|]; simpl; eauto with lia. }
  clear s' o Hs. intros l b page t now Hbg Hans.
  set (ended := step s (Background (BatchAnswer b))).
  destruct (Hu ltac:(by rewrite Hbg)) as [Hproc _].
  destruct (batch_tasks_resolved b (edges page)) as (rs & Hrs & Hlen).
  assert (Hk : 1 ≤ CONCURRENCY_LIMIT) by (unfold CONCURRENCY_LIMIT; lia).
  assert (Hi : ∀ u, i (Invariants.limiter_at b page u)
                    = Nat.min (length (edges page)) (CONCURRENCY_LIMIT + u)).
  { intros u. unfold Invariants.limiter_at. rewrite Hrs, <- Hlen.
    by destruct (LimiterFacts.inv_after rs CONCURRENCY_LIMIT (order b) u Hk). }
  assert (Hend : ended.2 = Ran (length (edges page))
                 ∧ processedVariants (variantUpdateProgress (server ended.1))
                   = processedVariants (variantUpdateProgress (server s))
                     + length (edges page)).
  { subst ended. simpl. unfold resume_run. rewrite Hbg.
    unfold coherent in Hc. rewrite Hbg in Hc.
    unfold batch_try. rewrite Hans. cbn [page_errors page_data]. rewrite Hrs.
    destruct (LimiterFacts.parallelLimit_resolved rs CONCURRENCY_LIMIT (order b) Hk)
      as [-> ->].
    pose proof (fold_record_results rs l (variantUpdateProgress (server s)) Hc) as Hf.
    destruct (fold_left record_result (Some <$> rs) (l, variantUpdateProgress (server s)))
      as [l' p'].
    destruct Hf as [_ Hf]. rewrite <- Hlen.
    by destruct (page_hasNextPage page). }
  destruct Hend as [Hran Hcount].
  unfold Invariants.started_at, started_in_run. rewrite !Hi, <- Hn.
  split.
  { simpl. unfold action. rewrite bool_decide_eq_true_2 by done. by rewrite Hproc. }
  split; [done|]. split; [done|]. split.
  { intros Hne. destruct (edges page); [done|]. unfold CONCURRENCY_LIMIT. simpl. lia. }
  split; [done|]. split; [done|]. rewrite Hcount. lia.
Qed.

(** A task whose requests succeed writes one record per inventory level:
    the number at the end of the location's id, the location's name, the
    first quantity or 0, and the task's clock reading. *)
Lemma task_writes_snapshot admin now variant item levels es r :
  inventoryItem variant = Some item →
  getLevels admin item = inr levels →
  levels_errors levels = None →
  levels_edges levels = Some es →
  setMetafields admin (id variant) (VObj [("locations", VArr (format_level now <$> es))])
  = inr r →
  set_errors r = None →
  calls (task admin now variant)
  = [InventoryLevels item;
     MetafieldsSet (id variant) (VObj [("locations", VArr (format_level now <$> es))])]
  ∧ outcome (task admin now variant)
    = inr (if 0 <? length (set_userErrors r)
           then TaskUserError (id variant) (set_userErrors r)
           else TaskSuccess (id variant)).
Proof.
  intros Hi Hl Herr Hes Hset Hse. unfold task, task_body.
  rewrite Hi. unfold mbind, M_bind, bind, lift, ask. rewrite Hl, Herr, Hes.
  change (map (format_level now) es) with (format_level now <$> es).
  rewrite Hset, Hse. by destruct (0 <? length (set_userErrors r)).
Qed.

Lemma format_level_fields now edge :
  get (format_level now edge) "id" = inr (parseInt10 (pop (split "/" (location_gid edge))))
  ∧ get (format_level now edge) "name" = inr (VStr (location_name edge))
  ∧ get (format_level now edge) "available"
    = inr (VNum (match quantities edge with q :: _ => q | [] => 0%Z end))
  ∧ get (format_level now edge) "updatedAt" = inr (VStr now).
Proof.
  repeat split. unfold format_level. simpl. f_equal.
  destruct (quantities edge) as [|q ?]; [done|].
  unfold or_else. simpl. by destruct (Z.eqb_spec q 0) as [->|].
Qed.

(** C9, at a variant that has no inventory item.  [bulkInventoryMetafields]
    skips such a variant.  The background run builds a task for every node
    of the page, with or without inventory item: the task of a node without
    one sends no request and resolves with an [apiError] result, and the run
    counts it as processed and records the error. *)
Theorem task_built_without_inventory_item :
  calls (Bulk.bulkInventoryMetafields (λ _ _, inr tt) "t1"
           [{| Bulk.id := "v1"; Bulk.inventoryItem := None |}]) = []
  ∧ length (batch_tasks (batch_of (page_of [node "v1" None] false)) [node "v1" None]) = 1
  ∧ task (shop None two_levels) "t1" (node "v1" None)
    = ([], inr (TaskApiError "v1" "Cannot read properties of null (reading 'id')"))
  ∧ (let p := variantUpdateProgress (server (exec initial unit_less_run).1) in
     processedVariants p = 1
     ∧ errors p = [apiError "v1" "Cannot read properties of null (reading 'id')"]).
Proof. by vm_compute. Qed.

End RunFacts.

(** ** The webhook handler *)

Module WebhookFacts.
Import Js Gql Webhook.

(** On records, [findIndex] is the position of the first one whose [id]
    is strictly equal to the payload's [location_id]. *)
Lemma findIndex_from_objects locs lid i :
  Forall (λ loc, is_object loc = true) locs →
  findIndex_from i locs lid
  = inr ((λ r, i + r.1) <$> list_find (λ loc, matches lid loc = true) locs).
Proof.
  intros Hobj. revert i. induction Hobj as [|loc locs Hloc _ IH]; intros i; [done|].
  cbn [findIndex_from list_find]. destruct loc as [| | | | | |?|o]; try done.
  case_decide as Hd; unfold matches in Hd; cbn [get] in *.
  - rewrite Hd. simpl. by rewrite Nat.add_0_r.
  - apply not_true_is_false in Hd. rewrite Hd, IH.
    destruct (list_find _ locs) as [[j x]|]; simpl; [|done].
    do 2 f_equal. lia.
Qed.

Lemma findIndex_objects locs lid :
  Forall (λ loc, is_object loc = true) locs →
  findIndex locs lid = inr (fst <$> list_find (λ loc, matches lid loc = true) locs).
Proof.
  intros H. unfold findIndex. rewrite findIndex_from_objects by done.
  by destruct (list_find _ locs) as [[j x]|].
Qed.

Lemma calls_bind {A B} (m : M A) (f : A → M B) :
  calls (m ≫= f)
  = match outcome m with
    | inl _ => calls m
    | inr a => calls m ++ calls (f a)
    end.
Proof. destruct m as [l [e|a]]; simpl; [done|]. by destruct (f a). Qed.

Lemma outcome_bind {A B} (m : M A) (f : A → M B) :
  outcome (m ≫= f)
  = match outcome m with
    | inl e => inl e
    | inr a => outcome (f a)
    end.
Proof. destruct m as [l [e|a]]; simpl; [done|]. by destruct (f a). Qed.

Lemma M_eta {A} (m : M A) : m = (calls m, outcome m).
Proof. by destruct m. Qed.

Lemma calls_bind_prefix {A B} (m : M A) (f : A → M B) :
  ∃ rest, calls (m ≫= f) = calls m ++ rest.
Proof. rewrite calls_bind. destruct (outcome m); [exists []; by rewrite app_nil_r|by eexists]. Qed.

(** One step into a [bind]. *)
Ltac run :=
  rewrite ?calls_bind, ?outcome_bind; cbn [calls outcome ask lift throw ret fst snd].

Lemma calls_bootstrap admin now p :
  ∃ rest, calls (bootstrap admin now p) = InventoryLevels (inventoryItemGid p) :: rest.
Proof. unfold bootstrap. cbv zeta. apply calls_bind_prefix. Qed.

(** C2 (amended).  The handler decodes a stored value that is not empty
    with [JSON.parse] and no guard: when the text is malformed the handler
    throws the [SyntaxError] right after the variant query, without
    rebuilding and without writing, and the route answers 500.  Only an
    absent or empty stored value takes the bootstrap path, whose first
    request is the inventory-levels query. *)
Theorem malformed_snapshot_is_thrown admin now p variant :
  getVariant admin (inventoryItemGid p) = inr (Some variant) →
  let stored := match metafield variant with
                | Some m => metafield_value m
                | None => VUndef
                end in
  (truthy stored = true → Json.parse (to_string stored) = inl SyntaxError →
     handleInventoryUpdate admin now p
     = ([GetVariantWithMetafield (inventoryItemGid p)], inl SyntaxError)
     ∧ Webhook.action admin now p = 500)
  ∧ (truthy stored = false →
     ∃ rest, calls (handleInventoryUpdate admin now p)
             = GetVariantWithMetafield (inventoryItemGid p)
               :: InventoryLevels (inventoryItemGid p) :: rest).
Proof.
  intros Hv stored. subst stored. split.
  - intros Ht Hp.
    assert (handleInventoryUpdate admin now p
            = ([GetVariantWithMetafield (inventoryItemGid p)], inl SyntaxError)) as H.
    { rewrite (M_eta (handleInventoryUpdate _ _ _)). unfold handleInventoryUpdate.
      cbv zeta. run. rewrite Hv. cbv beta iota. rewrite Ht. cbn [negb].
      run. by rewrite Hp. }
    split; [done|]. unfold Webhook.action. by rewrite H.
  - intros Ht. unfold handleInventoryUpdate. cbv zeta. run. rewrite Hv.
    cbv beta iota. rewrite Ht. cbn [negb].
    match goal with
    | |- context [calls (bootstrap admin now p ≫= ?f)] =>
        destruct (calls_bind_prefix (bootstrap admin now p) f) as [r1 ->]
    end.
    destruct (calls_bootstrap admin now p) as [r2 ->]. by exists (r2 ++ r1).
Qed.

Lemma get_available now location p :
  get (updatedLocation now location p) "available"
  = inr (or_else (parseInt10 (available p)) (VNum 0)).
Proof. done. Qed.

Lemma get_updatedAt now location p :
  get (updatedLocation now location p) "updatedAt" = inr (VStr now).
Proof. done. Qed.

Lemma locations_of_object obj locs :
  assoc "locations" obj = Some (VArr locs) → locations_of (VObj obj) = inr locs.
Proof. intros H. unfold locations_of. simpl. by rewrite H. Qed.

(** The merge step on a snapshot whose [locations] are records. *)
Lemma merge_records admin now p obj locs location :
  assoc "locations" obj = Some (VArr locs) →
  Forall (λ loc, is_object loc = true) locs →
  getLocation admin (locationGid p) = inr location →
  merge admin now p (VObj obj)
  = ([GetLocationName (locationGid p)],
     inr (VObj (assoc_set "locations"
                  (VArr (match list_find (λ loc, matches (location_id p) loc = true) locs with
                         | Some (i, _) => <[i := updatedLocation now location p]> locs
                         | None => locs ++ [updatedLocation now location p]
                         end)) obj))).
Proof.
  intros Ha Hobj Hl. rewrite (M_eta (merge _ _ _ _)). unfold merge. cbv zeta.
  rewrite (locations_of_object obj locs Ha).
  run. rewrite Hl. cbv beta iota. run. cbv beta iota.
  rewrite (findIndex_objects locs _ Hobj). run.
  by destruct (list_find _ locs) as [[i loc]|].
Qed.

(** C4.  For a stored snapshot that parses to an object whose [locations]
    is an array of [m] records, the handler asks for the location's name
    and writes the snapshot back with one record merged in: when some
    record's [id] is strictly equal to the payload's [location_id], the
    first such record is replaced in place and the size stays [m];
    otherwise the new record is pushed and the size is [m + 1].  The merged
    record's [available] is [parseInt(available, 10) || 0], that is the
    payload's integer, or the integer a string starts with, or 0 when there
    is none; its [updatedAt] is the clock reading. *)
Theorem merge_replaces_or_appends admin now p variant m text obj locs location :
  getVariant admin (inventoryItemGid p) = inr (Some variant) →
  metafield variant = Some m →
  metafield_value m = VStr text →
  text ≠ EmptyString →
  Json.parse text = inr (VObj obj) →
  assoc "locations" obj = Some (VArr locs) →
  Forall (λ loc, is_object loc = true) locs →
  getLocation admin (locationGid p) = inr location →
  let upd := updatedLocation now location p in
  ∃ locs',
    calls (handleInventoryUpdate admin now p)
    = [GetVariantWithMetafield (inventoryItemGid p);
       GetLocationName (locationGid p);
       MetafieldsSet (variant_id variant)
         (VObj (assoc_set "locations" (VArr locs') obj))]
    ∧ ((∃ loc, loc ∈ locs ∧ matches (location_id p) loc = true) →
       length locs' = length locs
       ∧ ∃ i loc, locs !! i = Some loc ∧ matches (location_id p) loc = true
                  ∧ locs' = <[i := upd]> locs ∧ locs' !! i = Some upd)
    ∧ ((∀ loc, loc ∈ locs → matches (location_id p) loc = false) →
       locs' = locs ++ [upd] ∧ length locs' = S (length locs))
    ∧ get upd "available"
      = inr (VNum (match parseInt10 (available p) with VNum z => z | _ => 0%Z end))
    ∧ (∀ z, available p = VNum z → get upd "available" = inr (VNum z))
    ∧ (parseInt10 (available p) = VNaN → get upd "available" = inr (VNum 0))
    ∧ get upd "updatedAt" = inr (VStr now).
Proof.
  intros Hv Hm Hval Htext Hparse Ha Hobj Hl upd.
  assert (Ht : truthy (VStr text) = true).
  { simpl. destruct text; [done|]. done. }
  pose proof (merge_records admin now p obj locs location Ha Hobj Hl) as Hmerge.
  fold upd in Hmerge.
  set (locs' := match list_find (λ loc, matches (location_id p) loc = true) locs with
                | Some (i, _) => <[i := upd]> locs
                | None => locs ++ [upd]
                end) in *.
  exists locs'. split; [|split; [|split; [|split; [|split; [|split]]]]].
  - unfold handleInventoryUpdate. cbv zeta. run. rewrite Hv. cbv beta iota.
    rewrite Hm, Hval, Ht. cbn [negb orb to_string]. run. rewrite Hparse.
    cbv beta iota. cbn [mret M_ret ret outcome calls fst snd app]. run.
    rewrite Hmerge. run. run.
    destruct (setMetafields admin _ _) as [e|r]; [reflexivity|].
    by destruct (write_failed r).
  - intros (loc & Hin & Hmatch). subst locs'.
    destruct (list_find _ locs) as [[i x]|] eqn:Hfind.
    + apply list_find_Some in Hfind as (Hi & Hx & _).
      split; [by rewrite length_insert|]. exists i, x. repeat split; try done.
      apply list_lookup_insert_eq. by eapply lookup_lt_Some.
    + apply list_find_None in Hfind. rewrite Forall_forall in Hfind.
      by destruct (Hfind loc Hin).
  - intros Hnone. subst locs'.
    destruct (list_find _ locs) as [[i x]|] eqn:Hfind.
    + apply list_find_Some in Hfind as (Hi & Hx & _).
      rewrite Hnone in Hx; [done|]. by eapply list_elem_of_lookup_2.
    + split; [done|]. rewrite length_app. simpl. lia.
  - unfold upd. rewrite get_available. by rewrite JsFacts.parseInt10_or_zero.
  - intros z Hz. unfold upd. rewrite get_available, Hz, JsFacts.parseInt10_number.
    unfold or_else. simpl. by destruct (Z.eqb_spec z 0) as [->|].
  - intros Hnan. unfold upd. by rewrite get_available, Hnan.
  - apply get_updatedAt.
Qed.

Lemma format_levels_throw now es :
  (∃ e, e ∈ es ∧ quantities e = []) →
  ∃ err, map_res (Webhook.format_level now) es = inl err.
Proof.
  intros (e & Hin & Hq). induction es as [|x es IH]; [by apply elem_of_nil in Hin|].
  simpl. destruct (Webhook.format_level now x) as [err|y] eqn:Hx; [by eexists|].
  apply elem_of_cons in Hin as [->|Hin].
  - unfold Webhook.format_level in Hx. by rewrite Hq in Hx.
  - destruct (IH Hin) as [err ->]. by eexists.
Qed.

Lemma format_levels_length now es recs :
  map_res (Webhook.format_level now) es = inr recs → length recs = length es.
Proof.
  revert recs. induction es as [|x es IH]; intros recs; simpl.
  - by intros [= <-].
  - destruct (Webhook.format_level now x); [done|].
    destruct (map_res _ es) as [|ys]; [done|]. intros [= <-]. simpl. by rewrite (IH ys).
Qed.

(** The bootstrap branch with fewer than two levels, or with a level that
    has no quantity. *)
Lemma bootstrap_throws admin now p levels es :
  getLevels admin (inventoryItemGid p) = inr levels →
  levels_edges levels = Some es →
  (length es < 2 ∨ ∃ e, e ∈ es ∧ quantities e = []) →
  ∃ err, bootstrap admin now p = ([InventoryLevels (inventoryItemGid p)], inl err)
         ∧ (length es < 2 →
            err = TypeError "Cannot read properties of undefined (reading 'node')").
Proof.
  intros Hl He Hbad. rewrite (M_eta (bootstrap _ _ _)). unfold bootstrap. cbv zeta.
  run. rewrite Hl. cbv beta iota. rewrite He. run.
  destruct es as [|e0 [|e1 es]].
  - eexists. split; [reflexivity|done].
  - eexists. split; [reflexivity|done].
  - cbn [edge_node lookup list_lookup]. run. run.
    destruct Hbad as [Hlen|Hq]; [simpl in Hlen; lia|].
    destruct (levels_errors levels).
    + eexists. split; [reflexivity|]. simpl. lia.
    + run. destruct (format_levels_throw now _ Hq) as [err ->].
      eexists. split; [reflexivity|]. simpl. lia.
Qed.

(** A [location_id] that arrives as a string is strictly equal to no numeric
    [id]: the record is pushed next to the one it was meant to replace. *)
Example string_location_id_is_pushed :
  calls (handleInventoryUpdate (Examples.shop (Some Examples.snapshot_text) [])
           "now" {| inventory_item_id := VNum 111; location_id := VStr "7";
                    available := VNum 12 |})
  = [GetVariantWithMetafield "gid://shopify/InventoryItem/111";
     GetLocationName "gid://shopify/Location/7";
     MetafieldsSet "gid://shopify/ProductVariant/1"
       (VObj [("locations",
               VArr [Examples.snapshot_record;
                     VObj [("id", VNum 7); ("name", VStr "A");
                           ("available", VNum 12); ("updatedAt", VStr "now")]])])].
Proof. by vm_compute. Qed.

(** C10.  On the bootstrap path the handler reads [edges[0].node] and
    [edges[1].node] before anything else and reads [quantities[0].quantity]
    for every level: with fewer than two inventory levels, or with a level
    whose [quantities] is empty, the handler throws after the
    inventory-levels query and writes no snapshot. *)
Theorem bootstrap_indexes_unconditionally admin now p variant levels es :
  getVariant admin (inventoryItemGid p) = inr (Some variant) →
  truthy (match metafield variant with
          | Some m => metafield_value m
          | None => VUndef
          end) = false →
  getLevels admin (inventoryItemGid p) = inr levels →
  levels_edges levels = Some es →
  (length es < 2 ∨ ∃ e, e ∈ es ∧ quantities e = []) →
  ∃ err,
    handleInventoryUpdate admin now p
    = ([GetVariantWithMetafield (inventoryItemGid p);
        InventoryLevels (inventoryItemGid p)], inl err)
    ∧ (length es < 2 →
       err = TypeError "Cannot read properties of undefined (reading 'node')").
Proof.
  intros Hv Ht Hl He Hbad.
  destruct (bootstrap_throws admin now p levels es Hl He Hbad) as (err & Hb & Herr).
  exists err. split; [|done].
  rewrite (M_eta (handleInventoryUpdate _ _ _)). unfold handleInventoryUpdate. cbv zeta.
  run. rewrite Hv. cbv beta iota. rewrite Ht. cbn [negb]. run. by rewrite Hb.
Qed.

(** With at least two levels that all carry a quantity, and no [errors]
    member, the rebuilt snapshot is written as it is: no location is looked
    up and no record is merged. *)
Lemma bootstrap_baseline admin now p variant levels es :
  getVariant admin (inventoryItemGid p) = inr (Some variant) →
  truthy (match metafield variant with
          | Some m => metafield_value m
          | None => VUndef
          end) = false →
  getLevels admin (inventoryItemGid p) = inr levels →
  levels_edges levels = Some es →
  levels_errors levels = None →
  2 ≤ length es →
  Forall (λ e, quantities e ≠ []) es →
  ∃ recs,
    map_res (Webhook.format_level now) es = inr recs
    ∧ calls (handleInventoryUpdate admin now p)
      = [GetVariantWithMetafield (inventoryItemGid p);
         InventoryLevels (inventoryItemGid p);
         MetafieldsSet (variant_id variant) (VObj [("locations", VArr recs)])].
Proof.
  intros Hv Ht Hl He Herr Hlen Hq.
  assert (∃ recs, map_res (Webhook.format_level now) es = inr recs) as [recs Hrecs].
  { clear -Hq. induction Hq as [|e es Hne _ [recs IH]]; [by eexists|].
    simpl. unfold Webhook.format_level at 1. destruct (quantities e); [done|].
    rewrite IH. by eexists. }
  exists recs. split; [done|].
  assert (Hb : bootstrap admin now p
               = ([InventoryLevels (inventoryItemGid p)],
                  inr (VObj [("locations", VArr recs)], recs))).
  { rewrite (M_eta (bootstrap _ _ _)). unfold bootstrap. cbv zeta.
    run. rewrite Hl. cbv beta iota. rewrite He, Herr. run.
    destruct es as [|e0 [|e1 es]]; [simpl in Hlen; lia..|].
    cbn [edge_node lookup list_lookup]. run. run. run. by rewrite Hrecs. }
  unfold handleInventoryUpdate. cbv zeta. run. rewrite Hv. cbv beta iota.
  rewrite Ht. cbn [negb orb]. run. rewrite Hb. run. cbv beta iota.
  assert ((length recs =? 0) = false) as ->.
  { apply Nat.eqb_neq. rewrite (format_levels_length now es recs Hrecs). lia. }
  run. run. destruct (setMetafields admin _ _) as [e|r]; [reflexivity|].
  by destruct (write_failed r).
Qed.

End WebhookFacts.

(** ** The statements at sample inputs *)

Module Samples.
Import Js Gql Limiter Sync Webhook Examples.

(** The limiter on three tasks with limit 2. *)
Lemma parallelLimit_sample :
  1 ≤ 2
  ∧ parallelLimit (Resolved <$> [10; 11; 12]) 2 (λ t, t) = inr [Some 10; Some 11; Some 12].
Proof.
  split; [lia|].
  exact (proj1 (LimiterFacts.parallelLimit_ordered_and_bounded [10; 11; 12] 2 (λ t, t)
                  ltac:(lia))).
Defined.

(** A second start while the first run is suspended at its count query. *)
Lemma start_while_running_sample :
  isRunning (server running) = true
  ∧ step running (Request None "t5")
    = (running,
       Responded (MessageJson false
                    "Process already running. Please wait for it to complete." None)
         false).
Proof.
  split; [reflexivity|].
  apply ActionFacts.start_while_running_is_rejected; [reflexivity|discriminate].
Defined.

(** Three status queries after the failing run. *)
Lemma summary_spread_sample :
  let p := variantUpdateProgress (server completed) in
  isProcessing p = false ∧ is_Some (completedAt p) ∧ summaryReturned p = false
  ∧ (exec completed (status_queries ["t10"; "t11"; "t12"])).2
    = [Responded (ProgressJson (set_summaryReturned p) true (summary p)) false;
       Responded (ProgressJson (set_summaryReturned p) false None) false;
       Responded (ProgressJson (set_summaryReturned p) false None) false].
Proof.
  intros p. split; [reflexivity|]. split; [by eexists|]. split; [reflexivity|].
  rewrite (proj2 (ActionFacts.summary_is_spread_once completed ["t10"; "t11"; "t12"])
             eq_refl (ex_intro _ _ eq_refl) eq_refl "t10" ["t11"; "t12"] eq_refl).
  reflexivity.
Defined.

(** The failing page query of batch 2. *)
Lemma batch_error_sample :
  background before_failure = Some (AwaitPage locals_before_failure)
  ∧ batch_try (batch_of (inl (Error "fetch failed"))) locals_before_failure
      (variantUpdateProgress (server before_failure))
    = (inl (Error "fetch failed"), 0)
  ∧ (let s' := (step before_failure
                  (Background (BatchAnswer (batch_of (inl (Error "fetch failed")))))).1 in
     let p' := variantUpdateProgress (server s') in
     background s' = None
     ∧ errors p' = [batchError 2 "fetch failed"]
     ∧ (success <$> summary p') = Some true).
Proof.
  split; [reflexivity|]. split; [reflexivity|].
  pose proof (RunFacts.batch_error_ends_run before_failure locals_before_failure
                (batch_of (inl (Error "fetch failed"))) (Error "fetch failed") 0
                eq_refl eq_refl) as H.
  cbv zeta in H. destruct H as (H1 & _ & H3 & _ & _ & _ & _ & H8 & _ & _).
  split; [exact H1|]. split; [exact H3|exact H8].
Defined.

(** C1, as stated, at the failing run: a batch-level exception occurred in
    batch 2 and is recorded, yet the summary does not say [success: false]. *)
Lemma batch_error_summary_is_success :
  let p := variantUpdateProgress (server (exec initial failing_run).1) in
  errors p = [batchError 2 "fetch failed"]
  ∧ isProcessing p = false
  ∧ (success <$> summary p) = Some true
  ∧ ¬ ((success <$> summary p) = Some false).
Proof. vm_compute. repeat split. discriminate. Qed.

(** C7, as stated, at the undercounted run: the total is known and positive,
    and the processed count exceeds it. *)
Lemma processed_exceeds_total :
  let p := variantUpdateProgress (server (exec initial undercounted_run).1) in
  0 < totalVariants p ∧ ¬ (processedVariants p ≤ totalVariants p).
Proof. vm_compute. split; [lia|]. intros H. lia. Qed.

(** A page of seven variants in flight: nothing of it is counted, a status
    query reads 0 and changes nothing, the limiter has started five tasks
    at first and six once a task has settled, and the step that ends the
    batch counts seven. *)
Lemma count_in_flight_sample :
  let evs := [Request None "t0"; Background (CountAnswer (inr (Some 7)))] in
  let s := (exec initial evs).1 in
  let log := (exec initial evs).2 in
  let b := MoreExamples.answered MoreExamples.wide_page in
  let l := {| cursor := None; processed := 0; local_errors := [];
              batchCount := 1; total := 7 |} in
  background s = Some (AwaitPage l)
  ∧ Invariants.answers b MoreExamples.wide_page
  ∧ processedVariants (variantUpdateProgress (server s)) = 0
  ∧ step s (Request (Some "getProgress") "t1")
    = (s, Responded (ProgressJson (variantUpdateProgress (server s)) false None) false)
  ∧ Invariants.started_at log b MoreExamples.wide_page 0 = 5
  ∧ Invariants.started_at log b MoreExamples.wide_page 1 = 6
  ∧ processedVariants
      (variantUpdateProgress (server (step s (Background (BatchAnswer b))).1)) = 7.
Proof.
  intros evs s log b l.
  pose proof (RunFacts.processed_counts_started_tasks evs (Background TimerFired)) as H.
  cbv zeta in H. destruct H as (Hn & _ & _ & Hin).
  destruct (Hin l b MoreExamples.wide_page 0 "t1" eq_refl eq_refl)
    as (Hpoll & _ & H0 & _ & _ & Hend & _).
  destruct (Hin l b MoreExamples.wide_page 1 "t1" eq_refl eq_refl)
    as (_ & _ & H1 & _).
  split; [reflexivity|]. split; [reflexivity|].
  split; [exact Hn|]. split; [exact Hpoll|].
  split; [exact H0|]. split; [exact H1|exact Hend].
Defined.

(** The stored text of the sample snapshot and its merge with the sample
    payload. *)
Lemma merge_sample :
  Json.parse snapshot_text = inr (VObj [("locations", VArr [snapshot_record])])
  ∧ ∃ locs',
      calls (handleInventoryUpdate (shop (Some snapshot_text) two_levels) "now" payload)
      = [GetVariantWithMetafield (inventoryItemGid payload);
         GetLocationName (locationGid payload);
         MetafieldsSet "gid://shopify/ProductVariant/1"
           (VObj (assoc_set "locations" (VArr locs')
                    [("locations", VArr [snapshot_record])]))]
      ∧ length locs' = 1
      ∧ get (updatedLocation "now" (Some "A") payload) "available" = inr (VNum 12).
Proof.
  split; [by vm_compute|].
  destruct (WebhookFacts.merge_replaces_or_appends
              (shop (Some snapshot_text) two_levels) "now" payload
              (variant_with (Some snapshot_text))
              {| metafield_id := "gid://shopify/Metafield/9";
                 metafield_value := VStr snapshot_text |}
              snapshot_text [("locations", VArr [snapshot_record])] [snapshot_record]
              (Some "A") eq_refl eq_refl eq_refl
              ltac:(by vm_compute) ltac:(by vm_compute) eq_refl
              ltac:(by repeat constructor) eq_refl)
    as (locs' & Hcalls & Hfound & _ & Havail & _).
  exists locs'. split; [exact Hcalls|]. split.
  - apply Hfound. exists snapshot_record. split; [by left|reflexivity].
  - rewrite Havail. by vm_compute.
Defined.

(** C2, as stated, at a stored value that is not JSON: the handler throws
    and the route answers 500, while with no stored value the same shop gets
    its snapshot rebuilt and written. *)
Lemma malformed_differs_from_absent :
  handleInventoryUpdate (shop (Some "{") full_levels) "now" payload
  = ([GetVariantWithMetafield "gid://shopify/InventoryItem/111"], inl SyntaxError)
  ∧ Webhook.action (shop (Some "{") full_levels) "now" payload = 500
  ∧ outcome (handleInventoryUpdate (shop None full_levels) "now" payload) = inr tt
  ∧ Webhook.action (shop None full_levels) "now" payload = 200
  ∧ handleInventoryUpdate (shop (Some "{") full_levels) "now" payload
    ≠ handleInventoryUpdate (shop None full_levels) "now" payload.
Proof. vm_compute. repeat split. discriminate. Qed.

(** A stored value that is not JSON, through the general statement. *)
Lemma malformed_sample :
  Json.parse "{" = inl SyntaxError
  ∧ handleInventoryUpdate (shop (Some "{") full_levels) "now" payload
    = ([GetVariantWithMetafield (inventoryItemGid payload)], inl SyntaxError).
Proof.
  split; [reflexivity|].
  exact (proj1 (proj1 (WebhookFacts.malformed_snapshot_is_thrown
                         (shop (Some "{") full_levels) "now" payload
                         (variant_with (Some "{")) eq_refl)
                  eq_refl eq_refl)).
Defined.

(** An item stocked at a single location, with no stored snapshot. *)
Lemma single_level_sample :
  length [level "gid://shopify/Location/7" "A" [3%Z]] < 2
  ∧ ∃ err,
      handleInventoryUpdate (shop None [level "gid://shopify/Location/7" "A" [3%Z]])
        "now" payload
      = ([GetVariantWithMetafield (inventoryItemGid payload);
          InventoryLevels (inventoryItemGid payload)], inl err).
Proof.
  assert (Hlen : length [level "gid://shopify/Location/7" "A" [3%Z]] < 2) by (simpl; lia).
  split; [exact Hlen|].
  destruct (WebhookFacts.bootstrap_indexes_unconditionally
              (shop None [level "gid://shopify/Location/7" "A" [3%Z]]) "now" payload
              (variant_with None)
              {| levels_errors := None;
                 levels_edges := Some [level "gid://shopify/Location/7" "A" [3%Z]] |}
              [level "gid://shopify/Location/7" "A" [3%Z]]
              eq_refl eq_refl eq_refl eq_refl (or_introl Hlen))
    as (err & H & _).
  by exists err.
Defined.

(** C5, at an item without any inventory level and at an item with one: the
    handler throws at [edges[0].node], respectively [edges[1].node]; no
    location is looked up, no record is merged and nothing is written. *)
Lemma bootstrap_without_two_levels_throws :
  handleInventoryUpdate (shop None []) "now" payload
  = ([GetVariantWithMetafield "gid://shopify/InventoryItem/111";
      InventoryLevels "gid://shopify/InventoryItem/111"],
     inl (TypeError "Cannot read properties of undefined (reading 'node')"))
  ∧ handleInventoryUpdate (shop None [level "gid://shopify/Location/7" "A" [3%Z]])
      "now" payload
    = ([GetVariantWithMetafield "gid://shopify/InventoryItem/111";
        InventoryLevels "gid://shopify/InventoryItem/111"],
       inl (TypeError "Cannot read properties of undefined (reading 'node')")).
Proof. by vm_compute. Qed.

End Samples.

(** * Further properties *)

(** ** The limiter on tasks that may reject *)

Module LimiterMore.
Import Js Limiter Invariants.

Section AnyTasks.
Context {T : Type}.
Implicit Types (tasks : list (settled T)).

Lemma sound_init tasks k : sound tasks k 0 (init (length tasks) k).
Proof.
  rewrite LimiterFacts.init_eq. split; simpl.
  - intros x Hx. apply elem_of_seq in Hx. lia.
  - lia.
  - right. rewrite length_seq. lia.
  - done.
  - intros Hk _. rewrite length_seq. repeat split; try lia.
    intros j Hj Hn. exfalso. apply Hn. apply elem_of_seq. lia.
Qed.

Lemma sound_step tasks k order t :
  sound tasks k t (after tasks k order t) →
  sound tasks k (S t) (after tasks k order (S t)).
Proof.
  rewrite LimiterFacts.after_S. cbv zeta. set (st := after _ _ _ t).
  intros [Hb Hi Hm Hth Hc].
  destruct (decide (in_flight st = [])) as [Hfl|Hfl].
  - split; try done.
    + by left.
    + intros Hk Hnone. destruct (Hc Hk Hnone) as (Hi' & Hlen & Hres).
      rewrite Hfl in Hlen |- *. simpl in Hlen |- *. repeat split; try lia.
      intros j Hj _. apply Hres; [done|]. rewrite Hfl. apply not_elem_of_nil.
  - destruct Hm as [Hm|Hm]; [done|].
    set (w := order t mod length (in_flight st)).
    assert (Hw : w < length (in_flight st)).
    { apply Nat.mod_upper_bound. by destruct (in_flight st). }
    unfold resume. destruct (lookup_lt_is_Some_2 _ _ Hw) as [idx Hidx]. rewrite Hidx.
    assert (Hidx_i : idx < i st) by (apply Hb, list_elem_of_lookup; eauto).
    assert (Hidx_n : idx < length tasks) by lia.
    destruct (lookup_lt_is_Some_2 _ _ Hidx_n) as [task Htask]. rewrite Htask.
    destruct task as [v|e].
    + destruct (Nat.leb_spec (length tasks) (i st)) as [Hfull|Hmore].
      * split; simpl.
        -- intros x Hx. apply Hb. by eapply list_elem_of_delete_inv.
        -- done.
        -- right. rewrite length_delete by eauto. lia.
        -- done.
        -- intros Hk Hnone. destruct (Hc Hk Hnone) as (Hi' & Hlen & Hres).
           rewrite length_delete by eauto. repeat split; try lia.
           intros j Hj Hnot.
           destruct (LimiterFacts.not_elem_of_delete _ _ _ _ Hidx Hnot) as [->|Hnin];
             [by eexists|by apply Hres].
      * split; simpl.
        -- intros x Hx. apply LimiterFacts.elem_of_insert_inv in Hx as [->|Hx]; [lia|].
           specialize (Hb x Hx). lia.
        -- lia.
        -- right. rewrite length_insert. lia.
        -- done.
        -- intros Hk Hnone. destruct (Hc Hk Hnone) as (Hi' & Hlen & Hres).
           rewrite length_insert. repeat split; try lia.
           intros j Hj Hnot.
           assert (j ≠ i st).
           { intros ->. apply Hnot. apply list_elem_of_lookup. exists w.
             by rewrite list_lookup_insert_eq. }
           destruct (LimiterFacts.not_elem_of_insert _ _ _ _ _ Hidx Hnot) as [->|Hnin];
             [by eexists|apply Hres; [lia|done]].
    + unfold fail. split; simpl.
      * intros x Hx. apply Hb. by eapply list_elem_of_delete_inv.
      * done.
      * right. rewrite length_delete by eauto. lia.
      * intros e'. destruct (thrown st) as [e0|] eqn:Hthrown.
        -- intros [= <-]. by apply Hth.
        -- intros [= <-]. by exists idx.
      * by destruct (thrown st).
Qed.

Lemma sound_after tasks k order t : sound tasks k t (after tasks k order t).
Proof.
  induction t as [|t IH]; [apply sound_init|by apply sound_step].
Qed.

(** Every worker has ended once as many resumptions have happened as there
    are tasks. *)
Lemma finish_idle tasks k order : in_flight (finish tasks k order) = [].
Proof.
  unfold finish. destruct (sound_after tasks k order (length tasks)) as [_ _ Hm _ _].
  destruct Hm as [Hm|Hm]; [done|]. apply length_zero_iff_nil. lia.
Qed.

(** X1.  When some task rejects, [parallelLimit] rejects, whatever the
    limit [k ≥ 1] and the order in which the tasks settle, and the exception
    is the one some task rejected with: a single failing task costs the
    caller the whole array of results. *)
Theorem parallelLimit_rejects_with_a_task tasks k order :
  1 ≤ k →
  (∃ j e, tasks !! j = Some (Rejected e)) →
  ∃ e, parallelLimit tasks k order = inl e ∧ ∃ j, tasks !! j = Some (Rejected e).
Proof.
  intros Hk (j & e & Hj). unfold parallelLimit. cbv zeta.
  pose proof (finish_idle tasks k order) as Hidle.
  destruct (sound_after tasks k order (length tasks)) as [_ _ _ Hth Hc].
  fold (finish tasks k order) in Hth, Hc.
  destruct (thrown (finish tasks k order)) as [e'|] eqn:Hthrown.
  - exists e'. split; [done|]. by apply Hth.
  - exfalso. destruct (Hc Hk eq_refl) as (Hi & _ & Hres).
    assert (Hjn : j < length tasks) by (by eapply lookup_lt_Some).
    destruct (Hres j) as [v Hv]; [lia| |congruence].
    rewrite Hidle. apply not_elem_of_nil.
Qed.

(** X2.  With a limit of 0, or with no task, no worker is created: the call
    starts no task and returns the empty array, also when tasks were
    given. *)
Theorem parallelLimit_without_worker tasks k order :
  k = 0 ∨ tasks = [] →
  parallelLimit tasks k order = inr [] ∧ started tasks k order = 0.
Proof.
  intros Hk.
  assert (Hinit : init (length tasks) k
                  = {| i := 0; results := @nil (option T); in_flight := []; thrown := None |}).
  { rewrite LimiterFacts.init_eq. destruct Hk as [->| ->]; simpl; [done|].
    by rewrite Nat.min_0_r. }
  assert (Hafter : ∀ t, after tasks k order t = init (length tasks) k).
  { induction t as [|t IH]; [done|]. rewrite LimiterFacts.after_S. cbv zeta.
    rewrite IH, Hinit. done. }
  unfold parallelLimit, started, finish. by rewrite Hafter, Hinit.
Qed.

Lemma bounded_after tasks k order t :
  length (in_flight (after tasks k order t)) ≤ Nat.min k (length tasks)
  ∧ NoDup (in_flight (after tasks k order t)).
Proof.
  induction t as [|t [IHlen IHnd]].
  - simpl. rewrite LimiterFacts.init_eq. simpl. rewrite length_seq. split; [lia|apply NoDup_seq].
  - rewrite LimiterFacts.after_S. cbv zeta.
    pose proof (sound_bound _ _ _ _ (sound_after tasks k order t)) as Hb.
    set (st := after tasks k order t) in *.
    destruct (decide (in_flight st = [])) as [Hfl|Hfl]; [done|].
    set (w := order t mod length (in_flight st)).
    assert (Hw : w < length (in_flight st)).
    { apply Nat.mod_upper_bound. by destruct (in_flight st). }
    unfold resume. destruct (lookup_lt_is_Some_2 _ _ Hw) as [idx Hidx]. rewrite Hidx.
    assert (Hdel : length (delete w (in_flight st)) ≤ Nat.min k (length tasks)
                   ∧ NoDup (delete w (in_flight st))).
    { split; [|by apply LimiterFacts.NoDup_delete_at].
      rewrite length_delete by eauto. lia. }
    destruct (tasks !! idx) as [[v|e]|]; [|done..].
    destruct (length tasks <=? i st); [done|]. simpl.
    split; [by rewrite length_insert|].
    apply LimiterFacts.NoDup_insert_fresh; [done|]. intros Hin. specialize (Hb _ Hin). lia.
Qed.

(** X26.  The limit holds whatever the tasks do: after any number of
    settlements, in any order and also after rejections, at most
    [min(limit, tasks.length)] tasks are in flight, no index is in flight
    twice, and only tasks below the shared counter have been started. *)
Theorem limit_holds_for_any_tasks tasks k order t :
  let st := after tasks k order t in
  length (in_flight st) ≤ Nat.min k (length tasks)
  ∧ NoDup (in_flight st)
  ∧ (∀ j, j ∈ in_flight st → j < i st)
  ∧ i st ≤ length tasks.
Proof.
  cbv zeta. destruct (bounded_after tasks k order t) as [Hlen Hnd].
  destruct (sound_after tasks k order t) as [Hb Hi _ _ _]. done.
Qed.

End AnyTasks.
End LimiterMore.

(** ** The run as a whole *)

Module RunMore.
Import Js Gql Limiter Sync Invariants.

Lemma record_result_frame l p r :
  processed l = processedVariants p →
  record_result (l, p) (Some r) = (record_all [r] l, recorded [r] p).
Proof.
  intros Hc. destruct l, p; simpl in *. subst.
  destruct r; unfold record_all, recorded; simpl;
    rewrite ?app_nil_r, ?Nat.add_1_r; reflexivity.
Qed.

Lemma record_all_cons r rs l : record_all rs (record_all [r] l) = record_all (r :: rs) l.
Proof.
  unfold record_all. simpl. f_equal; [lia|].
  rewrite <- app_assoc. f_equal. by destruct (failure_of r).
Qed.

Lemma recorded_cons r rs p : recorded rs (recorded [r] p) = recorded (r :: rs) p.
Proof.
  unfold recorded. simpl. f_equal; [lia|].
  rewrite <- app_assoc. f_equal. by destruct (failure_of r).
Qed.

Lemma fold_record_frame rs l p :
  processed l = processedVariants p →
  fold_left record_result (Some <$> rs) (l, p) = (record_all rs l, recorded rs p).
Proof.
  revert l p. induction rs as [|r rs IH]; intros l p Hc.
  - destruct l, p. unfold record_all, recorded. simpl.
    by rewrite !app_nil_r, !Nat.add_0_r.
  - cbn [fmap list_fmap fold_left]. rewrite record_result_frame by done.
    rewrite IH by (simpl; lia). by rewrite record_all_cons, recorded_cons.
Qed.

Lemma imap_results admin (time : nat → string) variants :
  imap (λ k variant,
          match outcome (task admin (time k) variant) with
          | inr r => Resolved r
          | inl e => Rejected e
          end) variants
  = Resolved <$> imap (λ k variant,
                         match outcome (task admin (time k) variant) with
                         | inr r => r
                         | inl e => TaskApiError (id variant) (message e)
                         end) variants.
Proof.
  revert time. induction variants as [|v vs IH]; intros time; [done|].
  rewrite !imap_cons. cbn [fmap list_fmap]. f_equal.
  - destruct (RunFacts.task_resolves admin (time 0) v) as [r ->]. done.
  - apply (IH (time ∘ S)).
Qed.

Lemma batch_tasks_results b variants :
  batch_tasks b variants = Resolved <$> batch_results b variants.
Proof. apply imap_results. Qed.

Lemma length_batch_results b variants : length (batch_results b variants) = length variants.
Proof. unfold batch_results. apply length_imap. Qed.

(** The inner [try] block on a page that is answered without error. *)
Lemma batch_try_answered b page l p :
  answers b page →
  processed l = processedVariants p →
  batch_try b l p
  = (inr ({| cursor := endCursor page;
             processed := processed l + length (edges page);
             local_errors := local_errors l ++ omap failure_of (batch_results b (edges page));
             batchCount := batchCount l; total := total l |},
          recorded (batch_results b (edges page)) p,
          page_hasNextPage page),
     length (edges page)).
Proof.
  intros Ha Hc. unfold batch_try. rewrite Ha. cbn [page_errors page_data].
  rewrite batch_tasks_results.
  destruct (LimiterFacts.parallelLimit_resolved (batch_results b (edges page))
              CONCURRENCY_LIMIT (order b)) as [-> ->]; [unfold CONCURRENCY_LIMIT; lia|].
  rewrite fold_record_frame by done. unfold record_all. cbn [processed local_errors batchCount total].
  by rewrite length_batch_results.
Qed.

Lemma batch_try_cases b l p :
  processed l = processedVariants p →
  (∃ e, batch_try b l p = (inl e, 0))
  ∨ ∃ page, answers b page
            ∧ batch_try b l p
              = (inr ({| cursor := endCursor page;
                         processed := processed l + length (edges page);
                         local_errors :=
                           local_errors l ++ omap failure_of (batch_results b (edges page));
                         batchCount := batchCount l; total := total l |},
                      recorded (batch_results b (edges page)) p,
                      page_hasNextPage page),
                 length (edges page)).
Proof.
  intros Hc. destruct (page_answer b) as [e|[[msgs|] [page|]]] eqn:Ha.
  1-3,5: left; unfold batch_try; rewrite Ha; simpl; by eexists.
  right. exists page. split; [done|]. by apply batch_try_answered.
Qed.

Lemma healthy_initial : healthy initial.
Proof.
  split; simpl; try done.
Qed.

Lemma step_healthy s e : healthy s → healthy (step s e).1.
Proof.
  intros [Hf Hbg Ho Hc Hl]. destruct s as [[p r] bg]; simpl in *.
  assert (Hsame : healthy {| server := {| variantUpdateProgress := p; isRunning := r |};
                             background := bg |}) by (by apply Build_healthy).
  destruct e as [intent now|input]; simpl.
  - unfold action; simpl. case_bool_decide.
    + destruct (negb (isProcessing p)) eqn:Hp; simpl; [|done].
      apply negb_true_iff in Hp.
      case_bool_decide as Hdone; simpl; [|done].
      destruct (summaryReturned p) eqn:Hflag; simpl; [done|].
      specialize (Hc Hp). destruct (summary p) as [sm|] eqn:Hsm.
      2: { destruct Hc as [Hnone _]. rewrite Hnone in Hdone. by destruct Hdone. }
      apply Build_healthy; simpl; try done.
      * by rewrite Hp.
      * by rewrite Hsm.
    + destruct r; simpl; [done|].
      apply Build_healthy; simpl; try done.
  - unfold resume_run; simpl.
    destruct bg as [[|l|l]|]; destruct input as [count|b|]; simpl; try done.
    + assert (Hr : r = true) by (apply Hbg; by eexists). rewrite Hr in *.
      symmetry in Hf. destruct (Ho Hf) as (H1 & H2 & H3 & H4).
      destruct Hl as (L1 & L2 & L3 & L4).
      set (n := match count with inr (Some n) => n | _ => 0 end).
      destruct (Nat.ltb_spec 0 n); apply Build_healthy; simpl; try done;
        try (split; [done|by eexists]); try (by rewrite Hf); try lia.
      all: repeat split; try done; lia.
    + assert (Hr : r = true) by (apply Hbg; by eexists). rewrite Hr in *.
      symmetry in Hf. destruct (Ho Hf) as (H1 & H2 & H3 & H4).
      destruct Hl as (L1 & L2 & L3 & L4).
      destruct (batch_try_cases b l p L1) as [[e ->]|(page & Ha & ->)].
      * apply Build_healthy; simpl; try done.
        intros _. split; [by eexists|]. unfold summary_text. by rewrite L1, L2, L3.
      * destruct (page_hasNextPage page); apply Build_healthy; simpl; try done.
        -- by rewrite Hf.
        -- by rewrite length_batch_results, L1, L2, L3, L4.
        -- intros _. split; [by eexists|]. unfold summary_text.
           by rewrite length_batch_results, L1, L2, L3.
    + assert (Hr : r = true) by (apply Hbg; by eexists). rewrite Hr in *.
      symmetry in Hf. destruct (Ho Hf) as (H1 & H2 & H3 & H4).
      destruct Hl as (L1 & L2 & L3 & L4).
      apply Build_healthy; simpl; try done.
      by rewrite Hf.
Qed.

Lemma exec_healthy evs s : healthy s → healthy (exec s evs).1.
Proof.
  revert s. induction evs as [|e evs IH]; intros s Hs; [done|].
  simpl. pose proof (step_healthy s e Hs) as H1.
  destruct (step s e) as [s1 o]. specialize (IH s1 H1).
  by destruct (exec s1 evs).
Qed.

Lemma reachable_healthy evs : healthy (exec initial evs).1.
Proof. apply exec_healthy, healthy_initial. Qed.

(** X3.  Whatever requests and resumptions have happened since the server
    started, [backgroundProcessing.isRunning] and
    [variantUpdateProgress.isProcessing] agree, and they are set exactly
    while a run is suspended at one of its [await]s: the flag is never left
    set by a run that has ended, and never cleared under a run that is still
    to resume. *)
Theorem flags_agree_in_every_state evs :
  let s := (exec initial evs).1 in
  isRunning (server s) = isProcessing (variantUpdateProgress (server s))
  ∧ (is_Some (background s) ↔ isRunning (server s) = true).
Proof.
  cbv zeta. destruct (reachable_healthy evs) as [Hf Hbg _ _ _]. by split.
Qed.

(** X4.  A summary that is present was built after the loop: it says
    [success: true], the run is over, and its [processedVariants],
    [totalVariants] and [batchCount] are the progress object's own
    [processedVariants], [totalVariants] and [currentBatch], so that
    spreading the summary over the progress object in the response changes
    none of the counters shown. *)
Theorem summary_repeats_the_counters evs sm :
  let p := variantUpdateProgress (server (exec initial evs).1) in
  summary p = Some sm →
  sm = Finished (processedVariants p) (totalVariants p) (currentBatch p)
         (summary_text (processedVariants p) (currentBatch p))
  ∧ success sm = true
  ∧ isProcessing p = false
  ∧ is_Some (completedAt p).
Proof.
  cbv zeta. destruct (reachable_healthy evs) as [_ _ Ho Hc _].
  intros Hsm. destruct (isProcessing _) eqn:Hp.
  - destruct (Ho eq_refl) as (_ & Hnone & _). congruence.
  - specialize (Hc eq_refl). cbv zeta in Hc. rewrite Hsm in Hc.
    destruct Hc as [Hdone ->]. done.
Qed.

(** X5.  [completedAt] and [summary] are set together and only by a run
    that has ended; while a run is in progress [startedAt] is set and the
    summary has not been handed out. *)
Theorem completion_fields_come_together evs :
  let p := variantUpdateProgress (server (exec initial evs).1) in
  (is_Some (completedAt p) ↔ is_Some (summary p))
  ∧ (is_Some (summary p) → isProcessing p = false)
  ∧ (isProcessing p = true → is_Some (startedAt p) ∧ summaryReturned p = false).
Proof.
  cbv zeta. destruct (reachable_healthy evs) as [_ _ Ho Hc _].
  destruct (isProcessing _) eqn:Hp.
  - destruct (Ho eq_refl) as (H1 & H2 & H3 & H4). rewrite H1, H2.
    repeat split; try done; by intros [? ?].
  - specialize (Hc eq_refl). cbv zeta in Hc.
    destruct (summary _) as [sm|].
    + destruct Hc as [Hdone _]. repeat split; try done.
    + destruct Hc as [-> _]. repeat split; try done.
Qed.

Lemma step_spreads s e :
  count_spreads (returned_flag s) (step s e).2 = returned_flag (step s e).1.
Proof.
  destruct s as [[p r] bg]. unfold returned_flag. destruct e as [intent now|input]; simpl.
  - unfold action; simpl. case_bool_decide.
    + destruct (negb (isProcessing p) && _ && negb (summaryReturned p)) eqn:Hc; simpl.
      * apply andb_true_iff in Hc as [_ Hc]. apply negb_true_iff in Hc. by rewrite Hc.
      * by destruct (summaryReturned p).
    + destruct r; simpl; [by destruct (summaryReturned p)|done].
  - unfold resume_run; simpl.
    destruct bg as [[|l|l]|]; destruct input as [count|b|]; simpl; try done.
    + by destruct (0 <? match count with inr (Some n) => n | _ => 0 end).
    + pose proof (RunFacts.batch_try_flags b l p) as Hb.
      destruct (batch_try b l p) as [[e|[[l' p'] [|]]] n]; simpl; try done.
      * destruct Hb as (_ & -> & _). done.
      * destruct Hb as (_ & -> & _). done.
Qed.

Lemma exec_spreads evs s :
  fold_left count_spreads (exec s evs).2 (returned_flag s) = returned_flag (exec s evs).1.
Proof.
  revert s. induction evs as [|e evs IH]; intros s; [done|].
  simpl. pose proof (step_spreads s e) as H1.
  destruct (step s e) as [s1 o]. specialize (IH s1).
  destruct (exec s1 evs) as [s2 os]. simpl in *. by rewrite H1.
Qed.

(** X6.  In any sequence of requests and resumptions, the number of
    responses that carry the summary since the last start of a run is 1 when
    [summaryReturned] is set and 0 otherwise: a run's summary is handed out
    at most once, however status queries, start requests and the run itself
    interleave. *)
Theorem summary_is_handed_out_once_per_run evs :
  let s := (exec initial evs).1 in
  spreads_in_run (exec initial evs).2
  = (if summaryReturned (variantUpdateProgress (server s)) then 1 else 0)
  ∧ spreads_in_run (exec initial evs).2 ≤ 1.
Proof.
  cbv zeta. pose proof (exec_spreads evs initial) as H.
  unfold spreads_in_run. change (returned_flag initial) with 0 in H. rewrite H.
  unfold returned_flag. split; [done|]. destruct (summaryReturned _); lia.
Qed.

(** X7.  No step other than the start of a new run removes or rewrites an
    entry of [errors]: status queries, rejected starts and every resumption
    of the run leave the entries recorded so far in place and in order, and
    only append. *)
Theorem errors_only_grow_within_a_run evs e :
  let s := (exec initial evs).1 in
  (∀ r, (step s e).2 ≠ Responded r true) →
  errors (variantUpdateProgress (server s))
    `prefix_of` errors (variantUpdateProgress (server (step s e).1)).
Proof.
  cbv zeta. destruct (reachable_healthy evs) as [Hf Hbg Ho Hc Hl].
  destruct (exec initial evs).1 as [[p r] bg]; simpl in *.
  destruct e as [intent now|input]; simpl.
  - unfold action; simpl. case_bool_decide.
    + by destruct (negb (isProcessing p) && _ && _).
    + destruct r; simpl; [done|]. intros Hno. exfalso. by eapply Hno.
  - intros _. unfold resume_run; simpl.
    destruct bg as [[|l|l]|]; destruct input as [count|b|]; simpl; try done.
    + by destruct (0 <? match count with inr (Some n) => n | _ => 0 end).
    + destruct Hl as (L1 & _).
      destruct (batch_try_cases b l p L1) as [[e ->]|(page & Ha & ->)].
      * simpl. by eexists.
      * destruct (page_hasNextPage page); simpl; by eexists.
Qed.

(** X8.  Status queries sent while a run is in progress return the progress
    object as it is and are invisible to the run: with or without them, the
    events that follow lead to the same state. *)
Theorem polling_is_invisible_to_a_run evs1 evs2 nows :
  let s := (exec initial evs1).1 in
  isRunning (server s) = true →
  (exec s (status_queries nows)).2
  = ((λ _, Responded (ProgressJson (variantUpdateProgress (server s)) false None) false)
       <$> nows)
  ∧ (exec initial (evs1 ++ status_queries nows ++ evs2)).1
    = (exec initial (evs1 ++ evs2)).1.
Proof.
  cbv zeta. intros Hrun.
  destruct (reachable_healthy evs1) as [Hf _ _ _ _]. rewrite Hrun in Hf. symmetry in Hf.
  pose proof (ActionFacts.status_queries_running _ nows (or_introl Hf)) as Hq.
  split; [by rewrite Hq|].
  rewrite !ActionFacts.exec_app.
  destruct (exec initial evs1) as [s1 o1]. simpl in *.
  rewrite ActionFacts.exec_app, Hq.
  destruct (exec s1 evs2) as [s2 o2]. done.
Qed.

Lemma exec_cons_state s e evs : (exec s (e :: evs)).1 = (exec (step s e).1 evs).1.
Proof. simpl. destruct (step s e) as [s1 o]. simpl. by destruct (exec s1 evs). Qed.

(** The locals once the results of a page are recorded. *)
Lemma step_page_more b page l p r :
  answers b page →
  processed l = processedVariants p →
  page_hasNextPage page = true →
  (step {| server := {| variantUpdateProgress := p; isRunning := r |};
           background := Some (AwaitPage l) |} (Background (BatchAnswer b))).1
  = {| server := {| variantUpdateProgress := recorded (batch_results b (edges page)) p;
                    isRunning := r |};
       background :=
         Some (AwaitDelay
                 {| cursor := endCursor page;
                    processed := processed l + length (edges page);
                    local_errors :=
                      local_errors l ++ omap failure_of (batch_results b (edges page));
                    batchCount := batchCount l; total := total l |}) |}.
Proof.
  intros Ha Hc Hnext. simpl. unfold resume_run; simpl.
  by rewrite (batch_try_answered _ _ _ _ Ha Hc), Hnext.
Qed.

Lemma step_page_last b page l p r :
  answers b page →
  processed l = processedVariants p →
  page_hasNextPage page = false →
  (step {| server := {| variantUpdateProgress := p; isRunning := r |};
           background := Some (AwaitPage l) |} (Background (BatchAnswer b))).1
  = complete (end_time b)
      {| cursor := endCursor page;
         processed := processed l + length (edges page);
         local_errors := local_errors l ++ omap failure_of (batch_results b (edges page));
         batchCount := batchCount l; total := total l |}
      (recorded (batch_results b (edges page)) p).
Proof.
  intros Ha Hc Hnext. simpl. unfold resume_run; simpl.
  by rewrite (batch_try_answered _ _ _ _ Ha Hc), Hnext.
Qed.

(** The loop from the page query of a batch on, when every page is
    answered. *)
Lemma batches_run batches pages :
  Forall2 answers batches pages →
  chained pages →
  ∀ l p r,
    processed l = processedVariants p →
    batchCount l = currentBatch p →
    let rs := run_results batches pages in
    let s' := (exec {| server := {| variantUpdateProgress := p; isRunning := r |};
                       background := Some (AwaitPage l) |} (batch_events batches)).1 in
    let p' := variantUpdateProgress (server s') in
    background s' = None ∧ isRunning (server s') = false
    ∧ isProcessing p' = false
    ∧ processedVariants p' = processedVariants p + length rs
    ∧ totalVariants p' = totalVariants p
    ∧ currentBatch p' = currentBatch p + (length pages - 1)
    ∧ errors p' = errors p ++ omap failure_of rs
    ∧ startedAt p' = startedAt p
    ∧ completedAt p' = end_time <$> last batches
    ∧ summary p'
      = Some (Finished (processed l + length rs) (total l) (batchCount l + (length pages - 1))
                (summary_text (processed l + length rs) (batchCount l + (length pages - 1))))
    ∧ summaryReturned p' = summaryReturned p.
Proof.
  induction 1 as [|b page batches pages Ha Hrest IH]; [intros Hch; destruct Hch|].
  intros Hch l p r Hc Hb. cbv zeta.
  destruct Hrest as [|b2 page2 batches pages Ha2 Hrest].
  - simpl in Hch. cbn [batch_events]. rewrite exec_cons_state.
    rewrite (step_page_last _ _ _ _ _ Ha Hc Hch). simpl.
    unfold run_results. simpl. rewrite app_nil_r, length_batch_results.
    rewrite !Nat.add_0_r. done.
  - destruct Hch as [Hnext Hch].
    change (batch_events (b :: b2 :: batches))
      with (Background (BatchAnswer b) :: Background TimerFired :: batch_events (b2 :: batches)).
    rewrite !exec_cons_state.
    rewrite (step_page_more _ _ _ _ _ Ha Hc Hnext).
    cbn [step resume_run background server fst]. unfold enter_batch.
    cbn [cursor processed local_errors batchCount total server variantUpdateProgress isRunning].
    match goal with
    | |- context [exec {| server := {| variantUpdateProgress := ?p1; isRunning := _ |};
                          background := Some (AwaitPage ?l1) |}] =>
        specialize (IH Hch l1 p1 r)
    end.
    cbv zeta in IH.
    destruct IH as (H1 & H2 & H3 & H4 & H5 & H6 & H7 & H8 & H9 & H10 & H11);
      [simpl; by rewrite Hc, length_batch_results|done|].
    rewrite H1, H2, H3, H4, H5, H6, H7, H8, H9, H10, H11.
    unfold run_results. cbn [zip_with concat].
    rewrite !omap_app, !length_app, !length_batch_results. simpl.
    rewrite <- !app_assoc, !Nat.add_assoc, Nat.sub_0_r, <- !plus_n_Sm.
    rewrite ?length_batch_results.
    repeat split; try done; lia.
Qed.

(** X9.  A run that nothing interrupts, started while no run is in
    progress and whose page queries are all answered: when it ends, the
    processed count is the number of variants on its pages, [currentBatch] is
    the number of pages, [totalVariants] is the count reported at the start
    (0 when the count query failed or gave none), [errors] holds the
    failures of the tasks in page order and nothing else, and the summary
    repeats these counters. *)
Theorem uninterrupted_run s now count batches pages :
  isRunning (server s) = false →
  Forall2 answers batches pages →
  chained pages →
  let rs := run_results batches pages in
  let s' := (exec s (run_events now count batches)).1 in
  let p' := variantUpdateProgress (server s') in
  background s' = None ∧ isRunning (server s') = false
  ∧ isProcessing p' = false
  ∧ processedVariants p' = length (concat (edges <$> pages))
  ∧ totalVariants p' = counted count
  ∧ currentBatch p' = length pages
  ∧ errors p' = omap failure_of rs
  ∧ startedAt p' = Some now
  ∧ completedAt p' = end_time <$> last batches
  ∧ summary p'
    = Some (Finished (length (concat (edges <$> pages))) (counted count) (length pages)
              (summary_text (length (concat (edges <$> pages))) (length pages)))
  ∧ summaryReturned p' = false.
Proof.
  intros Hidle Hans Hch. cbv zeta. unfold run_events.
  rewrite !exec_cons_state. destruct s as [[p0 r0] bg0]. simpl in Hidle. subst r0.
  cbn [step]. unfold action; simpl. unfold processVariantsInBackground; simpl.
  unfold resume_run; simpl. unfold enter_batch; simpl.
  assert (Hlen : length (run_results batches pages) = length (concat (edges <$> pages))).
  { clear Hch. unfold run_results. induction Hans as [|b page bs ps Ha _ IH]; [done|].
    simpl. by rewrite !length_app, length_batch_results, IH. }
  assert (Hpos : 1 ≤ length pages) by (destruct pages; [done|simpl; lia]).
  fold (counted count).
  assert (Htot : (if 0 <? counted count then counted count else 0) = counted count).
  { destruct (Nat.ltb_spec 0 (counted count)); lia. }
  set (p1 := set_currentBatch 1 _).
  assert (Hp1 : p1 = {| processedVariants := 0; totalVariants := counted count;
                        isProcessing := true; currentBatch := 1; errors := [];
                        startedAt := Some now; completedAt := None; summary := None;
                        summaryReturned := false |}).
  { subst p1. destruct (0 <? counted count); simpl; [done|]. by rewrite <- Htot. }
  rewrite Hp1. clear p1 Hp1.
  match goal with
  | |- context [exec {| server := {| variantUpdateProgress := ?p1; isRunning := ?r |};
                        background := Some (AwaitPage ?l1) |}] =>
      destruct (batches_run batches pages Hans Hch l1 p1 r eq_refl eq_refl)
        as (H1 & H2 & H3 & H4 & H5 & H6 & H7 & H8 & H9 & H10 & H11)
  end.
  rewrite H1, H2, H3, H4, H5, H6, H7, H8, H9, H10, H11, Hlen. simpl.
  replace (S (length pages - 1)) with (length pages) by lia.
  done.
Qed.

Lemma failures_are_no_batch_errors rs :
  Forall (λ e, is_batch_error e = false) (omap failure_of rs).
Proof.
  induction rs as [|r rs IH]; [constructor|].
  destruct r; simpl; [done|by constructor..].
Qed.

Lemma step_tidy s e : healthy s → tidy s → tidy (step s e).1.
Proof.
  intros [Hf Hbg Ho Hc Hl] Ht. destruct s as [[p r] bg]. unfold tidy in *; simpl in *.
  destruct e as [intent now|input]; simpl.
  - unfold action; simpl. case_bool_decide.
    + by destruct (negb (isProcessing p) && _ && _).
    + destruct r; simpl; [done|]. left. constructor.
  - unfold resume_run; simpl.
    destruct bg as [[|l|l]|]; destruct input as [count|b|]; simpl; try done.
    + destruct Ht as [Ht|[? _]]; [|done]. left.
      by destruct (0 <? match count with inr (Some n) => n | _ => 0 end).
    + destruct Ht as [Ht|[? _]]; [|done]. destruct Hl as (L1 & _ & L3 & _).
      destruct (batch_try_cases b l p L1) as [[e ->]|(page & Ha & ->)].
      * right. simpl. split; [done|]. exists (errors p), (message e).
        split; [done|]. by rewrite L3.
      * left. destruct (page_hasNextPage page); simpl;
          (apply Forall_app; split; [done|apply failures_are_no_batch_errors]).
    + destruct Ht as [Ht|[? _]]; [|done]. by left.
Qed.

Lemma reachable_tidy evs : tidy (exec initial evs).1.
Proof.
  assert (H : ∀ s, healthy s → tidy s → tidy (exec s evs).1).
  { induction evs as [|e evs IH]; intros s Hs Ht; [done|].
    rewrite exec_cons_state. apply IH; [by apply step_healthy|by apply step_tidy]. }
  apply H; [apply healthy_initial|]. left. constructor.
Qed.

(** X12.  A run records at most one batch error, as the last entry of
    [errors], and only a run that has ended has one; the entry names the
    batch the run stopped in, which is [currentBatch].  Every other entry is
    the failure of a task. *)
Theorem batch_error_is_single_and_last evs :
  let p := variantUpdateProgress (server (exec initial evs).1) in
  Forall (λ e, is_batch_error e = false) (errors p)
  ∨ (isProcessing p = false
     ∧ ∃ pre msg, Forall (λ e, is_batch_error e = false) pre
                  ∧ errors p = pre ++ [batchError (currentBatch p) msg]).
Proof.
  cbv zeta. destruct (reachable_tidy evs) as [Ht|[Hbg Ht]]; [by left|right].
  split; [|done]. destruct (reachable_healthy evs) as [Hf Hb _ _ _].
  rewrite Hbg in Hb. rewrite <- Hf. destruct (isRunning _); [|done].
  destruct (proj2 Hb eq_refl) as [? ?]. done.
Qed.

End RunMore.

(** ** The task of one variant *)

Module TaskMore.
Import Js Gql Limiter Sync Invariants.

(** The ways a task can go. *)
Lemma task_cases admin now variant :
  (inventoryItem variant = None
   ∧ ∃ msg, task admin now variant = ([], inr (TaskApiError (id variant) msg)))
  ∨ ∃ item, inventoryItem variant = Some item
      ∧ (((∀ es, ¬ levels_answer admin item es)
          ∧ ∃ msg, task admin now variant
                   = ([InventoryLevels item], inr (TaskApiError (id variant) msg)))
         ∨ ∃ es r, levels_answer admin item es
             ∧ task admin now variant
               = ([InventoryLevels item; MetafieldsSet (id variant) (task_snapshot now es)],
                  inr r)
             ∧ ((r = TaskSuccess (id variant)
                 ∧ setMetafields admin (id variant) (task_snapshot now es)
                   = inr {| set_errors := None; set_userErrors := [] |})
                ∨ (is_Some (failure_of r)
                   ∧ setMetafields admin (id variant) (task_snapshot now es)
                     ≠ inr {| set_errors := None; set_userErrors := [] |}))).
Proof.
  unfold task, task_body, levels_answer, task_snapshot.
  destruct (inventoryItem variant) as [item|] eqn:Hitem; [|left; split; [done|by eexists]].
  right. exists item. split; [done|].
  unfold mbind, M_bind, bind, lift, ask.
  destruct (getLevels admin item) as [e|[[errs|] [es|]]] eqn:Hlevels; simpl.
  1-3,5: left; split; [intros es'; congruence|by eexists].
  right. change (map (format_level now) es) with (format_level now <$> es).
  destruct (setMetafields admin (id variant)
              (VObj [("locations", VArr (format_level now <$> es))]))
    as [e|[[serrs|] ues]] eqn:Hset; simpl.
  1-2: exists es; eexists; split; [done|]; split; [done|]; right;
    (split; [by eexists|rewrite Hset; congruence]).
  destruct ues as [|ue ues]; simpl.
  - exists es. eexists. split; [done|]. split; [done|]. left. by rewrite Hset.
  - exists es. eexists. split; [done|]. split; [done|]. right.
    split; [by eexists|rewrite Hset; congruence].
Qed.

(** X10.  A task sends no request for a variant without inventory item;
    otherwise it queries the inventory levels first and writes at most once,
    and only after that query was answered with levels and without
    [errors]; what it writes is the snapshot formatted from exactly those
    levels, for the variant of the task. *)
Theorem task_reads_before_it_writes admin now variant :
  (inventoryItem variant = None ∧ calls (task admin now variant) = [])
  ∨ (∃ item, inventoryItem variant = Some item
             ∧ (∀ es, ¬ levels_answer admin item es)
             ∧ calls (task admin now variant) = [InventoryLevels item])
  ∨ (∃ item es, inventoryItem variant = Some item
                ∧ levels_answer admin item es
                ∧ calls (task admin now variant)
                  = [InventoryLevels item;
                     MetafieldsSet (id variant) (task_snapshot now es)]).
Proof.
  destruct (task_cases admin now variant)
    as [[Hnone [msg ->]]|(item & Hitem & [[Hno [msg ->]]|(es & r & Hl & -> & _)])].
  - by left.
  - right. left. by exists item.
  - right. right. by exists item, es.
Qed.

(** X11.  A task reports success exactly when the variant has an inventory
    item, the levels query was answered without [errors], and the write was
    answered without [errors] and without [userErrors]; in every other case
    its result is a failure that the run records. *)
Theorem task_succeeds_only_after_a_clean_write admin now variant :
  (outcome (task admin now variant) = inr (TaskSuccess (id variant))
   ↔ ∃ item es, inventoryItem variant = Some item
                ∧ levels_answer admin item es
                ∧ setMetafields admin (id variant) (task_snapshot now es)
                  = inr {| set_errors := None; set_userErrors := [] |})
  ∧ (outcome (task admin now variant) = inr (TaskSuccess (id variant))
     ∨ ∃ r, outcome (task admin now variant) = inr r ∧ is_Some (failure_of r)).
Proof.
  destruct (task_cases admin now variant)
    as [[Hnone [msg ->]]|(item & Hitem & [[Hno [msg ->]]|(es & r & Hl & -> & Hr)])]; simpl.
  - split; [|right; eexists; split; [done|by eexists]].
    split; [done|]. intros (item' & es' & Hi' & _). congruence.
  - split; [|right; eexists; split; [done|by eexists]].
    split; [done|]. intros (item' & es' & Hi' & Hl' & _).
    assert (item' = item) as -> by congruence. by destruct (Hno es').
  - destruct Hr as [[-> Hclean]|[Hfail Hdirty]].
    + split; [|by left]. split; [|done]. intros _. by exists item, es.
    + split; [|right; by exists r]. split.
      * intros [= ->]. by destruct Hfail.
      * intros (item' & es' & Hi' & Hl' & Hs').
        assert (item' = item) as -> by congruence.
        unfold levels_answer in *. assert (es' = es) as -> by congruence. done.
Qed.

Lemma task_result_variant admin now variant r :
  outcome (task admin now variant) = inr r → result_variant r = id variant.
Proof.
  unfold task, task_body.
  destruct (inventoryItem variant) as [item|]; [|by intros [= <-]].
  unfold mbind, M_bind, bind, lift, ask.
  destruct (getLevels admin item) as [e|[[errs|] [es|]]]; simpl; try by intros [= <-].
  destruct (setMetafields admin (id variant) _) as [e|[[serrs|] ues]]; simpl;
    try by intros [= <-].
  destruct ues; simpl; by intros [= <-].
Qed.

(** X29.  The results of a batch are attributed to the right variants:
    whatever the order in which the tasks settle, [parallelLimit] resolves
    with one result per variant of the page, in page order, and the result at
    each position names the variant at that position; every variant of the
    page has been started exactly once. *)
Theorem results_follow_the_page b variants :
  ∃ rs, parallelLimit (batch_tasks b variants) CONCURRENCY_LIMIT (order b) = inr (Some <$> rs)
        ∧ result_variant <$> rs = id <$> variants
        ∧ started (batch_tasks b variants) CONCURRENCY_LIMIT (order b) = length variants.
Proof.
  exists (batch_results b variants). rewrite RunMore.batch_tasks_results.
  destruct (LimiterFacts.parallelLimit_resolved (batch_results b variants)
              CONCURRENCY_LIMIT (order b)) as [-> ->]; [unfold CONCURRENCY_LIMIT; lia|].
  split; [done|]. split; [|apply RunMore.length_batch_results].
  unfold batch_results. rewrite fmap_imap, <- imap_const. apply imap_ext.
  intros k variant _. unfold compose, const.
  destruct (outcome (task (admin b) (task_time b k) variant)) as [e|r] eqn:Hr; [done|].
  by apply (task_result_variant (admin b) (task_time b k) variant).
Qed.

End TaskMore.

(** ** Location identifiers across the two synchronisation paths *)

Module IdFacts.
Import Js Gql.








(** Without a radix, [parseInt] reads the decimal text of an integer as that
    integer: such a text never starts with [0x]. *)
Lemma parseInt_digits (neg : bool) (d : uint) :
  d ≠ Nil →
  parseInt_string (NilZero.string_of_int (if neg then Decimal.Neg d else Decimal.Pos d))
  = Some (signed neg (Z.of_uint d)).
Proof.
  intros Hd. pose proof (JsFacts.digit_prefix_string_of_uint d) as Hp.
  unfold parseInt_string.
  destruct neg; destruct d as [|d|d|d|d|d|d|d|d|d|d]; try done;
    cbn [NilZero.string_of_int NilZero.string_of_uint NilEmpty.string_of_uint] in *;
    cbn [trim_start is_space nat_of_ascii]; simpl split_sign; cbv iota beta;
    try (by rewrite Hp);
    (destruct d; cbn [NilEmpty.string_of_uint] in *; by rewrite Hp).
Qed.

Lemma parseInt_number z : parseInt (VNum z) = VNum z.
Proof.
  unfold parseInt. cbn [to_string]. unfold string_of_Z.
  destruct z as [|p|p]; [done| |].
  - change (Z.to_int (Z.pos p))
      with (if false then Decimal.Neg (Pos.to_uint p) else Decimal.Pos (Pos.to_uint p)).
    rewrite parseInt_digits by apply Unsigned.to_uint_nonnil.
    simpl. unfold Z.of_uint. by rewrite Unsigned.of_to.
  - change (Z.to_int (Z.neg p))
      with (if true then Decimal.Neg (Pos.to_uint p) else Decimal.Pos (Pos.to_uint p)).
    rewrite parseInt_digits by apply Unsigned.to_uint_nonnil.
    simpl. unfold Z.of_uint. by rewrite Unsigned.of_to.
Qed.

End IdFacts.

(** ** The webhook handler against the snapshots the other paths write *)

Module WebhookMore.
Import Js Gql Webhook Invariants.



Lemma updated_record_id now location p n :
  location_id p = VNum n → get (updatedLocation now location p) "id" = inr (VNum n).
Proof.
  intros Hp. unfold updatedLocation, record.
  cbn [get assoc String.eqb Ascii.eqb Bool.eqb default]. by rewrite Hp, IdFacts.parseInt_number.
Qed.

Lemma matches_number loc n :
  get loc "id" = inr (VNum n) → matches (VNum n) loc = true.
Proof. intros H. unfold matches. rewrite H. simpl. apply Z.eqb_refl. Qed.




(** X14.  The two copies of the level formatter, the one in a task of the
    run and the one on the handler's bootstrap path, build the same record
    for a level that carries a quantity; for a level whose [quantities] is
    empty the task writes [available: 0] where the handler throws. *)
Theorem bootstrap_formats_like_the_run now e :
  (quantities e ≠ [] → Webhook.format_level now e = inr (Sync.format_level now e))
  ∧ (quantities e = [] →
     (∃ err, Webhook.format_level now e = inl err)
     ∧ get (Sync.format_level now e) "available" = inr (VNum 0)).
Proof.
  unfold Webhook.format_level, Sync.format_level. cbv zeta.
  destruct (quantities e) as [|q qs]; split; try done.
  intros _. split; [by eexists|done].
Qed.

(** X15.  [bulkInventoryMetafields] stores the location's GID, a string, as
    the [id] of a record, while the handler compares [id] with the payload's
    [location_id] by [===].  A webhook whose [location_id] is not a string
    therefore never finds a record of a snapshot written by
    [bulkInventoryMetafields]: it pushes its own record behind the ones
    stored, which stay as they were. *)
Theorem webhook_appends_to_a_bulk_snapshot admin now now' p levels location :
  (∀ s, location_id p ≠ VStr s) →
  getLocation admin (locationGid p) = inr location →
  ∃ recs,
    Bulk.inventoryData now levels = VObj [("locations", VArr recs)]
    ∧ length recs = length levels
    ∧ merge admin now' p (Bulk.inventoryData now levels)
      = ([GetLocationName (locationGid p)],
         inr (VObj [("locations", VArr (recs ++ [updatedLocation now' location p]))])).
Proof.
  intros Hp Hloc. unfold Bulk.inventoryData.
  set (recs := map _ levels). exists recs. split; [done|].
  split; [subst recs; by rewrite length_map|].
  rewrite (WebhookFacts.merge_records admin now' p [("locations", VArr recs)] recs location
             eq_refl); [| |done].
  - destruct (list_find _ _) as [[i x]|] eqn:Hfind; [|done].
    apply list_find_Some in Hfind as (Hi & Hx & _). exfalso.
    apply list_elem_of_lookup_2 in Hi. subst recs.
    apply list_elem_of_fmap in Hi as (level & -> & _).
    unfold matches in Hx. simpl in Hx.
    destruct (location_id p) as [| | | | |s| |] eqn:Hid; try done. by destruct (Hp s).
  - subst recs. apply Forall_fmap, Forall_true. done.
Qed.

Lemma assoc_assoc_set k v l : assoc k (assoc_set k v l) = Some v.
Proof.
  induction l as [|[k' v'] l IH]; simpl.
  - by rewrite String.eqb_refl.
  - destruct (String.eqb k k') eqn:Hk; simpl; [by rewrite String.eqb_refl|by rewrite Hk].
Qed.

Lemma assoc_set_twice k v v' l : assoc_set k v' (assoc_set k v l) = assoc_set k v' l.
Proof.
  induction l as [|[k' w] l IH]; simpl.
  - by rewrite String.eqb_refl.
  - destruct (String.eqb k k') eqn:Hk; simpl; [by rewrite String.eqb_refl|].
    by rewrite Hk, IH.
Qed.

Lemma list_find_insert_found {A} (P : A → Prop) `{∀ x, Decision (P x)} l i x y :
  list_find P l = Some (i, x) → P y → list_find P (<[i := y]> l) = Some (i, y).
Proof.
  intros Hfind Hy. apply list_find_Some in Hfind as (Hi & Hx & Hfirst).
  apply list_find_Some. split; [|split; [done|]].
  - apply list_lookup_insert_eq. by eapply lookup_lt_Some.
  - intros j z Hj Hlt. rewrite list_lookup_insert_ne in Hj by lia. by eapply Hfirst.
Qed.

Lemma list_find_snoc {A} (P : A → Prop) `{∀ x, Decision (P x)} l y :
  list_find P l = None → P y → list_find P (l ++ [y]) = Some (length l, y).
Proof.
  intros Hfind Hy. apply list_find_None in Hfind. rewrite Forall_forall in Hfind.
  apply list_find_Some. split; [|split; [done|]].
  - rewrite lookup_app_r by lia. by rewrite Nat.sub_diag.
  - intros j z Hj Hlt. rewrite lookup_app_l in Hj by lia.
    apply Hfind. by eapply list_elem_of_lookup_2.
Qed.

(** Merged into the snapshot it has produced, an update with a numeric
    [location_id] produces that snapshot again. *)
Lemma merge_again admin now p n obj locs location merged :
  location_id p = VNum n →
  assoc "locations" obj = Some (VArr locs) →
  Forall (λ loc, is_object loc = true) locs →
  getLocation admin (locationGid p) = inr location →
  outcome (merge admin now p (VObj obj)) = inr merged →
  outcome (merge admin now p merged) = inr merged.
Proof.
  intros Hp Ha Hobj Hloc.
  rewrite (WebhookFacts.merge_records admin now p obj locs location Ha Hobj Hloc).
  cbn [outcome snd]. intros [= <-].
  set (upd := updatedLocation now location p).
  assert (Hupd : matches (location_id p) upd = true).
  { rewrite Hp. apply matches_number. by apply updated_record_id. }
  set (locs1 := match list_find _ locs with Some (i, _) => <[i := upd]> locs
                                          | None => locs ++ [upd] end).
  assert (Hobj1 : Forall (λ loc, is_object loc = true) locs1).
  { subst locs1. destruct (list_find _ locs) as [[i x]|].
    - by apply Forall_insert.
    - apply Forall_app. split; [done|]. by constructor. }
  rewrite (WebhookFacts.merge_records admin now p _ locs1 location
             (assoc_assoc_set _ _ _) Hobj1 Hloc).
  cbn [outcome snd]. fold upd. rewrite assoc_set_twice. do 3 f_equal.
  subst locs1. destruct (list_find _ locs) as [[i x]|] eqn:Hfind.
  - rewrite (list_find_insert_found _ _ _ _ _ Hfind Hupd).
    by rewrite list_insert_insert_eq.
  - rewrite (list_find_snoc _ _ _ Hfind Hupd).
    rewrite insert_app_r_alt by lia. by rewrite Nat.sub_diag.
Qed.

Lemma bind_eta {A B} (m : M A) (k : A → M B) :
  m ≫= k = match outcome m with
            | inl e => (calls m, inl e)
            | inr a => (calls m ++ calls (k a), outcome (k a))
            end.
Proof. destruct m as [l [e|a]]; simpl; [done|]. by destruct (k a). Qed.

Lemma bootstrap_calls admin now p :
  calls (bootstrap admin now p) = [InventoryLevels (inventoryItemGid p)].
Proof.
  unfold bootstrap. cbv zeta. rewrite WebhookFacts.calls_bind. cbn [outcome calls ask fst snd].
  destruct (getLevels admin _) as [e|levels]; [done|].
  rewrite WebhookFacts.calls_bind. cbn [outcome calls lift fst snd].
  destruct (levels_edges levels) as [es|]; [|done].
  rewrite WebhookFacts.calls_bind. cbn [outcome calls lift fst snd].
  destruct (edge_node es 0); [done|].
  rewrite WebhookFacts.calls_bind. cbn [outcome calls lift fst snd].
  destruct (edge_node es 1); [done|].
  destruct (levels_errors levels); [done|].
  rewrite WebhookFacts.calls_bind. cbn [outcome calls lift fst snd].
  by destruct (map_res _ es).
Qed.

Lemma bootstrap_result admin now p currentData allLocations :
  outcome (bootstrap admin now p) = inr (currentData, allLocations) →
  currentData = VObj [("locations", VArr allLocations)] ∧ 2 ≤ length allLocations.
Proof.
  unfold bootstrap. cbv zeta. rewrite ?WebhookFacts.outcome_bind. cbn [outcome ask lift snd].
  destruct (getLevels admin _) as [e|levels]; [done|].
  rewrite ?WebhookFacts.outcome_bind. cbn [outcome ask lift snd].
  destruct (levels_edges levels) as [es|]; [|done].
  rewrite ?WebhookFacts.outcome_bind. cbn [outcome ask lift snd].
  unfold edge_node. destruct (es !! 0) as [e0|] eqn:H0; [|done].
  rewrite ?WebhookFacts.outcome_bind. cbn [outcome ask lift snd].
  destruct (es !! 1) as [e1|] eqn:H1; [|done].
  destruct (levels_errors levels); [done|].
  rewrite ?WebhookFacts.outcome_bind. cbn [outcome ask lift snd].
  destruct (map_res _ es) as [e|recs] eqn:Hrecs; [done|].
  cbn. intros [= <- <-]. split; [done|].
  rewrite (WebhookFacts.format_levels_length now es recs Hrecs).
  apply lookup_lt_Some in H1. lia.
Qed.

Lemma bootstrap_by_item admin now p p' :
  inventory_item_id p' = inventory_item_id p →
  bootstrap admin now p' = bootstrap admin now p.
Proof. intros H. unfold bootstrap, inventoryItemGid. by rewrite H. Qed.

Lemma merge_calls admin now p currentData :
  calls (merge admin now p currentData) = [GetLocationName (locationGid p)].
Proof.
  unfold merge. cbv zeta. rewrite WebhookFacts.calls_bind. cbn [outcome calls ask fst snd].
  destruct (getLocation admin _) as [e|location]; [done|].
  rewrite WebhookFacts.calls_bind. cbn [outcome calls lift fst snd].
  destruct (locations_of currentData) as [e|locs]; [done|].
  rewrite WebhookFacts.calls_bind. cbn [outcome calls lift fst snd].
  destruct (findIndex locs _) as [e|[i|]]; done.
Qed.

(** X16.  Delivering the same update twice is harmless when [location_id]
    is a number: merged into the snapshot it has itself produced, the update
    asks for the location's name again, finds its own record and puts an
    equal one in its place. *)
Theorem second_delivery_changes_nothing admin now p n obj locs location merged :
  location_id p = VNum n →
  assoc "locations" obj = Some (VArr locs) →
  Forall (λ loc, is_object loc = true) locs →
  getLocation admin (locationGid p) = inr location →
  outcome (merge admin now p (VObj obj)) = inr merged →
  merge admin now p merged = ([GetLocationName (locationGid p)], inr merged).
Proof.
  intros Hp Ha Hobj Hloc Hfirst.
  rewrite (WebhookFacts.M_eta (merge admin now p merged)).
  f_equal; [apply merge_calls|by eapply merge_again].
Qed.

(** The handler once the variant is found. *)
Lemma handler_found admin now p variant :
  getVariant admin (inventoryItemGid p) = inr (Some variant) →
  let stored := match metafield variant with
                | Some m => metafield_value m
                | None => VUndef
                end in
  let stage1 : M (value * list value) :=
    if negb (truthy stored) then bootstrap admin now p
    else
      parsed ← lift (if truthy stored then Json.parse (to_string stored)
                      else inr (VObj [("locations", VArr [])]));
      ret (parsed, []) in
  handleInventoryUpdate admin now p
  = match outcome stage1 with
    | inl e => (GetVariantWithMetafield (inventoryItemGid p) :: calls stage1, inl e)
    | inr (currentData, allLocations) =>
        let stage2 : M value :=
          if negb (negb (truthy stored)) || (length allLocations =? 0)
          then merge admin now p currentData
          else ret currentData in
        match outcome stage2 with
        | inl e =>
            (GetVariantWithMetafield (inventoryItemGid p) :: calls stage1 ++ calls stage2,
             inl e)
        | inr snapshot =>
            (GetVariantWithMetafield (inventoryItemGid p)
               :: calls stage1 ++ calls stage2
               ++ [MetafieldsSet (variant_id variant) snapshot],
             after_write (setMetafields admin (variant_id variant) snapshot))
        end
    end.
Proof.
  intros Hv. cbv zeta. unfold handleInventoryUpdate. cbv zeta.
  rewrite bind_eta. cbn [outcome calls ask fst snd]. rewrite Hv. cbv beta iota.
  set (stage1 := if negb _ then bootstrap admin now p else _).
  rewrite bind_eta.
  destruct (outcome stage1) as [e|[currentData allLocations]]; [done|].
  cbv beta iota.
  set (stage2 := if negb (negb _) || _ then merge admin now p currentData else _).
  rewrite bind_eta. destruct (outcome stage2) as [e|snapshot]; [done|].
  rewrite bind_eta. cbn [outcome calls ask fst snd app].
  unfold after_write.
  destruct (setMetafields admin _ _) as [e|r]; simpl; [done|].
  by destruct (write_failed r).
Qed.

Lemma parse_stage_calls (r : res value) :
  calls (lift r ≫= λ parsed, ret (parsed, @nil value)) = [].
Proof. by destruct r. Qed.

Lemma parse_stage_outcome (r : res value) :
  outcome (lift r ≫= λ parsed, ret (parsed, @nil value))
  = match r with inl e => inl e | inr v => inr (v, []) end.
Proof. by destruct r. Qed.

(** The shape of every execution of the handler. *)
Lemma handler_shape admin now p :
  ∃ reads,
    Forall (λ c, is_read c = true) reads
    ∧ ((∃ e, handleInventoryUpdate admin now p = (reads, inl e))
       ∨ ∃ variant snapshot,
           getVariant admin (inventoryItemGid p) = inr (Some variant)
           ∧ handleInventoryUpdate admin now p
             = (reads ++ [MetafieldsSet (variant_id variant) snapshot],
                after_write (setMetafields admin (variant_id variant) snapshot))).
Proof.
  destruct (getVariant admin (inventoryItemGid p)) as [e|[variant|]] eqn:Hv.
  - exists [GetVariantWithMetafield (inventoryItemGid p)]. split; [by repeat constructor|].
    left. exists e. unfold handleInventoryUpdate. cbv zeta.
    rewrite bind_eta. cbn [outcome calls ask fst snd]. by rewrite Hv.
  - rewrite (handler_found admin now p variant Hv). cbv zeta.
    set (stored := match metafield variant with Some m => metafield_value m | None => VUndef end).
    set (stage1 := if negb (truthy stored) then _ else _).
    assert (H1 : Forall (λ c, is_read c = true) (calls stage1)).
    { subst stage1. destruct (negb (truthy stored)).
      - rewrite bootstrap_calls. by repeat constructor.
      - rewrite parse_stage_calls. constructor. }
    destruct (outcome stage1) as [e|[currentData allLocations]].
    { eexists. split; [|left; by eexists]. by constructor. }
    set (stage2 := if negb (negb (truthy stored)) || _ then _ else _).
    assert (H2 : Forall (λ c, is_read c = true) (calls stage2)).
    { subst stage2. destruct (negb (negb (truthy stored)) || _).
      - rewrite merge_calls. by repeat constructor.
      - constructor. }
    destruct (outcome stage2) as [e|snapshot].
    { eexists. split; [|left; by eexists]. constructor; [done|]. by apply Forall_app. }
    exists (GetVariantWithMetafield (inventoryItemGid p) :: calls stage1 ++ calls stage2).
    split; [constructor; [done|]; by apply Forall_app|].
    right. exists variant, snapshot. split; [done|].
    by rewrite <- app_comm_cons, <- app_assoc.
  - exists [GetVariantWithMetafield (inventoryItemGid p)]. split; [by repeat constructor|].
    left. eexists. unfold handleInventoryUpdate. cbv zeta.
    rewrite bind_eta. cbn [outcome calls ask fst snd]. by rewrite Hv.
Qed.

(** X17.  A write of the handler is its last request, so that it writes
    at most once; it goes to the variant the first query returned, and every
    request before it reads.  How the handler ends then depends on nothing
    but the answer to the write, and of that answer only on whether it
    carries top-level [errors]: [userErrors] are never looked at. *)
Theorem handler_writes_last_and_once admin now p i owner snapshot :
  calls (handleInventoryUpdate admin now p) !! i = Some (MetafieldsSet owner snapshot) →
  S i = length (calls (handleInventoryUpdate admin now p))
  ∧ Forall (λ c, is_read c = true) (take i (calls (handleInventoryUpdate admin now p)))
  ∧ (∃ variant, getVariant admin (inventoryItemGid p) = inr (Some variant)
                ∧ owner = variant_id variant)
  ∧ outcome (handleInventoryUpdate admin now p)
    = after_write (setMetafields admin owner snapshot).
Proof.
  destruct (handler_shape admin now p)
    as (reads & Hreads & [[e ->]|(variant & written & Hv & ->)]); cbn [calls outcome fst snd].
  - intros Hi. rewrite Forall_forall in Hreads.
    by specialize (Hreads _ (list_elem_of_lookup_2 _ _ _ Hi)).
  - intros Hi. destruct (decide (i < length reads)) as [Hlt|Hge].
    + rewrite lookup_app_l in Hi by done. rewrite Forall_forall in Hreads.
      by specialize (Hreads _ (list_elem_of_lookup_2 _ _ _ Hi)).
    + rewrite lookup_app_r in Hi by lia.
      destruct (i - length reads) as [|k] eqn:Hk; [|done]. injection Hi as <- <-.
      assert (i = length reads) as -> by lia.
      rewrite length_app, take_app_length. simpl.
      repeat split; try done; [lia|by exists variant].
Qed.

(** X18.  On the bootstrap path the update itself is ignored.  When the
    stored value is absent or empty, what the handler requests, writes and
    returns depends on the payload's [inventory_item_id] only: the location
    is never looked up, and [location_id] and [available] are not read.  The
    merge guarded by [allLocations.length === 0] cannot run, since the
    statements before it have thrown unless there are two levels. *)
Theorem bootstrap_ignores_the_update admin now p p' variant :
  getVariant admin (inventoryItemGid p) = inr (Some variant) →
  truthy (match metafield variant with
          | Some m => metafield_value m
          | None => VUndef
          end) = false →
  inventory_item_id p' = inventory_item_id p →
  handleInventoryUpdate admin now p' = handleInventoryUpdate admin now p
  ∧ Forall (λ c, ∀ gid, c ≠ GetLocationName gid) (calls (handleInventoryUpdate admin now p)).
Proof.
  intros Hv Hstored Hitem.
  assert (Hgid : inventoryItemGid p' = inventoryItemGid p).
  { unfold inventoryItemGid. by rewrite Hitem. }
  assert (Hv' : getVariant admin (inventoryItemGid p') = inr (Some variant)) by by rewrite Hgid.
  rewrite (handler_found admin now p variant Hv), (handler_found admin now p' variant Hv').
  cbv zeta. rewrite Hstored, Hgid. cbn [negb orb].
  rewrite (bootstrap_by_item admin now p p' Hitem), bootstrap_calls.
  destruct (outcome (bootstrap admin now p)) as [e|[currentData allLocations]] eqn:Hb.
  { split; [done|]. by repeat constructor. }
  destruct (bootstrap_result admin now p _ _ Hb) as [_ Hlen].
  destruct (Nat.eqb_spec (length allLocations) 0) as [Hz|_]; [lia|].
  cbn [outcome calls ret fst snd app]. split; [done|]. by repeat constructor.
Qed.

(** X19.  A stored value that is JSON but holds no [locations] array stays
    as it is: every webhook for the variant throws after the location query,
    at [currentData.locations.findIndex], and nothing is written. *)
Theorem snapshot_without_locations_is_never_repaired admin now p variant m text v :
  getVariant admin (inventoryItemGid p) = inr (Some variant) →
  metafield variant = Some m →
  metafield_value m = VStr text →
  text ≠ EmptyString →
  Json.parse text = inr v →
  (∀ locs, get v "locations" ≠ inr (VArr locs)) →
  ∃ e, handleInventoryUpdate admin now p
       = ([GetVariantWithMetafield (inventoryItemGid p); GetLocationName (locationGid p)],
          inl e)
       ∧ (∀ location, getLocation admin (locationGid p) = inr location →
          ∃ msg, e = TypeError msg).
Proof.
  intros Hv Hm Hval Htext Hparse Hshape.
  assert (Ht : truthy (VStr text) = true) by (by destruct text).
  rewrite (handler_found admin now p variant Hv). cbv zeta.
  rewrite Hm, Hval, Ht. cbn [negb orb to_string].
  rewrite parse_stage_outcome, parse_stage_calls, Hparse. cbv beta iota.
  rewrite merge_calls. cbn [app].
  assert (Hlocs : ∃ msg, locations_of v = inl (TypeError msg)).
  { unfold locations_of. destruct (get v "locations") as [e|x] eqn:Hget.
    - destruct v; simpl in Hget; try done; injection Hget as <-; by eexists.
    - destruct x; try (by eexists). by destruct (Hshape l). }
  destruct Hlocs as [msg Hlocs].
  unfold merge. cbv zeta. rewrite WebhookFacts.outcome_bind. cbn [outcome ask snd].
  destruct (getLocation admin (locationGid p)) as [e|location] eqn:Hloc.
  - exists e. split; [done|]. intros location [=].
  - rewrite WebhookFacts.outcome_bind. cbn [outcome lift snd]. rewrite Hlocs.
    eexists. split; [done|]. intros _ _. by eexists.
Qed.

End WebhookMore.

(** ** The checks on the body of a write's answer *)

Module BodyFacts.
Import Js Body.

(** X20.  Evaluated on the body of an answer to the [metafieldsSet]
    mutation, the handler's test after its write asks for
    [data.metafieldSet], a member such a body does not have: without
    top-level [errors] the test is false whatever [userErrors] holds, so
    that a write the API refused with user errors is taken as done.  The
    test in a task of the run reads [data.metafieldsSet] and does see
    them. *)
Theorem webhook_check_overlooks_user_errors fields :
  update_failed (answer_body None fields) = inr false
  ∧ (∀ e, truthy e = true → update_failed (answer_body (Some e) fields) = inr true)
  ∧ (∀ ues, assoc "userErrors" fields = Some (VArr ues) →
       has_user_errors (answer_body None fields) = inr (0 <? length ues)).
Proof.
  split; [done|]. split.
  - intros e He. unfold update_failed, answer_body. simpl. by rewrite He.
  - intros ues Hues. unfold has_user_errors, answer_body. simpl. rewrite Hues. simpl.
    by destruct ues.
Qed.

End BodyFacts.

(** ** The one-pass synchronisation, when a write fails *)

Module BulkMore.
Import Js Gql Bulk Invariants.

(** X21.  [bulkInventoryMetafields] has no handler around its writes: the
    first write that throws ends the loop, the exception leaves the
    function, and the variants after it are not written. *)
Theorem bulk_stops_at_the_first_failed_write metafieldSet now before variant levels rest e :
  (∀ v ls, v ∈ before → inventoryItem v = Some ls →
           metafieldSet (id v) (inventoryData now ls) = inr tt) →
  inventoryItem variant = Some levels →
  metafieldSet (id variant) (inventoryData now levels) = inl e →
  bulkInventoryMetafields metafieldSet now (before ++ variant :: rest)
  = (bulk_writes now before ++ [MetafieldSet (id variant) (inventoryData now levels)],
     inl e).
Proof.
  intros Hok Hitem Hfail. induction before as [|v before IH]; simpl.
  - rewrite Hitem. unfold mbind, M_bind, bind, ask. by rewrite Hfail.
  - unfold bulk_writes. simpl. destruct (inventoryItem v) as [ls|] eqn:Hv; simpl.
    + unfold mbind, M_bind, bind, ask.
      rewrite (Hok v ls (list_elem_of_here _ _) Hv).
      rewrite IH; [done|]. intros v' ls' Hin. apply Hok. by right.
    + rewrite IH; [done|]. intros v' ls' Hin. apply Hok. by right.
Qed.

End BulkMore.

(** ** The catalogue walk *)

Module CatalogFacts.
Import Js Catalog.

(** X22.  When the API answers each request with the page its cursor
    names, the walk asks for the first page with a [null] cursor, then for
    each next page with the [endCursor] of the page before, stops at the
    first page that announces no next one, and returns the variants of all
    pages in order. *)
Theorem walk_follows_the_cursors graphql pages fuel :
  follows graphql VNull pages →
  length pages ≤ fuel →
  getAllVariantsWithInventory graphql fuel
  = (options <$> cursors VNull pages, Some (inr (concat (nodes <$> pages)))).
Proof.
  unfold getAllVariantsWithInventory.
  change (concat (nodes <$> pages)) with ([] ++ concat (nodes <$> pages)).
  generalize (@nil Bulk.Variant) as allVariants. generalize VNull as cursor. revert fuel.
  induction pages as [|page pages IH]; intros fuel cursor allVariants Hf Hfuel; [done|].
  destruct fuel as [|fuel]; [simpl in Hfuel; lia|].
  destruct pages as [|page2 pages].
  - destruct Hf as [Hpage Hlast]. simpl. rewrite Hpage, Hlast. by rewrite app_nil_r.
  - destruct Hf as (Hpage & Hnext & Hf).
    cbn [loop]. rewrite Hpage, Hnext. cbv zeta.
    rewrite (IH fuel _ _ Hf) by (simpl in *; lia).
    cbn [cursors fmap list_fmap concat]. by rewrite <- app_assoc.
Qed.

(** X23.  The walk passes its cursor as [{cursor}], not as
    [{variables: {cursor}}]: no request carries a [variables] member.  With
    an API that reads the variables of a query from that member alone, every
    request is answered like the first one; when the first page announces a
    next page the loop gets that same page again and again and does not end,
    whatever number of requests it is given. *)
Theorem walk_never_ends_when_cursor_is_no_variable graphql page fuel :
  reads_variables graphql →
  graphql (options VNull) = inr (Some page) →
  hasNextPage page = true →
  (getAllVariantsWithInventory graphql fuel).2 = None
  ∧ length (getAllVariantsWithInventory graphql fuel).1 = fuel
  ∧ Forall (λ o, get o "variables" = inr VUndef) (getAllVariantsWithInventory graphql fuel).1.
Proof.
  intros Hreads Hpage Hnext. unfold getAllVariantsWithInventory.
  generalize (@nil Bulk.Variant) as allVariants. generalize VNull as cursor.
  induction fuel as [|fuel IH]; intros cursor allVariants.
  { by repeat split. }
  cbn [loop]. rewrite (Hreads (options cursor) (options VNull) eq_refl), Hpage, Hnext.
  cbv zeta. specialize (IH (endCursor page) (allVariants ++ nodes page)).
  destruct (loop graphql fuel _ _) as [sent r]. simpl in *.
  destruct IH as (-> & -> & Hsent). repeat split; try done. by constructor.
Qed.

End CatalogFacts.

(** ** The webhook route *)

Module RouteFacts.
Import Js Gql Webhook Route Invariants.

Lemma caught_is_no_success e : caught e ≠ inr 200.
Proof. by destruct e. Qed.

(** X24.  A status 200 for an inventory update means that the handler sent
    its write, as the last request, and that the answer to it carried no
    top-level [errors]; it does not mean that the API accepted the write,
    since [userErrors] are not looked at. *)
Theorem acknowledged_update_was_written body session adm now :
  admin session = Some adm →
  topic session = "INVENTORY_LEVELS_UPDATE" →
  outcome (action body (inr session) now) = inr 200 →
  ∃ reads variant snapshot r,
    calls (action body (inr session) now)
    = reads ++ [MetafieldsSet (variant_id variant) snapshot]
    ∧ Forall (λ c, is_read c = true) reads
    ∧ setMetafields adm (variant_id variant) snapshot = inr r
    ∧ set_errors r = None.
Proof.
  intros Hadm Htopic. unfold action. rewrite Hadm, Htopic. cbn [String.eqb Ascii.eqb Bool.eqb].
  destruct (Json.parse body) as [e|payload]; [intros H; by destruct (caught_is_no_success e)|].
  destruct (destructure payload) as [e|p]; [intros H; by destruct (caught_is_no_success e)|].
  cbn [outcome calls fst snd].
  destruct (WebhookMore.handler_shape adm now p)
    as (reads & Hreads & [[e ->]|(variant & snapshot & Hv & ->)]); cbn [outcome calls fst snd].
  - intros H. by destruct (caught_is_no_success e).
  - unfold after_write. destruct (setMetafields adm _ _) as [e|r] eqn:Hset.
    + intros H. by destruct (caught_is_no_success e).
    + unfold write_failed. destruct (set_errors r) eqn:Herr; [done|].
      intros _. by exists reads, variant, snapshot, r.
Qed.

(** X25.  The route does not check that the body is an object.  A body
    that is the JSON [null] makes the handler throw at its first statement,
    before any request; a body that is a number, a string, a boolean or an
    array is destructured into three [undefined]s, and the handler asks for
    the variant of the inventory item [gid://shopify/InventoryItem/undefined]. *)
Theorem body_that_is_no_object body v session adm now :
  Json.parse body = inr v →
  admin session = Some adm →
  topic session = "INVENTORY_LEVELS_UPDATE" →
  (v = VNull → action body (inr session) now = ([], inr 500))
  ∧ (v ≠ VNull → v ≠ VUndef → (∀ l, v ≠ VObj l) →
     ∃ rest, calls (action body (inr session) now)
             = GetVariantWithMetafield "gid://shopify/InventoryItem/undefined" :: rest).
Proof.
  intros Hparse Hadm Htopic. unfold action.
  rewrite Hparse, Hadm, Htopic. cbn [String.eqb Ascii.eqb Bool.eqb].
  split; [by intros ->|]. intros Hnull Hundef Hobj.
  assert (Hp : destructure v = inr {| inventory_item_id := VUndef; location_id := VUndef;
                                      available := VUndef |}).
  { destruct v; try done. by destruct (Hobj l). }
  rewrite Hp. cbn [calls fst]. unfold handleInventoryUpdate. cbv zeta.
  apply WebhookFacts.calls_bind_prefix.
Qed.

End RouteFacts.

(** ** [JSON.parse] reads back what [JSON.stringify] writes *)

Module RoundTrip.
Import Js Json Stringify.

(** *** Strings *)

Lemma append_cons c (s t : string) : String c s +:+ t = String c (s +:+ t).
Proof. reflexivity. Qed.

Lemma append_nil_r (s : string) : s +:+ EmptyString = s.
Proof. induction s as [|c s IH]; [done|]. by rewrite append_cons, IH. Qed.

Lemma append_assoc (a b c : string) : (a +:+ b) +:+ c = a +:+ b +:+ c.
Proof. induction a as [|x a IH]; [done|]. by rewrite !append_cons, IH. Qed.

Lemma length_append (a b : string) :
  String.length (a +:+ b) = String.length a + String.length b.
Proof. induction a as [|x a IH]; [done|]. rewrite append_cons. simpl. by rewrite IH. Qed.

Lemma substring_all (s : string) : substring 0 (String.length s) s = s.
Proof. induction s as [|c s IH]; simpl; [done|by f_equal]. Qed.

Lemma stops_cases rest :
  stops rest = true →
  rest = EmptyString ∨ ∃ r, rest = String "," r ∨ rest = String "]" r ∨ rest = String "}" r.
Proof.
  destruct rest as [|c r]; [by left|]. simpl. intros H. right. exists r.
  destruct (Ascii.eqb_spec c ","); [left; congruence|].
  destruct (Ascii.eqb_spec c "]"); [right; left; congruence|].
  destruct (Ascii.eqb_spec c "}"); [right; right; congruence|done].
Qed.

Lemma string_body_escape_char c tail :
  string_body (escape_char c +:+ tail)
  = match string_body tail with
    | inr (t, r) => inr (String c t, r)
    | inl e => inl e
    end.
Proof.
  destruct c as [[] [] [] [] [] [] [] []]; reflexivity.
Qed.

Lemma string_body_escape s rest :
  string_body (escape s +:+ String QUOTE rest) = inr (s, rest).
Proof.
  induction s as [|c s IH]; [done|].
  cbn [escape]. by rewrite append_assoc, string_body_escape_char, IH.
Qed.

(** *** Numbers *)

Lemma span_digits_stops rest : stops rest = true → span_digits rest = (EmptyString, rest).
Proof.
  intros H. destruct (stops_cases rest H) as [-> | [r [-> | [-> | ->]]]]; reflexivity.
Qed.

Lemma span_digits_uint d rest :
  stops rest = true →
  span_digits (NilEmpty.string_of_uint d +:+ rest) = (NilEmpty.string_of_uint d, rest).
Proof.
  intros H. induction d; cbn [NilEmpty.string_of_uint]; rewrite ?append_cons;
    [by apply span_digits_stops|..]; cbn [span_digits]; by rewrite IHd.
Qed.

Lemma after_number rest :
  stops rest = true →
  match rest with
  | String "." r =>
      let '(fp, s3) := span_digits r in
      if String.eqb fp EmptyString then inl SyntaxError else inr (fp, s3)
  | _ => inr (EmptyString, rest)
  end = inr (EmptyString, rest)
  ∧ match rest with
    | String ("e" | "E") r =>
        let '(eneg, r1) :=
          match r with
          | String "-" r' => (true, r')
          | String "+" r' => (false, r')
          | _ => (false, r)
          end in
        let '(ep, s4) := span_digits r1 in
        if String.eqb ep EmptyString then inl SyntaxError
        else inr (signed eneg (Z_of_digits ep), s4)
    | _ => inr (0%Z, rest)
    end = inr (0%Z, rest).
Proof.
  intros H. destruct (stops_cases rest H) as [-> | [r [-> | [-> | ->]]]]; by split.
Qed.

Lemma append_nil_l (s : string) : EmptyString +:+ s = s.
Proof. reflexivity. Qed.

Lemma number_digits (neg : bool) d rest :
  no_leading_zero d →
  stops rest = true →
  number ((if neg then "-" else EmptyString) +:+ NilEmpty.string_of_uint d +:+ rest)
  = inr (VNum (signed neg (Z.of_uint d)), rest).
Proof.
  intros Hd Hrest. pose proof (span_digits_uint d rest Hrest) as Hspan.
  pose proof (JsFacts.digit_prefix_string_of_uint d) as Hp.
  destruct (after_number rest Hrest) as [Hfrac Hexp].
  assert (Hfinal : ∀ ip : string,
             digit_prefix ip = d →
             (if (400 <? Z.abs (0 - Z.of_nat (String.length EmptyString)))%Z
              then inl NotModelled
              else if (0 <=? 0 - Z.of_nat (String.length EmptyString))%Z
                   then inr (VNum (signed neg (Z_of_digits (ip +:+ EmptyString)
                                               * 10 ^ (0 - Z.of_nat (String.length EmptyString)))),
                             rest)
                   else if (Z_of_digits (ip +:+ EmptyString)
                              `mod` 10 ^ (- (0 - Z.of_nat (String.length EmptyString))) =? 0)%Z
                        then inr (VNum (signed neg
                                          (Z_of_digits (ip +:+ EmptyString)
                                             `div` 10 ^ (- (0 - Z.of_nat (String.length EmptyString))))),
                                  rest)
                        else inl NotModelled)
             = inr (VNum (signed neg (Z.of_uint d)), rest)).
  { intros ip Hip. simpl. rewrite append_nil_r. unfold Z_of_digits. rewrite Hip.
    by rewrite Z.mul_1_r. }
  unfold number.
  destruct neg; destruct d as [|d|d|d|d|d|d|d|d|d|d]; try done;
    cbn [NilEmpty.string_of_uint] in *; rewrite ?append_cons, ?append_nil_l in *;
    try (simpl in Hd; subst d); rewrite ?append_nil_l in *;
    cbv beta iota; rewrite Hspan; cbv beta iota;
    cbn [Ascii.eqb Bool.eqb andb negb String.eqb]; rewrite Hfrac; cbv beta iota;
    rewrite Hexp; cbv beta iota; by apply Hfinal.
Qed.

Lemma to_uint_no_leading_zero p : no_leading_zero (Pos.to_uint p).
Proof.
  pose proof (Unsigned.to_of (Pos.to_uint p)) as H. rewrite Unsigned.of_to in H.
  change (N.to_uint (N.pos p)) with (Pos.to_uint p) in H.
  pose proof (Unsigned.to_uint_nonzero p) as Hnz.
  pose proof (Unsigned.to_uint_nonnil p) as Hnn.
  unfold unorm in H. destruct (nzhead (Pos.to_uint p)) eqn:Hh; [by destruct Hnz| |..];
    rewrite H; try done.
  by destruct (DecimalFacts.nzhead_nonzero (Pos.to_uint p) u).
Qed.

Lemma string_of_nonnil d : d ≠ Nil → NilZero.string_of_uint d = NilEmpty.string_of_uint d.
Proof. by destruct d. Qed.

Lemma number_string_of_Z z rest :
  stops rest = true → number (string_of_Z z +:+ rest) = inr (VNum z, rest).
Proof.
  intros Hrest. unfold string_of_Z. destruct z as [|p|p].
  - apply (number_digits false (D0 Nil) rest eq_refl Hrest).
  - cbn [Z.to_int NilZero.string_of_int].
    rewrite string_of_nonnil by apply Unsigned.to_uint_nonnil.
    rewrite <- (append_nil_l (_ +:+ rest)).
    rewrite (number_digits false _ rest (to_uint_no_leading_zero p) Hrest).
    simpl. unfold Z.of_uint. by rewrite Unsigned.of_to.
  - cbn [Z.to_int NilZero.string_of_int].
    rewrite string_of_nonnil by apply Unsigned.to_uint_nonnil.
    rewrite append_cons. change (String "-" ?x) with ("-" +:+ x).
    rewrite (number_digits true _ rest (to_uint_no_leading_zero p) Hrest).
    simpl. unfold Z.of_uint. by rewrite Unsigned.of_to.
Qed.

Lemma skip_ws_opens t rest : opens t = true → skip_ws (t +:+ rest) = t +:+ rest.
Proof.
  destruct t as [|c t]; [done|]. simpl. intros H. rewrite append_cons. cbn [skip_ws].
  by destruct (is_ws c).
Qed.

Lemma skip_ws_char c r : is_ws c = false → skip_ws (String c r) = String c r.
Proof. intros H. cbn [skip_ws]. by rewrite H. Qed.

Lemma opens_string_of_uint d : d ≠ Nil → opens (NilEmpty.string_of_uint d) = true.
Proof. by destruct d. Qed.

Lemma opens_string_of_Z z : opens (string_of_Z z) = true.
Proof.
  unfold string_of_Z. destruct z as [|p|p]; [done| |done].
  cbn [Z.to_int NilZero.string_of_int].
  rewrite string_of_nonnil by apply Unsigned.to_uint_nonnil.
  apply opens_string_of_uint, Unsigned.to_uint_nonnil.
Qed.

(** *** The parser on each form of value *)

Lemma parse_value_number fuel z rest :
  parse_value (S fuel) (string_of_Z z +:+ rest) = number (string_of_Z z +:+ rest).
Proof.
  unfold string_of_Z. destruct z as [|p|p]; [done| |done].
  cbn [Z.to_int NilZero.string_of_int].
  rewrite string_of_nonnil by apply Unsigned.to_uint_nonnil.
  pose proof (Unsigned.to_uint_nonnil p) as Hnn.
  by destruct (Pos.to_uint p).
Qed.

Lemma parse_value_string fuel r :
  parse_value (S fuel) (String QUOTE r)
  = match string_body r with
    | inr (t, r') => inr (VStr t, r')
    | inl e => inl e
    end.
Proof. reflexivity. Qed.

Lemma parse_value_array fuel r :
  parse_value (S fuel) (String "[" r)
  = match skip_ws r with
    | String "]" r' => inr (VArr [], r')
    | _ => elements_of (parse_value fuel) (S (String.length r)) [] r
    end.
Proof. reflexivity. Qed.

Lemma parse_value_object fuel r :
  parse_value (S fuel) (String "{" r)
  = match skip_ws r with
    | String "}" r' => inr (VObj [], r')
    | _ => members_of (parse_value fuel) (S (String.length r)) [] r
    end.
Proof. reflexivity. Qed.

Lemma literal_append lit v rest : literal lit v (lit +:+ rest) = inr (v, rest).
Proof.
  unfold literal.
  assert (Hp : String.prefix lit (lit +:+ rest) = true).
  { induction lit as [|c lit IH]; [by destruct rest|].
    rewrite append_cons. cbn [String.prefix]. by destruct (ascii_dec c c). }
  assert (Hs : substring (String.length lit)
                 (String.length (lit +:+ rest) - String.length lit) (lit +:+ rest) = rest).
  { clear Hp. induction lit as [|c lit IH].
    - rewrite append_nil_l. cbn [String.length]. by rewrite Nat.sub_0_r, substring_all.
    - rewrite append_cons. cbn [String.length substring Nat.sub]. apply IH. }
  by rewrite Hp, Hs.
Qed.

Lemma parse_value_null fuel rest : parse_value (S fuel) ("null" +:+ rest) = inr (VNull, rest).
Proof. apply (literal_append "null" VNull rest). Qed.

Lemma parse_value_true fuel rest :
  parse_value (S fuel) ("true" +:+ rest) = inr (VBool true, rest).
Proof. apply (literal_append "true" (VBool true) rest). Qed.

Lemma parse_value_false fuel rest :
  parse_value (S fuel) ("false" +:+ rest) = inr (VBool false, rest).
Proof. apply (literal_append "false" (VBool false) rest). Qed.

(** *** Values, by induction *)

Lemma value_nested_ind (P : value → Prop) :
  P VUndef → P VNull → (∀ b, P (VBool b)) → (∀ z, P (VNum z)) → P VNaN →
  (∀ s, P (VStr s)) →
  (∀ l, Forall P l → P (VArr l)) →
  (∀ l, Forall (λ kv, P kv.2) l → P (VObj l)) →
  ∀ v, P v.
Proof.
  intros HU HN HB HZ HNaN HS HA HO.
  fix IH 1. intros [| |b|z| |s|l|l];
    [apply HU|apply HN|apply HB|apply HZ|apply HNaN|apply HS| |].
  - apply HA. induction l as [|x l IHl]; constructor; [apply IH|apply IHl].
  - apply HO. induction l as [|[k x] l IHl]; constructor; [apply IH|apply IHl].
Qed.

Lemma join_cons t ts :
  join "," (t :: ts) = match ts with [] => t | _ => t +:+ String "," (join "," ts) end.
Proof. by destruct ts. Qed.

Lemma opens_length t : opens t = true → 1 ≤ String.length t.
Proof. destruct t; [done|]. simpl. lia. Qed.

Lemma length_join_part t parts :
  t ∈ parts → String.length t ≤ String.length (join "," parts).
Proof.
  induction parts as [|p parts IH]; [by intros ?%elem_of_nil|].
  rewrite join_cons. intros [->|Hin]%elem_of_cons.
  - destruct parts; [done|]. rewrite length_append. lia.
  - destruct parts as [|q parts]; [by apply elem_of_nil in Hin|].
    specialize (IH Hin). rewrite length_append. cbn [String.length]. lia.
Qed.

Lemma length_join_count parts :
  (∀ t, t ∈ parts → 1 ≤ String.length t) → length parts ≤ String.length (join "," parts).
Proof.
  induction parts as [|p parts IH]; [simpl; lia|]. intros Hall.
  rewrite join_cons. pose proof (Hall p (list_elem_of_here _ _)) as Hp.
  destruct parts as [|q parts]; [simpl; lia|].
  rewrite length_append. cbn [String.length length].
  assert (length (q :: parts) ≤ String.length (join "," (q :: parts))).
  { apply IH. intros t Ht. apply Hall. by right. }
  cbn [length] in *. lia.
Qed.

Lemma elements_read fuel rest l parts :
  Forall2 reads_back l parts →
  (∀ t, t ∈ parts → String.length t < fuel) →
  l ≠ [] →
  ∀ n acc, length l ≤ n →
    elements_of (parse_value fuel) n acc (join "," parts +:+ String "]" rest)
    = inr (VArr (acc ++ l), rest).
Proof.
  induction 1 as [|x t xs ts [Hopen Hread] Hrest IH]; [done|].
  intros Hfuel _ n acc Hn. destruct n as [|n]; [simpl in Hn; lia|].
  assert (Ht : String.length t < fuel) by (apply Hfuel; by left).
  rewrite join_cons. destruct Hrest as [|x2 t2 xs ts H2 Hrest].
  - cbn [elements_of]. rewrite (skip_ws_opens t _ Hopen), (Hread fuel) by done.
    by rewrite skip_ws_char by reflexivity.
  - rewrite append_assoc, append_cons. cbn [elements_of].
    rewrite (skip_ws_opens t _ Hopen), (Hread fuel) by done.
    rewrite skip_ws_char by reflexivity. cbv beta iota.
    fold (elements_of (parse_value fuel)).
    rewrite IH; [by rewrite <- app_assoc| |done|simpl in *; lia].
    intros t' Ht'. apply Hfuel. by right.
Qed.

Lemma assoc_set_fresh k v acc : k ∉ acc.*1 → assoc_set k v acc = acc ++ [(k, v)].
Proof.
  induction acc as [|[k' v'] acc IH]; [done|]. cbn [assoc_set fmap list_fmap fst app].
  intros Hnot. destruct (String.eqb_spec k k') as [->|Hne].
  - exfalso. apply Hnot. by left.
  - rewrite IH; [done|]. intros Hin. apply Hnot. by right.
Qed.

Lemma member_part_append k t rest :
  member_part k t +:+ rest
  = String QUOTE (escape k +:+ String QUOTE (String ":" (t +:+ rest))).
Proof.
  unfold member_part, quote. by rewrite !append_cons, !append_assoc, !append_cons, append_nil_l.
Qed.

Lemma members_read fuel rest l ts :
  Forall2 (λ kv t, reads_back kv.2 t) l ts →
  (∀ t, t ∈ ts → String.length t < fuel) →
  l ≠ [] →
  ∀ n acc, length l ≤ n → NoDup (acc.*1 ++ l.*1) →
    members_of (parse_value fuel) n acc
      (join "," (zip_with (λ kv t, member_part kv.1 t) l ts) +:+ String "}" rest)
    = inr (VObj (acc ++ l), rest).
Proof.
  induction 1 as [|[k x] t xs ts [Hopen Hread] Hrest IH]; [done|].
  intros Hfuel _ n acc Hn Hnd. destruct n as [|n]; [simpl in Hn; lia|].
  assert (Ht : String.length t < fuel) by (apply Hfuel; by left).
  assert (Hfresh : k ∉ acc.*1).
  { apply NoDup_app in Hnd as (_ & Hdis & _). intros Hin. apply (Hdis k Hin). by left. }
  cbn [zip_with fst snd] in *. rewrite join_cons.
  destruct Hrest as [|[k2 x2] t2 xs ts H2 Hrest]; cbn [zip_with].
  - rewrite member_part_append. cbn [members_of].
    rewrite skip_ws_char by reflexivity. rewrite string_body_escape.
    rewrite skip_ws_char by reflexivity.
    rewrite (skip_ws_opens t _ Hopen), (Hread fuel) by done.
    rewrite skip_ws_char by reflexivity. by rewrite assoc_set_fresh.
  - rewrite append_assoc, member_part_append, append_cons. cbn [members_of].
    rewrite skip_ws_char by reflexivity. rewrite string_body_escape.
    rewrite skip_ws_char by reflexivity.
    rewrite (skip_ws_opens t _ Hopen), (Hread fuel) by done.
    rewrite skip_ws_char by reflexivity. cbv beta iota.
    fold (members_of (parse_value fuel)). rewrite assoc_set_fresh by done.
    rewrite (IH (λ t' Ht', Hfuel t' (list_elem_of_further _ _ _ Ht'))); first by rewrite <- app_assoc.
    + done.
    + simpl in *. lia.
    + rewrite fmap_app, <- app_assoc. done.
Qed.

Lemma parse_value_array_nonempty fuel t r :
  opens t = true →
  parse_value (S fuel) (String "[" (t +:+ r))
  = elements_of (parse_value fuel) (S (String.length (t +:+ r))) [] (t +:+ r).
Proof.
  intros H. rewrite parse_value_array, (skip_ws_opens t r H).
  destruct t as [|c t]; [done|]. rewrite append_cons. cbn [opens] in H.
  destruct c as [[] [] [] [] [] [] [] []]; try done.
Qed.

Lemma parse_value_object_nonempty fuel r :
  parse_value (S fuel) (String "{" (String QUOTE r))
  = members_of (parse_value fuel) (S (String.length (String QUOTE r))) [] (String QUOTE r).
Proof. rewrite parse_value_object. by rewrite skip_ws_char by reflexivity. Qed.

Lemma plain_element x : plain x = true → element_text stringify x = stringify x.
Proof. by destruct x. Qed.

Lemma element_texts_read l :
  Forall (λ v, plain v = true → ∃ t, stringify v = inr t ∧ reads_back v t) l →
  forallb plain l = true →
  ∃ parts, element_texts stringify l = inr parts ∧ Forall2 reads_back l parts.
Proof.
  induction 1 as [|x l Hx _ IH]; [by exists []|].
  cbn [forallb]. intros [Hp Hl]%andb_true_iff.
  destruct (Hx Hp) as (t & Ht & Hread). destruct (IH Hl) as (parts & Hparts & Hall).
  exists (t :: parts). cbn [element_texts]. rewrite (plain_element x Hp), Ht, Hparts.
  split; [done|]. by constructor.
Qed.

Lemma member_texts_read l :
  Forall (λ kv, plain kv.2 = true → ∃ t, stringify kv.2 = inr t ∧ reads_back kv.2 t) l →
  forallb (λ kv, let '(k, x) := kv in negb (index_like k) && plain x) l = true →
  ∃ ts, member_texts stringify l = inr (zip_with (λ kv t, member_part kv.1 t) l ts)
        ∧ Forall2 (λ kv t, reads_back kv.2 t) l ts.
Proof.
  induction 1 as [|[k x] l Hx _ IH]; [by exists []|].
  cbn [forallb]. intros [[Hk Hp]%andb_true_iff Hl]%andb_true_iff.
  cbn [snd] in Hx. destruct (Hx Hp) as (t & Ht & Hread).
  destruct (IH Hl) as (ts & Hts & Hall).
  exists (t :: ts). cbn [member_texts zip_with fst]. apply negb_true_iff in Hk.
  rewrite Hk, Ht, Hts. split; [by destruct x|]. by constructor.
Qed.

Lemma stringify_reads_back v :
  plain v = true → ∃ t, stringify v = inr t ∧ reads_back v t.
Proof.
  induction v as [| |b|z| |s|l IH|l IH] using value_nested_ind; intros Hplain; try done.
  - exists "null". split; [done|]. split; [done|].
    intros [|fuel] rest Hlen Hrest; [simpl in Hlen; lia|]. apply parse_value_null.
  - exists (if b then "true" else "false"). split; [done|]. split; [by destruct b|].
    intros [|fuel] rest Hlen Hrest; [simpl in Hlen; lia|].
    destruct b; [apply parse_value_true|apply parse_value_false].
  - cbn [plain] in Hplain. exists (string_of_Z z). cbn [stringify]. rewrite Hplain.
    split; [done|]. split; [apply opens_string_of_Z|].
    intros [|fuel] rest Hlen Hrest; [simpl in Hlen; lia|].
    rewrite parse_value_number. by apply number_string_of_Z.
  - exists (quote s). split; [done|]. split; [done|].
    intros [|fuel] rest Hlen Hrest; [simpl in Hlen; lia|].
    unfold quote. rewrite append_cons, append_assoc, append_cons, append_nil_l.
    by rewrite parse_value_string, string_body_escape.
  - cbn [plain] in Hplain. destruct (element_texts_read l IH Hplain) as (parts & Hparts & Hall).
    exists (brackets "[" "]" parts). cbn [stringify]. rewrite Hparts.
    split; [done|]. split; [done|].
    intros [|fuel] rest Hlen Hrest; [simpl in Hlen; lia|].
    unfold brackets in *. rewrite append_cons, append_assoc, append_cons, append_nil_l.
    cbn [String.length] in Hlen. rewrite length_append in Hlen. cbn [String.length] in Hlen.
    destruct Hall as [|x t xs ts Hx Hxs].
    { rewrite parse_value_array. cbn [join String.concat]. rewrite append_nil_l.
      by rewrite skip_ws_char by reflexivity. }
    rewrite join_cons.
    assert (Hopen : opens (match ts with [] => t | _ :: _ => t +:+ String "," (join "," ts) end)
                    = true).
    { destruct Hx as [Hopen _]. destruct ts; [done|]. destruct t; [done|]. done. }
    assert (Hall : Forall2 reads_back (x :: xs) (t :: ts)) by (by constructor).
    assert (Hparts_open : ∀ p, p ∈ t :: ts → 1 ≤ String.length p).
    { intros p Hp. apply list_elem_of_lookup in Hp as [j Hj].
      destruct (Forall2_lookup_r _ _ _ _ _ Hall Hj) as (y & _ & [Ho _]).
      by apply opens_length. }
    pose proof (length_join_count (t :: ts) Hparts_open) as Hcount.
    rewrite join_cons in Hcount, Hlen.
    rewrite (parse_value_array_nonempty fuel _ _ Hopen). rewrite <- join_cons.
    change (VArr (x :: xs)) with (VArr ([] ++ x :: xs)).
    apply elements_read; [done| |done|].
    + intros p Hp. pose proof (length_join_part p (t :: ts) Hp) as Hle.
      rewrite join_cons in Hle. lia.
    + rewrite length_append. rewrite (Forall2_length _ _ _ Hall).
      rewrite join_cons. cbn [String.length]. lia.
  - cbn [plain] in Hplain. apply andb_true_iff in Hplain as [Hplain Hnd].
    apply bool_decide_eq_true in Hnd.
    destruct (member_texts_read l IH Hplain) as (ts & Hts & Hall).
    exists (brackets "{" "}" (zip_with (λ kv t, member_part kv.1 t) l ts)).
    cbn [stringify]. rewrite Hts. split; [done|]. split; [done|].
    intros [|fuel] rest Hlen Hrest; [simpl in Hlen; lia|].
    unfold brackets in *. rewrite append_cons, append_assoc, append_cons, append_nil_l.
    cbn [String.length] in Hlen. rewrite length_append in Hlen. cbn [String.length] in Hlen.
    destruct Hall as [|[k x] t xs ts Hx Hxs].
    { rewrite parse_value_object. cbn [zip_with join String.concat]. rewrite append_nil_l.
      by rewrite skip_ws_char by reflexivity. }
    assert (Hall : Forall2 (λ kv t, reads_back kv.2 t) ((k, x) :: xs) (t :: ts))
      by (by constructor).
    set (parts := zip_with (λ kv t, member_part kv.1 t) ((k, x) :: xs) (t :: ts)) in *.
    assert (Hhead : ∃ r, join "," parts +:+ String "}" rest = String QUOTE r).
    { subst parts. cbn [zip_with fst]. rewrite join_cons.
      destruct (zip_with _ xs ts); unfold member_part, quote;
        rewrite ?append_cons; by eexists. }
    destruct Hhead as [r Hr].
    assert (Hpart_len : ∀ j kv t', ((k, x) :: xs) !! j = Some kv → (t :: ts) !! j = Some t' →
                                   String.length t' < String.length (join "," parts)).
    { intros j kv t' Hkv Ht'.
      assert (Hin : member_part kv.1 t' ∈ parts).
      { subst parts. apply list_elem_of_lookup. exists j.
        rewrite lookup_zip_with, Hkv. simpl. by rewrite Ht'. }
      pose proof (length_join_part _ _ Hin) as Hle.
      unfold member_part, quote in Hle. rewrite length_append in Hle.
      cbn [String.length] in Hle. lia. }
    assert (Hcount : length ((k, x) :: xs) ≤ String.length (join "," parts)).
    { assert (length parts = length ((k, x) :: xs)) as <-.
      { subst parts. rewrite length_zip_with.
        rewrite (Forall2_length _ _ _ Hall). lia. }
      apply length_join_count. intros p Hp. subst parts.
      apply list_elem_of_lookup in Hp as [j Hj]. rewrite lookup_zip_with in Hj.
      destruct (((k, x) :: xs) !! j) as [kv|]; [|done]. simpl in Hj.
      destruct ((t :: ts) !! j) as [t'|]; [|done]. simpl in Hj. injection Hj as <-.
      unfold member_part, quote. rewrite length_append. cbn [String.length]. lia. }
    rewrite Hr, parse_value_object_nonempty, <- Hr.
    change (VObj ((k, x) :: xs)) with (VObj ([] ++ (k, x) :: xs)).
    apply members_read; [done| |done| |done].
    + intros p Hp. apply list_elem_of_lookup in Hp as [j Hj].
      destruct (Forall2_lookup_r _ _ _ _ _ Hall Hj) as (kv & Hkv & _).
      pose proof (Hpart_len j kv p Hkv Hj). lia.
    + rewrite length_append. cbn [String.length]. lia.
Qed.

Lemma parse_stringify_text v t :
  plain v = true → stringify v = inr t → Json.parse t = inr v.
Proof.
  intros Hp Ht. destruct (stringify_reads_back v Hp) as (t' & Ht' & Hopen & Hread).
  assert (t' = t) as -> by congruence.
  unfold parse. rewrite <- (append_nil_r t) at 2. rewrite (skip_ws_opens t _ Hopen).
  rewrite Hread; [done|simpl; lia|done].
Qed.

End RoundTrip.

(** ** A snapshot written by the run, stored, and read by the handler *)

Module StoredSnapshot.
Import Js Gql Webhook Invariants Stringify.

Lemma object_text_is_not_empty l text : stringify (VObj l) = inr text → text ≠ EmptyString.
Proof.
  cbn [stringify]. destruct (member_texts stringify l); [done|]. by intros [= <-].
Qed.

(** X27.  [JSON.parse] reads back what [JSON.stringify] writes: a value
    without [undefined] and [NaN], whose integers a double holds exactly and
    whose objects have distinct keys that are no array indices, has a text,
    and the text parses to the value itself.  Snapshots are stored by the one
    and loaded by the other. *)
Theorem parse_reads_back_stringify v :
  plain v = true →
  ∃ text, stringify v = inr text ∧ Json.parse text = inr v.
Proof.
  intros Hp. destruct (RoundTrip.stringify_reads_back v Hp) as (t & Ht & _).
  exists t. split; [done|]. by apply RoundTrip.parse_stringify_text.
Qed.


(** X30.  A webhook delivered twice writes the same snapshot twice.  When
    the metafield holds the text of the snapshot that the merge of an update
    with a numeric [location_id] has produced, the handler, given the same
    update again (same clock reading and location name), parses the text
    back, finds the update's own record and writes the snapshot it has
    read. *)
Theorem redelivery_writes_the_same_snapshot
    admin now p n obj locs location merged text variant m :
  location_id p = VNum n →
  assoc "locations" obj = Some (VArr locs) →
  Forall (λ loc, is_object loc = true) locs →
  getLocation admin (locationGid p) = inr location →
  outcome (merge admin now p (VObj obj)) = inr merged →
  plain merged = true →
  stringify merged = inr text →
  getVariant admin (inventoryItemGid p) = inr (Some variant) →
  metafield variant = Some m →
  metafield_value m = VStr text →
  handleInventoryUpdate admin now p
  = ([GetVariantWithMetafield (inventoryItemGid p);
      GetLocationName (locationGid p);
      MetafieldsSet (variant_id variant) merged],
     after_write (setMetafields admin (variant_id variant) merged)).
Proof.
  intros Hp Ha Hobj Hloc Hfirst Hplain Htext Hv Hm Hval.
  pose proof (RoundTrip.parse_stringify_text _ _ Hplain Htext) as Hparse.
  assert (Hmerged : ∃ l, merged = VObj l).
  { rewrite (WebhookFacts.merge_records admin now p obj locs location Ha Hobj Hloc) in Hfirst.
    injection Hfirst as <-. by eexists. }
  destruct Hmerged as [l ->].
  pose proof (object_text_is_not_empty _ _ Htext) as Hne.
  assert (Ht : truthy (VStr text) = true) by (by destruct text).
  pose proof (WebhookMore.merge_again admin now p n obj locs location _ Hp Ha Hobj Hloc Hfirst)
    as Hagain.
  rewrite (WebhookMore.handler_found admin now p variant Hv). cbv zeta.
  rewrite Hm, Hval, Ht. cbn [negb orb to_string].
  rewrite WebhookMore.parse_stage_outcome, WebhookMore.parse_stage_calls, Hparse.
  cbv beta iota. by rewrite Hagain, WebhookMore.merge_calls.
Qed.

End StoredSnapshot.

(** ** The further statements at sample inputs *)

Module MoreSamples.
Import Js Gql Limiter Sync Webhook Examples MoreExamples StoredExamples Invariants Stringify.

(** Two tasks under a limit of 2, the second of which rejects. *)
Lemma rejection_sample :
  1 ≤ 2
  ∧ (∃ j e, one_rejects !! j = Some (Rejected e))
  ∧ ∃ e, parallelLimit one_rejects 2 (λ _, 0) = inl e
         ∧ ∃ j, one_rejects !! j = Some (Rejected e).
Proof.
  assert (H1 : 1 ≤ 2) by (repeat constructor).
  assert (H2 : ∃ j e, one_rejects !! j = Some (Rejected e)).
  { exists 1, (Error "boom"). reflexivity. }
  split; [exact H1|]. split; [exact H2|].
  exact (LimiterMore.parallelLimit_rejects_with_a_task one_rejects 2 (λ _, 0) H1 H2).
Defined.

(** The same tasks under a limit of 0. *)
Lemma no_worker_sample :
  (0 = 0 ∨ one_rejects = [])
  ∧ parallelLimit one_rejects 0 (λ _, 0) = inr []
  ∧ started one_rejects 0 (λ _, 0) = 0.
Proof.
  assert (H : 0 = 0 ∨ one_rejects = []) by (left; reflexivity).
  split; [exact H|].
  exact (LimiterMore.parallelLimit_without_worker one_rejects 0 (λ _, 0) H).
Defined.

(** The summary of the failing run. *)
Lemma summary_counters_sample :
  let p := variantUpdateProgress (server (exec initial failing_run).1) in
  ∃ sm, summary p = Some sm
        ∧ sm = Finished (processedVariants p) (totalVariants p) (currentBatch p)
                 (summary_text (processedVariants p) (currentBatch p))
        ∧ success sm = true
        ∧ isProcessing p = false
        ∧ is_Some (completedAt p).
Proof.
  eexists. split; [reflexivity|].
  exact (RunMore.summary_repeats_the_counters failing_run _ eq_refl).
Defined.

(** The failing page query appends its entry to [errors]. *)
Lemma errors_grow_sample :
  let e := Background (BatchAnswer (batch_of (inl (Error "fetch failed")))) in
  let s := (exec initial (take 4 failing_run)).1 in
  (∀ r, (step s e).2 ≠ Responded r true)
  ∧ errors (variantUpdateProgress (server s))
      `prefix_of` errors (variantUpdateProgress (server (step s e).1)).
Proof.
  assert (H : ∀ r, (step (exec initial (take 4 failing_run)).1
                      (Background (BatchAnswer (batch_of (inl (Error "fetch failed")))))).2
                   ≠ Responded r true).
  { intros r. discriminate. }
  split; [exact H|].
  exact (RunMore.errors_only_grow_within_a_run (take 4 failing_run) _ H).
Defined.

(** Two status queries right after the start of the failing run. *)
Lemma polling_sample :
  let s := (exec initial (take 1 failing_run)).1 in
  isRunning (server s) = true
  ∧ (exec s (status_queries ["t1"; "t2"])).2
    = ((λ _, Responded (ProgressJson (variantUpdateProgress (server s)) false None) false)
         <$> ["t1"; "t2"])
  ∧ (exec initial (take 1 failing_run ++ status_queries ["t1"; "t2"] ++ drop 1 failing_run)).1
    = (exec initial (take 1 failing_run ++ drop 1 failing_run)).1.
Proof.
  split; [reflexivity|].
  exact (RunMore.polling_is_invisible_to_a_run (take 1 failing_run) (drop 1 failing_run)
           ["t1"; "t2"] eq_refl).
Defined.

(** A run of two pages that are both answered. *)
Lemma two_page_run_sample :
  isRunning (server initial) = false
  ∧ Forall2 answers [answered first_page; answered last_page] [first_page; last_page]
  ∧ chained [first_page; last_page]
  ∧ (let s' := (exec initial (run_events "t0" (inr (Some 3))
                                [answered first_page; answered last_page])).1 in
     let p' := variantUpdateProgress (server s') in
     isProcessing p' = false
     ∧ processedVariants p' = 3
     ∧ totalVariants p' = 3
     ∧ currentBatch p' = 2).
Proof.
  assert (H1 : Forall2 answers [answered first_page; answered last_page]
                 [first_page; last_page]).
  { repeat constructor. }
  assert (H2 : chained [first_page; last_page]) by (split; reflexivity).
  split; [reflexivity|]. split; [exact H1|]. split; [exact H2|].
  pose proof (RunMore.uninterrupted_run initial "t0" (inr (Some 3))
                [answered first_page; answered last_page] [first_page; last_page]
                eq_refl H1 H2) as H.
  cbv zeta in H. destruct H as (_ & _ & Hp & Hn & Ht & Hb & _).
  cbv zeta. exact (conj Hp (conj Hn (conj Ht Hb))).
Defined.


(** The sample payload against a snapshot written by
    [bulkInventoryMetafields]. *)
Lemma bulk_record_sample :
  (∀ s, location_id payload ≠ VStr s)
  ∧ ∃ recs,
      Bulk.inventoryData "t1" [bulk_level] = VObj [("locations", VArr recs)]
      ∧ length recs = length [bulk_level]
      ∧ merge (shop None two_levels) "now" payload (Bulk.inventoryData "t1" [bulk_level])
        = ([GetLocationName (locationGid payload)],
           inr (VObj [("locations",
                       VArr (recs ++ [updatedLocation "now" (Some "A") payload]))])).
Proof.
  assert (H : ∀ s, location_id payload ≠ VStr s) by (intros s; discriminate).
  split; [exact H|].
  exact (WebhookMore.webhook_appends_to_a_bulk_snapshot (shop None two_levels) "t1" "now"
           payload [bulk_level] (Some "A") H eq_refl).
Defined.

(** The sample payload, delivered a second time. *)
Lemma second_delivery_sample :
  ∃ merged,
    outcome (merge (shop None two_levels) "now" payload
               (VObj [("locations", VArr [snapshot_record])])) = inr merged
    ∧ merge (shop None two_levels) "now" payload merged
      = ([GetLocationName (locationGid payload)], inr merged).
Proof.
  eexists. split; [reflexivity|].
  refine (WebhookMore.second_delivery_changes_nothing (shop None two_levels) "now" payload 7
            [("locations", VArr [snapshot_record])] [snapshot_record] (Some "A") _
            eq_refl eq_refl _ eq_refl eq_refl).
  repeat constructor.
Defined.

(** Two updates for the same item, with no stored snapshot. *)
Lemma bootstrap_sample :
  getVariant (shop None full_levels) (inventoryItemGid payload)
  = inr (Some (variant_with None))
  ∧ inventory_item_id other_payload = inventory_item_id payload
  ∧ handleInventoryUpdate (shop None full_levels) "now" other_payload
    = handleInventoryUpdate (shop None full_levels) "now" payload
  ∧ Forall (λ c, ∀ gid, c ≠ GetLocationName gid)
      (calls (handleInventoryUpdate (shop None full_levels) "now" payload)).
Proof.
  split; [reflexivity|]. split; [reflexivity|].
  exact (WebhookMore.bootstrap_ignores_the_update (shop None full_levels) "now" payload
           other_payload (variant_with None) eq_refl eq_refl eq_refl).
Defined.

(** A stored value that is the empty object. *)
Lemma empty_object_sample :
  Json.parse "{}" = inr (VObj [])
  ∧ (∀ locs, get (VObj []) "locations" ≠ inr (VArr locs))
  ∧ ∃ e, handleInventoryUpdate (shop (Some "{}") two_levels) "now" payload
         = ([GetVariantWithMetafield (inventoryItemGid payload);
             GetLocationName (locationGid payload)], inl e)
         ∧ (∀ location,
              getLocation (shop (Some "{}") two_levels) (locationGid payload) = inr location →
              ∃ msg, e = TypeError msg).
Proof.
  assert (H : ∀ locs, get (VObj []) "locations" ≠ inr (VArr locs)) by (intros locs; discriminate).
  assert (Htext : "{}" ≠ EmptyString) by discriminate.
  split; [reflexivity|]. split; [exact H|].
  exact (WebhookMore.snapshot_without_locations_is_never_repaired (shop (Some "{}") two_levels)
           "now" payload (variant_with (Some "{}"))
           {| metafield_id := "gid://shopify/Metafield/9"; metafield_value := VStr "{}" |}
           "{}" (VObj []) eq_refl eq_refl eq_refl Htext eq_refl H).
Defined.

(** Three variants, the write of the second of which throws. *)
Lemma failed_write_sample :
  Bulk.inventoryItem (bulk_variant "v2") = Some [bulk_level]
  ∧ refuses_v2 "v2" (Bulk.inventoryData "t1" [bulk_level]) = inl (Error "write refused")
  ∧ Bulk.bulkInventoryMetafields refuses_v2 "t1"
      ([bulk_variant "v1"] ++ bulk_variant "v2" :: [bulk_variant "v3"])
    = (bulk_writes "t1" [bulk_variant "v1"]
         ++ [MetafieldSet "v2" (Bulk.inventoryData "t1" [bulk_level])],
       inl (Error "write refused")).
Proof.
  assert (H : ∀ v ls, v ∈ [bulk_variant "v1"] → Bulk.inventoryItem v = Some ls →
                      refuses_v2 (Bulk.id v) (Bulk.inventoryData "t1" ls) = inr tt).
  { intros v ls Hin _. apply list_elem_of_singleton in Hin. subst v. reflexivity. }
  split; [reflexivity|]. split; [reflexivity|].
  exact (BulkMore.bulk_stops_at_the_first_failed_write refuses_v2 "t1" [bulk_variant "v1"]
           (bulk_variant "v2") [bulk_level] [bulk_variant "v3"] (Error "write refused")
           H eq_refl eq_refl).
Defined.

(** Two pages from an API that honours the cursor. *)
Lemma cursor_walk_sample :
  Catalog.follows by_cursor VNull
    [catalog_page "v1" true (VStr "c1"); catalog_page "v2" false VNull]
  ∧ Catalog.getAllVariantsWithInventory by_cursor 5
    = ([Catalog.options VNull; Catalog.options (VStr "c1")],
       Some (inr [bulk_variant "v1"; bulk_variant "v2"])).
Proof.
  assert (H : Catalog.follows by_cursor VNull
                [catalog_page "v1" true (VStr "c1"); catalog_page "v2" false VNull]).
  { repeat split. }
  assert (Hfuel : length [catalog_page "v1" true (VStr "c1"); catalog_page "v2" false VNull] ≤ 5).
  { repeat constructor. }
  split; [exact H|].
  exact (CatalogFacts.walk_follows_the_cursors by_cursor _ 5 H Hfuel).
Defined.

(** The same walk against an API that reads [variables]. *)
Lemma stuck_walk_sample :
  Catalog.reads_variables by_variables
  ∧ by_variables (Catalog.options VNull) = inr (Some (catalog_page "v1" true (VStr "c1")))
  ∧ (Catalog.getAllVariantsWithInventory by_variables 1000).2 = None
  ∧ length (Catalog.getAllVariantsWithInventory by_variables 1000).1 = 1000.
Proof.
  assert (H : Catalog.reads_variables by_variables).
  { intros o o' Hget. unfold by_variables.
    assert (Hopt : ∀ x, Body.opt_get x "variables"
                        = match get x "variables" with inr y => y | inl _ => VUndef end).
    { intros x. destruct x; reflexivity. }
    rewrite !Hopt, Hget. reflexivity. }
  split; [exact H|]. split; [reflexivity|].
  pose proof (CatalogFacts.walk_never_ends_when_cursor_is_no_variable by_variables
                (catalog_page "v1" true (VStr "c1")) 1000 H eq_refl eq_refl) as Hw.
  exact (conj (proj1 Hw) (proj1 (proj2 Hw))).
Defined.

(** The sample webhook, acknowledged. *)
Lemma acknowledged_sample :
  outcome (Route.action payload_text (inr session) "now") = inr 200
  ∧ ∃ reads variant snapshot r,
      calls (Route.action payload_text (inr session) "now")
      = reads ++ [MetafieldsSet (variant_id variant) snapshot]
      ∧ Forall (λ c, is_read c = true) reads
      ∧ setMetafields (shop (Some snapshot_text) two_levels) (variant_id variant) snapshot
        = inr r
      ∧ set_errors r = None.
Proof.
  split; [reflexivity|].
  exact (RouteFacts.acknowledged_update_was_written payload_text session
           (shop (Some snapshot_text) two_levels) "now" eq_refl eq_refl eq_refl).
Defined.

(** The write of the sample merge is the third request. *)
Lemma write_sample :
  calls (handleInventoryUpdate (shop (Some snapshot_text) two_levels) "now" payload) !! 2
  = Some (MetafieldsSet "gid://shopify/ProductVariant/1"
            (VObj [("locations", VArr [updatedLocation "now" (Some "A") payload])]))
  ∧ S 2 = length (calls (handleInventoryUpdate (shop (Some snapshot_text) two_levels)
                           "now" payload))
  ∧ outcome (handleInventoryUpdate (shop (Some snapshot_text) two_levels) "now" payload)
    = inr tt.
Proof.
  split; [reflexivity|].
  pose proof (WebhookMore.handler_writes_last_and_once (shop (Some snapshot_text) two_levels)
                "now" payload 2 _ _ eq_refl) as H.
  exact (conj (proj1 H) (proj2 (proj2 (proj2 H)))).
Defined.

(** A webhook whose body is the number 5. *)
Lemma number_body_sample :
  Json.parse "5" = inr (VNum 5)
  ∧ ∃ rest, calls (Route.action "5" (inr session) "now")
            = GetVariantWithMetafield "gid://shopify/InventoryItem/undefined" :: rest.
Proof.
  assert (H1 : VNum 5 ≠ VNull) by discriminate.
  assert (H2 : VNum 5 ≠ VUndef) by discriminate.
  assert (H3 : ∀ l, VNum 5 ≠ VObj l) by (intros l; discriminate).
  split; [reflexivity|].
  exact (proj2 (RouteFacts.body_that_is_no_object "5" (VNum 5) session
                  (shop (Some snapshot_text) two_levels) "now" eq_refl eq_refl eq_refl)
           H1 H2 H3).
Defined.

(** The snapshot of the two sample levels, written and read back. *)
Lemma round_trip_sample :
  plain (task_snapshot "t1" two_levels) = true
  ∧ ∃ text, stringify (task_snapshot "t1" two_levels) = inr text
            ∧ Json.parse text = inr (task_snapshot "t1" two_levels).
Proof.
  split; [reflexivity|].
  exact (StoredSnapshot.parse_reads_back_stringify (task_snapshot "t1" two_levels) eq_refl).
Defined.


(** The sample update, delivered again after its own write was stored. *)
Lemma redelivery_sample :
  outcome (merge (shop (Some merged_text) two_levels) "now" payload
             (VObj [("locations", VArr [snapshot_record])])) = inr merged_snapshot
  ∧ stringify merged_snapshot = inr merged_text
  ∧ handleInventoryUpdate (shop (Some merged_text) two_levels) "now" payload
    = ([GetVariantWithMetafield (inventoryItemGid payload);
        GetLocationName (locationGid payload);
        MetafieldsSet "gid://shopify/ProductVariant/1" merged_snapshot],
       after_write (setMetafields (shop (Some merged_text) two_levels)
                      "gid://shopify/ProductVariant/1" merged_snapshot)).
Proof.
  assert (Hobj : Forall (λ loc, is_object loc = true) [snapshot_record]).
  { repeat constructor. }
  split; [reflexivity|]. split; [reflexivity|].
  exact (StoredSnapshot.redelivery_writes_the_same_snapshot
           (shop (Some merged_text) two_levels) "now" payload 7
           [("locations", VArr [snapshot_record])] [snapshot_record] (Some "A")
           merged_snapshot merged_text (variant_with (Some merged_text))
           {| metafield_id := "gid://shopify/Metafield/9"; metafield_value := VStr merged_text |}
           eq_refl eq_refl Hobj eq_refl eq_refl eq_refl eq_refl eq_refl eq_refl eq_refl).
Defined.

End MoreSamples.
